(** * Sparta provisioning workflow: a shallow embedding and its properties

    The development follows the Go sources of the provisioning pipeline:
    - [sparta.go]      naming of functions and IAM roles, precondition checks;
    - [apigateway.go]  the API Gateway resource/method builders;
    - [provision.go]   the workflow steps, the upload step, rollback and the
                       [Provision] driver;
    - [s3site_build.go] the S3 site export.

    Go values are modelled as follows.  A Go [error] is its message; a nil
    error is [None].  A pointer to a mutable struct is a location in a finite
    map; a call that may panic returns an [outcome].  Calls that leave the
    process (AWS services, the file system, the Go tool chain, user hooks, the
    logger) are [call]s appended to a trace; what they answer is decided by an
    arbitrary oracle that sees the whole history. *)

From Stdlib Require Import Ascii String.
From stdpp Require Import base option strings list gmap fin_maps.

Set Warnings "-register-all,-clear-no-such-hyp".


(** ** Go basics *)

(** [errors.New(text)]: an error is identified with its message. *)
Definition error := string.

(** Result of a call that either returns or panics. *)
Inductive outcome (A : Type) : Type :=
| Ret (a : A)
| Panic (msg : string).
Arguments Ret {A} a.
Arguments Panic {A} msg.

(** Addresses of heap allocated structs (pointers to [IAMRoleDefinition] and [Method]). *)
Abbreviation loc := nat (only parsing).

(** Identity of a Go function value, as seen by [reflect.ValueOf(f).Pointer()]. *)
Abbreviation funcptr := nat (only parsing).

(** ** The [strings] and [regexp] calls used by the sources *)

Module GoStrings.

(** [strings.Contains(s, substr)] *)
Definition Contains (s substr : string) : bool :=
  match String.index 0 substr s with
  | Some _ => true
  | None => false
  end.

(** [strings.Split(s, sep)] for the one-byte separators the sources use;
    the second component is the current, last segment. *)
Fixpoint split_aux (sep : ascii) (s : string) (cur : string) : list string :=
  match s with
  | EmptyString => [cur]
  | String c rest =>
      if Ascii.eqb c sep then cur :: split_aux sep rest ""
      else split_aux sep rest (cur +:+ String c "")
  end.

Definition Split (s : string) (sep : ascii) : list string := split_aux sep s "".

(** [strings.Join(elems, sep)] *)
Definition Join (elems : list string) (sep : string) : string :=
  String.concat sep elems.

Definition is_paren (c : ascii) : bool :=
  Ascii.eqb c "("%char || Ascii.eqb c ")"%char.

(** [reCapture.FindAllString(s, -1)]: the successive leftmost matches of an opening parenthesis, a non-empty
    run without parentheses and a closing parenthesis.  [open] is the
    run read since the last opening parenthesis, if one is pending. *)
Fixpoint findAllCapture_aux (s : string) (open : option string) : list string :=
  match s with
  | EmptyString => []
  | String c rest =>
      if Ascii.eqb c "("%char then findAllCapture_aux rest (Some "")
      else if Ascii.eqb c ")"%char then
        match open with
        | Some (String a body) =>
            ("(" +:+ String a body +:+ ")") :: findAllCapture_aux rest None
        | _ => findAllCapture_aux rest None
        end
      else
        match open with
        | Some body => findAllCapture_aux rest (Some (body +:+ String c ""))
        | None => findAllCapture_aux rest None
        end
  end.

Definition reCapture_FindAllString (s : string) : list string :=
  findAllCapture_aux s None.

(** [reClean.ReplaceAllString(s, empty)]: [reClean] matches every run of
    stars and parentheses, which the call deletes. *)
Fixpoint reClean_ReplaceAllString (s : string) : string :=
  match s with
  | EmptyString => EmptyString
  | String c rest =>
      if Ascii.eqb c "*"%char || is_paren c then reClean_ReplaceAllString rest
      else String c (reClean_ReplaceAllString rest)
  end.

(** The class [\w] of Go regular expressions: [0-9A-Za-z_]. *)
Definition is_word (c : ascii) : bool :=
  let n := nat_of_ascii c in
  ((48 <=? n)%nat && (n <=? 57)%nat) || ((65 <=? n)%nat && (n <=? 90)%nat)
  || ((97 <=? n)%nat && (n <=? 122)%nat) || (n =? 95)%nat.

(** [reSanitize.ReplaceAllString(s, "_")] with [reSanitize = `\W+`]:
    every maximal run of non-word bytes becomes one underscore.
    [inrun] tells whether the previous byte was a non-word byte. *)
Fixpoint reSanitize_aux (s : string) (inrun : bool) : string :=
  match s with
  | EmptyString => EmptyString
  | String c rest =>
      if is_word c then String c (reSanitize_aux rest false)
      else if inrun then reSanitize_aux rest true
      else String "_" (reSanitize_aux rest true)
  end.

Definition reSanitize_ReplaceAllString (s : string) : string :=
  reSanitize_aux s false.

End GoStrings.

(** ** The [path] and [path/filepath] calls used by the sources

    Go's standard library on a Unix system; bytes stand for characters. *)

Module GoPath.

Definition isEmpty (s : string) : bool := String.eqb s "".

(** The path name elements that [Clean] keeps, last element first:
    empty and [.] elements go; [..] removes the element before it, stays
    when there is none to remove in a relative path, and goes at the
    root. *)
Definition cleanElements (rooted : bool) (elems : list string) : list string :=
  foldl (fun kept e =>
           if isEmpty e || String.eqb e "." then kept
           else if String.eqb e ".." then
             match kept with
             | top :: below => if String.eqb top ".." then e :: kept else below
             | [] => if rooted then [] else [e]
             end
           else e :: kept) [] elems.

(** [path.Clean] *)
Definition Clean (path : string) : string :=
  match path with
  | EmptyString => "."
  | String c _ =>
      let rooted := Ascii.eqb c "/"%char in
      let out := String.concat "/" (rev (cleanElements rooted (GoStrings.Split path "/"%char))) in
      if rooted then "/" +:+ out
      else if isEmpty out then "." else out
  end.

Fixpoint dropEmpty (elems : list string) : list string :=
  match elems with
  | e :: rest => if isEmpty e then dropEmpty rest else elems
  | [] => []
  end.

(** [path.Join]: empty leading elements are ignored, the rest is joined
    with slashes and cleaned; no element at all gives the empty string. *)
Definition Join (elem : list string) : string :=
  match dropEmpty elem with
  | [] => ""
  | l => Clean (String.concat "/" l)
  end.

(** [filepath.Base]: the last element of the path, trailing slashes
    removed first. *)
Definition Base (path : string) : string :=
  if isEmpty path then "."
  else
    match dropEmpty (rev (GoStrings.Split path "/"%char)) with
    | e :: _ => e
    | [] => "/"
    end.

Fixpoint hasSlash (s : string) : bool :=
  match s with
  | EmptyString => false
  | String c rest => Ascii.eqb c "/"%char || hasSlash rest
  end.

(** A plain file or directory name: not empty, no slash, neither [.] nor
    [..]. *)
Definition plainName (s : string) : bool :=
  negb (isEmpty s) && negb (String.eqb s ".") && negb (String.eqb s "..")
  && negb (hasSlash s).

End GoPath.

(** ** Declarations of a service (sparta.go) *)

Record SpartaOptions := mkSpartaOptions {
  so_Name : string
}.

Record LambdaFunctionOptions := mkLambdaFunctionOptions {
  lfo_Description : string;
  lfo_VpcConfig : bool;                       (* VpcConfig != nil *)
  lfo_SpartaOptions : option SpartaOptions
}.

Record IAMRolePrivilege := mkIAMRolePrivilege {
  Actions : list string;
  Resource_ : string
}.

Record IAMRoleDefinition := mkIAMRoleDefinition {
  Privileges : list IAMRolePrivilege;
  cachedLogicalName : string
}.

Record customResourceInfo := mkCustomResourceInfo {
  roleDefinition : option loc;
  roleName : string;
  cr_handlerSymbol : option funcptr;
  userFunctionName : string;
  cr_options : option LambdaFunctionOptions
}.

(** [lambdaFnName] is the name field that provision.go and apigateway.go
    read; sparta.go derives the name with [lambdaFunctionName] and keeps it
    in [cachedLambdaFunctionName]. *)
Record LambdaAWSInfo := mkLambdaAWSInfo {
  handlerSymbol : option funcptr;
  lambdaFn : option funcptr;
  userSuppliedFunctionName : string;
  lambdaFnName : string;
  RoleName : string;
  RoleDefinition : option loc;
  Options : option LambdaFunctionOptions;
  customResources : list customResourceInfo;
  cachedLambdaFunctionName : string
}.

Definition set_cachedLambdaFunctionName (n : string) (info : LambdaAWSInfo) : LambdaAWSInfo :=
  {| handlerSymbol := handlerSymbol info;
     lambdaFn := lambdaFn info;
     userSuppliedFunctionName := userSuppliedFunctionName info;
     lambdaFnName := lambdaFnName info;
     RoleName := RoleName info;
     RoleDefinition := RoleDefinition info;
     Options := Options info;
     customResources := customResources info;
     cachedLambdaFunctionName := n |}.

Definition set_cachedLogicalName (n : string) (d : IAMRoleDefinition) : IAMRoleDefinition :=
  {| Privileges := Privileges d; cachedLogicalName := n |}.

(** The role definitions that pointers to [IAMRoleDefinition] refer to.  A
    pointer that was never written reads as the zero value of the struct. *)
Abbreviation roleHeap := (gmap loc IAMRoleDefinition) (only parsing).

Definition zeroRoleDefinition : IAMRoleDefinition :=
  {| Privileges := []; cachedLogicalName := "" |}.

Definition deref (h : roleHeap) (p : loc) : IAMRoleDefinition :=
  default zeroRoleDefinition (h !! p).

(** [sanitizedName] *)
Definition sanitizedName (input : string) : string :=
  GoStrings.reSanitize_ReplaceAllString input.

(** ** The world outside the process *)

Inductive logLevel := Debug | Info | Warning | Error.

(** User supplied callbacks of [WorkflowHooks]. *)
Inductive hookKind :=
| PreBuild | PostBuild | Archive | PreMarshall | ServiceDecorator
| PostMarshall | Rollback.

(** Every effect the provisioning code has outside its own memory. *)
Inductive call :=
| IAMGetRole (roleName : string)
| S3GetBucketLifecycleConfiguration (bucket : string)
| S3UploadLocalFile (localPath bucket keyPrefix : string)
| S3DeleteObject (bucket key : string)
| ConvergeStackState (serviceName bucket key : string) (resources : list string)
| OSRemove (path : string)
| OSStat (path : string)
| TemporaryFile (name : string)
| FilepathAbs (path : string)
| GoGenerate
| GoBuild (output tags : string)
| ZipCreate (entry : string)
| ZipWrite (entry content : string)
| ZipAddToZip (source rootSource : string)
| ZipClose
| FileClose (path : string)
| RunHook (kind : hookKind) (hook : funcptr)
| ExportLambda (lambdaName : string)
| ExportAPI (apiName : string)
| LambdaFunctionEnvironment (functionName : string)
| NewCloudFormationResource (resourceType : string)
| SafeMergeTemplates (source : string)
| UserGoPath
| BuildSysInfoSample
| JSONMarshal
| JSONMarshalIndent
| WriteTemplate
| Log (level : logLevel) (message : string).

(** What the outside answers: success with a payload (an ARN, a file
    name, ...) or an error. *)
Inductive response :=
| ROk (payload : string)
| RErr (e : error).

(** The history: the calls made so far, each with its answer. *)
Definition event : Type := call * response.

(** Functions and constants that the sources use and that are defined in
    other packages.  [respond] is the outside world: the answer to a call may
    depend on everything that happened before.  [schedule] is the Go
    scheduler: the order in which the goroutines started at a point of the
    history get to run. *)
Class Externals := {
  respond : list event -> call -> response;
  schedule : list event -> list nat;
  runtimeFuncName : funcptr -> string;
  CloudFormationResourceName : string -> list string -> string;
  ensureValidSignature : string -> option funcptr -> option error;
  jsHandlerName : LambdaAWSInfo -> string;
  customResource_jsHandlerName : customResourceInfo -> string;
  javascriptExportNameForCustomResourceType : string -> string;
  golangCustomResourceTypes : list string;
  escFSMustString : string -> string;
  stableCloudformationResourceName : string -> string;
  os_IsNotExist : error -> bool;
  sha1_hex : string -> string
}.

(** ** A state monad for code that threads mutable state *)

Definition St (S A : Type) : Type := S -> A * S.

Definition ret {S A} (a : A) : St S A := fun s => (a, s).

Definition bind {S A B} (m : St S A) (k : A -> St S B) : St S B :=
  fun s => let (a, s') := m s in k a s'.

Declare Scope st_scope.
Delimit Scope st_scope with st.
Notation "x <- m ;; k" := (bind m (fun x => k))
  (at level 100, m at next level, right associativity) : st_scope.
Notation "m ;;; k" := (bind m (fun _ => k))
  (at level 100, right associativity) : st_scope.
Local Open Scope st_scope.

(** Code that only talks to the outside world threads the history. *)
Definition W (A : Type) : Type := St (list event) A.

Definition ext `{Externals} (c : call) : W response :=
  fun tr => (respond tr c, tr ++ [(c, respond tr c)]).

(** The logger answers nothing of interest. *)
Definition log (level : logLevel) (message : string) : W unit :=
  fun tr => (tt, tr ++ [(Log level message, ROk "")]).

Definition err_of (r : response) : option error :=
  match r with
  | ROk _ => None
  | RErr e => Some e
  end.

(** ** Goroutines joined by a [sync.WaitGroup]

    The tasks run to completion one after the other in an order chosen by the
    scheduler; [pick_order] turns any choice sequence into an order of the
    tasks, each task appearing once. *)

Fixpoint take_nth {A} (n : nat) (l : list A) : option (A * list A) :=
  match l with
  | [] => None
  | x :: l' =>
      match n with
      | O => Some (x, l')
      | S n' =>
          match take_nth n' l' with
          | Some (y, r) => Some (y, x :: r)
          | None => None
          end
      end
  end.

Fixpoint pick_order {A} (choices : list nat) (tasks : list A) : list A :=
  match choices with
  | [] => tasks
  | n :: choices' =>
      match take_nth n tasks with
      | Some (t, rest) => t :: pick_order choices' rest
      | None => pick_order choices' tasks
      end
  end.

Fixpoint run_all {S} (tasks : list (St S unit)) : St S unit :=
  match tasks with
  | [] => ret tt
  | t :: tasks' => _ <- t ;; run_all tasks'
  end.

(** ** Naming (sparta.go) *)

(** [SpartaOptions.Name] when [Options] and [Options.SpartaOptions] are set
    and the name is not empty. *)
Definition spartaOptionsName (info : LambdaAWSInfo) : option string :=
  match Options info with
  | Some o =>
      match lfo_SpartaOptions o with
      | Some so => if String.eqb "" (so_Name so) then None else Some (so_Name so)
      | None => None
      end
  | None => None
  end.

(** [LambdaAWSInfo.lambdaFunctionName]: returns the name and the struct
    with its cache written.  [parts[1]] and [parts[len(parts)-1]] panic when
    the index is out of range. *)
Definition lambdaFunctionName `{Externals} (info : LambdaAWSInfo)
  : outcome string * LambdaAWSInfo :=
  if negb (String.eqb (cachedLambdaFunctionName info) "") then
    (Ret (cachedLambdaFunctionName info), info)
  else
    let lambdaFuncName := userSuppliedFunctionName info in
    let computed : outcome string :=
      match spartaOptionsName info with
      | Some n => Ret n
      | None =>
          let lambdaFuncName :=
            match lambdaFn info with
            | Some f => runtimeFuncName f
            | None => lambdaFuncName
            end in
          let structDefined :=
            GoStrings.Contains lambdaFuncName "(" || GoStrings.Contains lambdaFuncName ")" in
          let otherPackage := GoStrings.Contains lambdaFuncName "/" in
          let canonicalName : outcome string :=
            if structDefined then
              match GoStrings.reCapture_FindAllString lambdaFuncName with
              | p0 :: p1 :: _ =>
                  match last (GoStrings.Split p1 "/"%char) with
                  | Some l => Ret (GoStrings.reClean_ReplaceAllString (p0 +:+ "-" +:+ l))
                  | None => Panic "index out of range"
                  end
              | _ => Panic "index out of range"
              end
            else if otherPackage then
              match last (GoStrings.Split lambdaFuncName "/"%char) with
              | Some l => Ret l
              | None => Panic "index out of range"
              end
            else Ret lambdaFuncName in
          match canonicalName with
          | Ret c => Ret (sanitizedName c)
          | Panic m => Panic m
          end
      end in
    match computed with
    | Ret n => (Ret n, set_cachedLambdaFunctionName n info)
    | Panic m => (Panic m, info)
    end.

(** [IAMRoleDefinition.logicalName]: the definition behind [p] caches the
    first non-empty name it computed. *)
Definition IAMRoleDefinition_logicalName `{Externals}
    (p : loc) (serviceName targetLambdaFnName : string) (h : roleHeap)
  : string * roleHeap :=
  let d := deref h p in
  let h' :=
    if String.eqb "" (cachedLogicalName d) then
      <[p := set_cachedLogicalName
               (CloudFormationResourceName "IAMRole" [serviceName; targetLambdaFnName]) d]> h
    else h in
  (cachedLogicalName (deref h' p), h').

(** [n] successive calls of [lambdaFunctionName] on the same struct: the
    values returned, in order, and the struct after the last call. *)
Fixpoint lambdaFunctionName_calls `{Externals} (n : nat) (info : LambdaAWSInfo)
  : list (outcome string) * LambdaAWSInfo :=
  match n with
  | O => ([], info)
  | S n' =>
      let (r, info') := lambdaFunctionName info in
      let (rs, info'') := lambdaFunctionName_calls n' info' in
      (r :: rs, info'')
  end.

(** Successive calls of [logicalName] through the same pointer, each with
    its own arguments. *)
Fixpoint logicalName_calls `{Externals} (p : loc) (args : list (string * string))
    (h : roleHeap) : list string * roleHeap :=
  match args with
  | [] => ([], h)
  | (serviceName, fnName) :: args' =>
      let (r, h') := IAMRoleDefinition_logicalName p serviceName fnName h in
      let (rs, h'') := logicalName_calls p args' h' in
      (r :: rs, h'')
  end.

(** ** Preconditions (sparta.go) *)

Definition incrementCounter (keyName : string) (collisionMemo : gmap string nat)
  : gmap string nat :=
  match collisionMemo !! keyName with
  | None => <[keyName := 1]> collisionMemo
  | Some n => <[keyName := n + 1]> collisionMemo
  end.

(** Loop 0 of [validateSpartaPreconditions]: the messages of the invalid
    signatures, in declaration order. *)
Definition signatureErrors `{Externals} (lambdaAWSInfos : list LambdaAWSInfo) : list string :=
  omap (fun l => ensureValidSignature (userSuppliedFunctionName l) (handlerSymbol l))
       lambdaAWSInfos.

(** Loop 1: count every derived function name and every custom resource
    function name.  The structs come back with their name caches written. *)
Fixpoint countDefinitions `{Externals} (lambdaAWSInfos : list LambdaAWSInfo)
    (collisionMemo : gmap string nat)
  : outcome (gmap string nat) * list LambdaAWSInfo :=
  match lambdaAWSInfos with
  | [] => (Ret collisionMemo, [])
  | eachLambda :: rest =>
      match lambdaFunctionName eachLambda with
      | (Ret n, eachLambda') =>
          let memo1 := incrementCounter n collisionMemo in
          let memo2 :=
            foldl (fun m eachCustom => incrementCounter (userFunctionName eachCustom) m)
                  memo1 (customResources eachLambda') in
          let (r, rest') := countDefinitions rest memo2 in
          (r, eachLambda' :: rest')
      | (Panic m, eachLambda') => (Panic m, eachLambda' :: rest)
      end
  end.

(** The names defined more than once.  Go ranges over the map in an
    unspecified order; the order of the map's list is used here. *)
Definition duplicates (collisionMemo : gmap string nat) : list (string * nat) :=
  filter (fun kv => 1 < kv.2) (map_to_list collisionMemo).

Definition sysinfoPath (goPath : string) : string :=
  GoPath.Join [goPath; "src"; "github.com"; "zcalusic"; "sysinfo"; "sysinfo.go"].

Definition sysinfoMessage : string :=
  "Please run `go get -u -v github.com/zcalusic/sysinfo` to install this Linux-only package. This package is used when cross-compiling your AWS Lambda binary and cannot be reliably imported across platforms. When you `go get` the package, you may see errors as in `undefined: syscall.Utsname`. These are expected and can be ignored".

Fixpoint logCollisions (dups : list (string * nat)) : W unit :=
  match dups with
  | [] => ret tt
  | _ :: dups' => _ <- log Error "HandleAWSLambda" ;; logCollisions dups'
  end.

(** [validateSpartaPreconditions] *)
Definition validateSpartaPreconditions `{Externals} (lambdaAWSInfos : list LambdaAWSInfo)
  : W (outcome (option error) * list LambdaAWSInfo) :=
  let errorText := signatureErrors lambdaAWSInfos in
  match countDefinitions lambdaAWSInfos ∅ with
  | (Panic m, infos') => ret (Panic m, infos')
  | (Ret collisionMemo, infos') =>
      let dups := duplicates collisionMemo in
      _ <- logCollisions dups ;;
      let errorText :=
        errorText ++ map (fun kv => "Multiple definitions of lambda: " +:+ kv.1) dups in
      _ <- log Debug "Lambda collision map" ;;
      if negb (length errorText =? 0) then
        ret (Ret (Some (GoStrings.Join errorText (String "010"%char ""))), infos')
      else
        goPath <- ext UserGoPath ;;
        let path := sysinfoPath (match goPath with ROk p => p | RErr _ => "" end) in
        _ <- log Debug "Checking installation status of github.com/zcalusic/sysinfo" ;;
        sysinfoErr <- ext (OSStat path) ;;
        if match sysinfoErr with RErr e => os_IsNotExist e | ROk _ => false end then
          sampleErr <- ext BuildSysInfoSample ;;
          match sampleErr with
          | RErr _ =>
              _ <- log Error "The `github.com/zcalusic/sysinfo` package is not installed" ;;
              ret (Ret (Some sysinfoMessage), infos')
          | ROk _ => ret (Ret None, infos')
          end
        else ret (Ret None, infos')
  end.

(** ** API Gateway builders (apigateway.go) *)

(** The request, model, response and integration maps of a [Method] are
    created empty and are not read by the builders below. *)
Record Method := mkMethod {
  authorizationType : string;
  httpMethod : string;
  APIKeyRequired : bool
}.

Record Resource := mkResource {
  pathPart : string;
  Methods : gmap string loc
}.

Abbreviation methodHeap := (gmap loc Method) (only parsing).

Definition set_authorizationType (a : string) (m : Method) : Method :=
  {| authorizationType := a; httpMethod := httpMethod m; APIKeyRequired := APIKeyRequired m |}.

(** [Resource.NewMethod]: the pointer to the new method, or nil and an
    error when the HTTP method is taken.  The state is the receiver and the
    methods that pointers refer to. *)
Definition NewMethod (httpMethod : string)
  : St (Resource * methodHeap) (option loc * option error) :=
  fun '(resource, h) =>
    let authorizationType := "NONE" in
    let keyname := httpMethod in
    match Methods resource !! keyname with
    | Some _ =>
        let errMsg := "Method " +:+ httpMethod +:+ " (Auth: " +:+ authorizationType
                      +:+ ") already defined for resource" in
        ((None, Some errMsg), (resource, h))
    | None =>
        let method := fresh (dom h) in
        let h' := <[method := {| authorizationType := authorizationType;
                                 httpMethod := httpMethod;
                                 APIKeyRequired := false |}]> h in
        let resource' := {| pathPart := pathPart resource;
                            Methods := <[keyname := method]> (Methods resource) |} in
        ((Some method, None), (resource', h'))
    end.

(** The message of the panic of an access through a nil pointer. *)
Definition nilDereference : string :=
  "invalid memory address or nil pointer dereference".

(** [Resource.NewAuthorizedMethod].  The assignment
    [method.authorizationType = authorizationType] sits under [nil != err];
    it goes through the pointer [NewMethod] returned, and panics when that
    pointer is nil. *)
Definition NewAuthorizedMethod (httpMethod authorizationType : string)
  : St (Resource * methodHeap) (outcome (option loc * option error)) :=
  fun s =>
    let '((method, err), (resource', h')) := NewMethod httpMethod s in
    match err with
    | Some _ =>
        match method with
        | None => (Panic nilDereference, (resource', h'))
        | Some p =>
            (Ret (method, err),
             (resource', alter (set_authorizationType authorizationType) p h'))
        end
    | None => (Ret (method, err), (resource', h'))
    end.

(** ** The workflow context (provision.go) *)

(** [gocf.StringExpr] values kept in the role map: a reference to the ARN
    of a resource of the template, or a literal ARN. *)
Inductive StringExpr :=
| GetAtt (logicalName attribute : string)
| StringLiteral (s : string).

(** Bodies of the resources of a template. *)
Inductive resourceBody :=
| IAMRoleResource (privileges : list IAMRolePrivilege) (vpc : bool)
| OtherResource (cfnResourceType : string).

(** [gocf.Template]: [AddResource] writes [Resources[name]]. *)
Record Template := mkTemplate {
  tpl_Description : string;
  Resources : gmap string resourceBody;
  Outputs : gmap string StringExpr
}.

Definition NewTemplate : Template :=
  {| tpl_Description := ""; Resources := ∅; Outputs := ∅ |}.

Definition AddResource (name : string) (body : resourceBody) (t : Template) : Template :=
  {| tpl_Description := tpl_Description t;
     Resources := <[name := body]> (Resources t);
     Outputs := Outputs t |}.

Definition AddOutput (name : string) (v : StringExpr) (t : Template) : Template :=
  {| tpl_Description := tpl_Description t;
     Resources := Resources t;
     Outputs := <[name := v]> (Outputs t) |}.

(** [IAMRoleDefinition.toResource]: the core statements, one statement per
    privilege, and the VPC statements when the options carry a VPC
    configuration.  The resource of a privilege is a string here: the type
    switch of [resourceExpr], which panics for a resource that is neither a
    string nor a string expression, is not part of the model. *)
Definition toResource (d : IAMRoleDefinition) (options : option LambdaFunctionOptions)
  : resourceBody :=
  IAMRoleResource (Privileges d)
                  (match options with Some o => lfo_VpcConfig o | None => false end).

(** Modelled from the spec: [spartaS3.CreateS3RollbackFunc], which lives in
    the package aws/s3.  A rollback action is bound at registration time to the
    object it can undo and, when invoked, deletes that object from object
    storage ([delete(bucket, key) -> ok|error]). *)
Inductive RollbackFunction :=
| CreateS3RollbackFunc (bucket key : string).

Definition invokeRollbackFunction `{Externals} (f : RollbackFunction) : W (option error) :=
  match f with
  | CreateS3RollbackFunc bucket key =>
      r <- ext (S3DeleteObject bucket key) ;; ret (err_of r)
  end.

Record WorkflowHooks := mkWorkflowHooks {
  hook_PreBuild : option funcptr;
  hook_PostBuild : option funcptr;
  hook_Archive : option funcptr;
  hook_PreMarshall : option funcptr;
  hook_ServiceDecorator : option funcptr;
  hook_PostMarshall : option funcptr;
  hook_Rollback : option funcptr
}.

Record API := mkAPI { api_name : string }.

Record S3Site := mkS3Site { site_resources : string; site_bucketResourceName : string }.

Record workflowContext := mkWorkflowContext {
  noop : bool;
  serviceName : string;
  serviceDescription : string;
  lambdaAWSInfos : list LambdaAWSInfo;
  api : option API;
  s3Site : option S3Site;                 (* s3SiteContext.s3Site *)
  s3SiteLambdaZipKey : string;            (* s3SiteContext.s3SiteLambdaZipKey *)
  cfTemplate : Template;
  lambdaIAMRoleNameMap : gmap string StringExpr;
  s3Bucket : string;
  buildID : string;
  buildTags : string;
  s3LambdaZipKey : string;
  templateWriter : bool;                  (* templateWriter != nil *)
  loggerAtMostDebug : bool;               (* logger.Level <= logrus.DebugLevel *)
  workflowHooks : option WorkflowHooks;
  rollbackFunctions : list RollbackFunction
}.

Definition set_s3SiteLambdaZipKey (k : string) (c : workflowContext) : workflowContext :=
  mkWorkflowContext (noop c) (serviceName c) (serviceDescription c) (lambdaAWSInfos c)
    (api c) (s3Site c) k (cfTemplate c) (lambdaIAMRoleNameMap c) (s3Bucket c)
    (buildID c) (buildTags c) (s3LambdaZipKey c) (templateWriter c)
    (loggerAtMostDebug c) (workflowHooks c) (rollbackFunctions c).

Definition set_cfTemplate (t : Template) (c : workflowContext) : workflowContext :=
  mkWorkflowContext (noop c) (serviceName c) (serviceDescription c) (lambdaAWSInfos c)
    (api c) (s3Site c) (s3SiteLambdaZipKey c) t (lambdaIAMRoleNameMap c) (s3Bucket c)
    (buildID c) (buildTags c) (s3LambdaZipKey c) (templateWriter c)
    (loggerAtMostDebug c) (workflowHooks c) (rollbackFunctions c).

Definition set_lambdaIAMRoleNameMap (m : gmap string StringExpr) (c : workflowContext)
  : workflowContext :=
  mkWorkflowContext (noop c) (serviceName c) (serviceDescription c) (lambdaAWSInfos c)
    (api c) (s3Site c) (s3SiteLambdaZipKey c) (cfTemplate c) m (s3Bucket c)
    (buildID c) (buildTags c) (s3LambdaZipKey c) (templateWriter c)
    (loggerAtMostDebug c) (workflowHooks c) (rollbackFunctions c).

Definition set_s3LambdaZipKey (k : string) (c : workflowContext) : workflowContext :=
  mkWorkflowContext (noop c) (serviceName c) (serviceDescription c) (lambdaAWSInfos c)
    (api c) (s3Site c) (s3SiteLambdaZipKey c) (cfTemplate c) (lambdaIAMRoleNameMap c)
    (s3Bucket c) (buildID c) (buildTags c) k (templateWriter c)
    (loggerAtMostDebug c) (workflowHooks c) (rollbackFunctions c).

Definition set_rollbackFunctions (fs : list RollbackFunction) (c : workflowContext)
  : workflowContext :=
  mkWorkflowContext (noop c) (serviceName c) (serviceDescription c) (lambdaAWSInfos c)
    (api c) (s3Site c) (s3SiteLambdaZipKey c) (cfTemplate c) (lambdaIAMRoleNameMap c)
    (s3Bucket c) (buildID c) (buildTags c) (s3LambdaZipKey c) (templateWriter c)
    (loggerAtMostDebug c) (workflowHooks c) fs.

(** What a workflow step works on: the context behind the [ctx] pointer, the
    role definitions behind the pointers of the declarations, and the
    history of the outside world. *)
Record state := mkState {
  ctx : workflowContext;
  heap : roleHeap;
  trace : list event
}.

Definition Step_ (A : Type) : Type := St state A.

Definition liftW {A} (m : W A) : Step_ A :=
  fun s => let (a, tr) := m (trace s) in (a, mkState (ctx s) (heap s) tr).

Definition getCtx : Step_ workflowContext := fun s => (ctx s, s).

Definition modifyCtx (f : workflowContext -> workflowContext) : Step_ unit :=
  fun s => (tt, mkState (f (ctx s)) (heap s) (trace s)).

(** [type workflowStep func(ctx *workflowContext) (workflowStep, error)] *)
Inductive workflowStep : Type :=
| Step (run : state -> (option workflowStep * option error) * state).

Definition runStep (step : workflowStep)
  : state -> (option workflowStep * option error) * state :=
  match step with Step run => run end.

(** [workflowContext.registerRollback] *)
Definition registerRollback (userFunction : RollbackFunction) (c : workflowContext)
  : workflowContext :=
  let fs := if (length (rollbackFunctions c) <=? 0)%nat then [] else rollbackFunctions c in
  set_rollbackFunctions (fs ++ [userFunction]) c.

(** The goroutines that [rollback] starts: one for the user defined
    rollback hook, if there is one, and one per registered function. *)
Inductive rollbackTask :=
| HookTask (hook : funcptr)
| CleanupTask (cleanupFunc : RollbackFunction).

(** What each goroutine does.  The hook returns nothing; the failure of a
    cleanup function is logged as a warning and goes nowhere else. *)
Definition runRollbackTask `{Externals} (t : rollbackTask) : W unit :=
  match t with
  | HookTask hook => _ <- ext (RunHook Rollback hook) ;; ret tt
  | CleanupTask cleanupFunc =>
      err <- invokeRollbackFunction cleanupFunc ;;
      match err with
      | Some e => log Warning ("Failed to cleanup resource: " +:+ e)
      | None => ret tt
      end
  end.

Definition rollbackTasks (c : workflowContext) : list rollbackTask :=
  match workflowHooks c with
  | Some hooks =>
      match hook_Rollback hooks with
      | Some hook => [HookTask hook]
      | None => []
      end
  | None => []
  end
  ++ map CleanupTask (rollbackFunctions c).

(** [workflowContext.rollback]: returns nothing.  The goroutines are joined
    by [wg.Wait()]. *)
Definition rollback `{Externals} : Step_ unit :=
  c <- getCtx ;;
  _ <- liftW (log Info "Invoking rollback functions") ;;
  liftW (fun tr =>
           run_all (map runRollbackTask (pick_order (schedule tr) (rollbackTasks c))) tr).

(** Reading a history: the objects whose deletion was asked for (as the
    rollback functions that ask for it), the rollback hooks that ran, the
    warnings logged, and the warnings that the failed deletions call for. *)
Definition deletions (tr : list event) : list RollbackFunction :=
  omap (fun ev => match ev.1 with
                  | S3DeleteObject bucket key => Some (CreateS3RollbackFunc bucket key)
                  | _ => None
                  end) tr.

Definition rollbackHookRuns (tr : list event) : list funcptr :=
  omap (fun ev => match ev.1 with
                  | RunHook Rollback hook => Some hook
                  | _ => None
                  end) tr.

Definition warnings (tr : list event) : list string :=
  omap (fun ev => match ev.1 with
                  | Log Warning message => Some message
                  | _ => None
                  end) tr.

Definition failedDeletions (tr : list event) : list string :=
  omap (fun ev => match ev with
                  | (S3DeleteObject _ _, RErr e) => Some ("Failed to cleanup resource: " +:+ e)
                  | _ => None
                  end) tr.

(** The calls that the goroutines of [rollback] make. *)
Definition isRollbackCall (c : call) : bool :=
  match c with
  | S3DeleteObject _ _ | RunHook Rollback _ | Log Warning _ => true
  | _ => false
  end.

(** ** Upload helpers (provision.go) *)

Definition newline : string := String "010"%char "".

(** [logFilesize] *)
Definition logFilesize `{Externals} (message filePath : string) : W unit :=
  stat <- ext (OSStat filePath) ;;
  match stat with
  | ROk _ => log Info message
  | RErr _ => ret tt
  end.

(** [ensureExpirationPolicy] *)
Definition ensureExpirationPolicy `{Externals} (S3Bucket : string) (noop : bool)
  : W (option error) :=
  if noop then
    _ <- log Info "Bypassing bucket expiration policy check due to -n/-noop command line argument" ;;
    ret None
  else
    resp <- ext (S3GetBucketLifecycleConfiguration S3Bucket) ;;
    match resp with
    | RErr e =>
        let showWarning := GoStrings.Contains e "NoSuchLifecycleConfiguration" in
        if negb showWarning then
          ret (Some ("Failed to fetch S3 Bucket Policy: " +:+ e))
        else
          _ <- log Warning "Bucket should have ObjectExpiration lifecycle enabled." ;;
          ret None
    | ROk _ =>
        _ <- log Debug "Bucket lifecycle configuration" ;;
        ret None
    end.

(** The deferred removal of the local file in [uploadLocalFileToS3]. *)
Definition removeLocalFile `{Externals} (localPath : string) : W unit :=
  r <- ext (OSRemove localPath) ;;
  match r with
  | RErr _ => log Warning "Failed to delete local file"
  | ROk _ => ret tt
  end.

(** [uploadLocalFileToS3]: the key of the uploaded item, or an error. *)
Definition uploadLocalFileToS3 `{Externals}
    (localPath S3Bucket S3KeyPrefix : string) (noop : bool)
  : W (string * option error) :=
  err <- ensureExpirationPolicy S3Bucket noop ;;
  match err with
  | Some e => ret ("", Some ("Failed to ensure bucket policies: " +:+ e))
  | None =>
      let keyName := GoPath.Join [S3KeyPrefix; GoPath.Base localPath] in
      result <-
        (if noop then
           _ <- log Info "Bypassing S3 upload due to -n/-noop command line argument" ;;
           ret (keyName, None)
         else
           uploaded <- ext (S3UploadLocalFile localPath S3Bucket S3KeyPrefix) ;;
           match uploaded with
           | RErr uploadURLErr => ret ("", Some uploadURLErr)
           | ROk _ => ret (keyName, None)
           end) ;;
      _ <- removeLocalFile localPath ;;
      ret result
  end.

(** The calls that go to object storage. *)
Definition isObjectStorageCall (c : call) : bool :=
  match c with
  | S3GetBucketLifecycleConfiguration _ | S3UploadLocalFile _ _ _ | S3DeleteObject _ _ => true
  | _ => false
  end.

(** The uploads that a history records as successful, each as the rollback
    action that deletes the uploaded object. *)
Definition uploadedObjects (tr : list event) : list RollbackFunction :=
  omap (fun ev =>
          match ev with
          | (S3UploadLocalFile localPath bucket keyPrefix, ROk _) =>
              Some (CreateS3RollbackFunc bucket
                      (GoPath.Join [keyPrefix; GoPath.Base localPath]))
          | _ => None
          end) tr.

(** The fields of the context that the upload tasks only read. *)
Definition sameSettings (c c' : workflowContext) : Prop :=
  noop c' = noop c ∧ serviceName c' = serviceName c ∧ s3Bucket c' = s3Bucket c
  ∧ s3Site c' = s3Site c ∧ workflowHooks c' = workflowHooks c.

(** ** The last step: [applyCloudFormationOperation] *)

Definition templateKeyName `{Externals} (c : workflowContext) : string :=
  serviceName c +:+ "/" +:+ sanitizedName (serviceName c) +:+ "-"
  +:+ sha1_hex (buildID c) +:+ "-cf.json".

Definition convergeStack `{Externals} (c : workflowContext)
  : Step_ (option workflowStep * option error) :=
  let s3KeyName := templateKeyName c in
  if noop c then
    _ <- liftW (log Info "Bypassing template upload & creation due to -n/-noop command line argument") ;;
    ret (None, None)
  else
    _ <- liftW (log Info "Uploading CloudFormation template") ;;
    stack <- liftW (ext (ConvergeStackState (serviceName c) (s3Bucket c) s3KeyName
                           (map fst (map_to_list (Resources (cfTemplate c)))))) ;;
    match stack with
    | RErr stackErr => ret (None, Some stackErr)
    | ROk _ =>
        _ <- modifyCtx (registerRollback (CreateS3RollbackFunc (s3Bucket c) s3KeyName)) ;;
        _ <- liftW (log Info "Stack provisioned") ;;
        ret (None, None)
    end.

Definition applyCloudFormationOperation `{Externals}
  : Step_ (option workflowStep * option error) :=
  c <- getCtx ;;
  if templateWriter c || loggerAtMostDebug c then
    cfTemplate <- liftW (ext JSONMarshal) ;;
    match cfTemplate with
    | RErr err =>
        _ <- liftW (log Error ("Failed to Marshal CloudFormation template: " +:+ err)) ;;
        ret (None, Some err)
    | ROk _ =>
        formatted <- liftW (ext JSONMarshalIndent) ;;
        match formatted with
        | RErr formattedErr => ret (None, Some formattedErr)
        | ROk _ =>
            _ <- liftW (log Debug "CloudFormation template body") ;;
            _ <- (if templateWriter c then
                    _ <- liftW (ext WriteTemplate) ;; ret tt
                  else ret tt) ;;
            convergeStack c
        end
    end
  else convergeStack c.

(** ** Template assembly: [ensureCloudFormationStack] *)

(** [callWorkflowHook] *)
Definition callWorkflowHook `{Externals} (kind : hookKind) (hook : option funcptr)
  : W (option error) :=
  match hook with
  | None => ret None
  | Some h =>
      _ <- log Info "Calling WorkflowHook" ;;
      r <- ext (RunHook kind h) ;;
      ret (err_of r)
  end.

(** [S3Site.export] (s3site_build.go): the bucket, its policy and the IAM
    role are added to the template before the first check that can fail. *)
Definition S3Site_export `{Externals} (s3Site : S3Site) (template : Template)
  : W (option error * Template) :=
  let s3BucketResourceName := site_bucketResourceName s3Site in
  let template := AddResource s3BucketResourceName (OtherResource "AWS::S3::Bucket") template in
  let template := AddOutput "S3SiteURL" (GetAtt s3BucketResourceName "WebsiteURL") template in
  let template := AddResource (stableCloudformationResourceName "S3SiteBucketPolicy")
                              (OtherResource "AWS::S3::BucketPolicy") template in
  let iamRoleName := stableCloudformationResourceName "S3SiteIAMRole" in
  let template := AddResource iamRoleName (OtherResource "AWS::IAM::Role") template in
  _ <- log Debug "Sparta CloudFormation custom resource handler info" ;;
  lambdaEnv <- ext (LambdaFunctionEnvironment "ZipToS3Bucket") ;;
  match lambdaEnv with
  | RErr lambdaEnvErr =>
      ret (Some ("Failed to create S3 site resource: " +:+ lambdaEnvErr), template)
  | ROk _ =>
      let lambdaResourceName := stableCloudformationResourceName "S3SiteCreator" in
      let template := AddResource lambdaResourceName
                                  (OtherResource "AWS::Lambda::Function") template in
      let customResourceName := CloudFormationResourceName "S3SiteBuilder" [] in
      newResource <- ext (NewCloudFormationResource "ZipToS3Bucket") ;;
      match newResource with
      | RErr e =>
          ret (Some ("Failed to create ZipToS3Bucket CustomResource: " +:+ e), template)
      | ROk resourceType =>
          if negb (String.eqb resourceType "ZipToS3BucketResource") then
            ret (Some "Failed to type assert *cfCustomResources.ZipToS3BucketResource custom resource",
                 template)
          else
            ret (None, AddResource customResourceName
                                   (OtherResource "ZipToS3Bucket") template)
      end
  end.

(** The loop over the declared functions: the first export that fails ends
    the loop with its error. *)
Fixpoint exportLambdas `{Externals} (infos : list LambdaAWSInfo) : W (option error) :=
  match infos with
  | [] => ret None
  | eachEntry :: rest =>
      r <- ext (ExportLambda (lambdaFnName eachEntry)) ;;
      match r with
      | RErr err => ret (Some err)
      | ROk _ => exportLambdas rest
      end
  end.

(** The API Gateway branch: export, then merge when the export succeeded;
    either failure is reported under one fixed message. *)
Definition exportAPIGateway `{Externals} (a : API) : W (option error) :=
  r <- ext (ExportAPI (api_name a)) ;;
  err <- match r with
         | ROk _ => m <- ext (SafeMergeTemplates "apiGatewayTemplate") ;; ret (err_of m)
         | RErr e => ret (Some e)
         end ;;
  match err with
  | Some _ => ret (Some "Failed to export APIGateway template resources")
  | None => ret None
  end.

(** The service decorator branch: hook, then merge. *)
Definition decorateService `{Externals} (hooks : option WorkflowHooks) : W (option error) :=
  match hooks with
  | Some hk =>
      match hook_ServiceDecorator hk with
      | Some decorator =>
          _ <- log Info "Calling WorkflowHook" ;;
          r <- ext (RunHook ServiceDecorator decorator) ;;
          match r with
          | RErr decoratorError => ret (Some decoratorError)
          | ROk _ =>
              m <- ext (SafeMergeTemplates "serviceTemplate") ;; ret (err_of m)
          end
      | None => ret None
      end
  | None => ret None
  end.

Definition hookOf (hooks : option WorkflowHooks)
    (field : WorkflowHooks -> option funcptr) : option funcptr :=
  match hooks with
  | Some hk => field hk
  | None => None
  end.

(** [ensureCloudFormationStack()].  The value returned by the S3 site
    export is dropped by the caller.  [annotateDiscoveryInfo] only adds
    metadata to resources that are already in the template. *)
Definition ensureCloudFormationStack `{Externals} : workflowStep :=
  Step
    (c <- getCtx ;;
     preMarshallErr <- liftW (callWorkflowHook PreMarshall (hookOf (workflowHooks c) hook_PreMarshall)) ;;
     match preMarshallErr with
     | Some e => ret (None, Some e)
     | None =>
     exportErr <- liftW (exportLambdas (lambdaAWSInfos c)) ;;
     match exportErr with
     | Some e => ret (None, Some e)
     | None =>
     apiErr <- match api c with
               | Some a => liftW (exportAPIGateway a)
               | None => ret None
               end ;;
     match apiErr with
     | Some e => ret (None, Some e)
     | None =>
     _ <- match s3Site c with
          | Some site =>
              r <- liftW (S3Site_export site (cfTemplate c)) ;;
              modifyCtx (set_cfTemplate (snd r))
          | None => ret tt
          end ;;
     decoratorErr <- liftW (decorateService (workflowHooks c)) ;;
     match decoratorErr with
     | Some e => ret (None, Some e)
     | None =>
     postMarshallErr <- liftW (callWorkflowHook PostMarshall (hookOf (workflowHooks c) hook_PostMarshall)) ;;
     match postMarshallErr with
     | Some e => ret (None, Some e)
     | None => applyCloudFormationOperation
     end end end end end)%st.

(** ** The upload step: [createUploadStep] *)

(** The two goroutines share the context, the history and the slice
    [uploadErrors]. *)
Definition uploadState : Type := list error * state.

Definition uploadLift {A} (m : Step_ A) : St uploadState A :=
  fun '(errs, s) => let (a, s') := m s in (a, (errs, s')).

Definition appendUploadError (e : error) : St uploadState unit :=
  fun '(errs, s) => (tt, (errs ++ [e], s)).

(** The goroutine that uploads the primary archive. *)
Definition primaryUploadTask `{Externals} (packagePath : string) : St uploadState unit :=
  c <- uploadLift getCtx ;;
  _ <- uploadLift (liftW (logFilesize "Lambda function deployment package size" packagePath)) ;;
  r <- uploadLift (liftW (uploadLocalFileToS3 packagePath (s3Bucket c) (serviceName c) (noop c))) ;;
  let (keyName, err) := r : string * option error in
  _ <- uploadLift (modifyCtx (set_s3LambdaZipKey keyName)) ;;
  match err with
  | Some e => appendUploadError e
  | None =>
      if negb (noop c) then
        uploadLift (modifyCtx (fun c' =>
          registerRollback (CreateS3RollbackFunc (s3Bucket c') (s3LambdaZipKey c')) c'))
      else ret tt
  end.

(** The goroutine that archives and uploads the S3 site. *)
Definition siteUploadTask `{Externals} (site : S3Site) : St uploadState unit :=
  c <- uploadLift getCtx ;;
  let tempName := serviceName c +:+ "-S3Site" in
  tmpFile <- uploadLift (liftW (ext (TemporaryFile tempName))) ;;
  match tmpFile with
  | RErr _ => appendUploadError "Failed to create temporary S3 site archive file"
  | ROk tmpFileName =>
      abs <- uploadLift (liftW (ext (FilepathAbs (site_resources site)))) ;;
      match abs with
      | RErr err => appendUploadError err
      | ROk absResourcePath =>
          _ <- uploadLift (liftW (log Info "Creating S3Site archive")) ;;
          added <- uploadLift (liftW (ext (ZipAddToZip absResourcePath absResourcePath))) ;;
          match added with
          | RErr err => appendUploadError err
          | ROk _ =>
              _ <- uploadLift (liftW (ext ZipClose)) ;;
              r <- uploadLift (liftW (uploadLocalFileToS3 tmpFileName (s3Bucket c)
                                        (serviceName c) (noop c))) ;;
              let (key, err) := r : string * option error in
              _ <- uploadLift (modifyCtx (set_s3SiteLambdaZipKey key)) ;;
              match err with
              | Some e => appendUploadError e
              | None =>
                  if negb (noop c) then
                    uploadLift (modifyCtx (fun c' =>
                      registerRollback
                        (CreateS3RollbackFunc (s3Bucket c') (s3SiteLambdaZipKey c')) c'))
                  else ret tt
              end
          end
      end
  end.

(** The loop that builds the error of the step.  Its body ends with a
    [return], so it runs for the first collected error only; [None] is the
    loop falling through. *)
Definition uploadErrorLoop (uploadErrors : list error) (errorText : string)
  : option error :=
  match uploadErrors with
  | [] => None
  | eachError :: _ =>
      let errorText := errorText +:+ (errorText +:+ eachError +:+ newline) in
      Some errorText
  end.

Definition uploadErrorHeader : string :=
  "Encountered multiple errors during upload:" +:+ newline.

Definition createUploadStep `{Externals} (packagePath : string) : workflowStep :=
  Step (fun s =>
    let c := ctx s in
    let tasks :=
      primaryUploadTask packagePath ::
      match s3Site c with
      | Some site => [siteUploadTask site]
      | None => []
      end in
    let '(_, (uploadErrors, s')) :=
      run_all (pick_order (schedule (trace s)) tasks) ([], s) in
    if (0 <? length uploadErrors)%nat then
      match uploadErrorLoop uploadErrors uploadErrorHeader with
      | Some e => ((None, Some e), s')
      | None => ((Some ensureCloudFormationStack, None), s')
      end
    else ((Some ensureCloudFormationStack, None), s')).

(** What an upload task, or several of them one after the other, may do
    to the state they share: extend the history, collect errors, and
    register one rollback action per upload that the history records as
    successful, in that order. *)
Definition uploadProgress (x x' : uploadState) : Prop :=
  sameSettings (ctx x.2) (ctx x'.2)
  ∧ heap x'.2 = heap x.2
  ∧ ∃ delta newErrors,
      trace x'.2 = trace x.2 ++ delta
      ∧ x'.1 = x.1 ++ newErrors
      ∧ rollbackFunctions (ctx x'.2)
        = rollbackFunctions (ctx x.2) ++ uploadedObjects delta
      ∧ (noop (ctx x.2) = true →
         Forall (fun ev => isObjectStorageCall ev.1 = false) delta).

(** ** The package step: [createPackageStep] *)

Definition dquote : string := String "034"%char "".

(** The line [exports["<js name>"] = createForwarder("/<target>");] that
    all three entry builders format. *)
Definition forwarderEntry (jsName target : string) : string :=
  "exports[" +:+ dquote +:+ jsName +:+ dquote +:+ "] = createForwarder("
  +:+ dquote +:+ "/" +:+ target +:+ dquote +:+ ");" +:+ newline.

(** [createNewNodeJSProxyEntry] *)
Definition createNewNodeJSProxyEntry `{Externals} (lambdaInfo : LambdaAWSInfo) : string :=
  forwarderEntry (jsHandlerName lambdaInfo) (lambdaFnName lambdaInfo).

(** [createUserCustomResourceEntry] *)
Definition createUserCustomResourceEntry `{Externals} (customResource : customResourceInfo)
  : string :=
  forwarderEntry (customResource_jsHandlerName customResource)
                 (userFunctionName customResource).

(** [createNewSpartaCustomResourceEntry] *)
Definition createNewSpartaCustomResourceEntry `{Externals} (resourceName : string) : string :=
  forwarderEntry (javascriptExportNameForCustomResourceType resourceName) resourceName.

(** The state of the loops of [writeNodeJSShim]: the source text so far and
    the map [handlerNames]. *)
Definition shimState : Type := string * gmap string bool.

(** The inner loop over the custom resources of one function. *)
Definition shimCustomResources `{Externals} (crs : list customResourceInfo) (st : shimState)
  : shimState :=
  foldl (fun '(nodeJSSource, handlerNames) eachCustomResource =>
           match handlerNames !! customResource_jsHandlerName eachCustomResource with
           | None =>
               (nodeJSSource +:+ createUserCustomResourceEntry eachCustomResource,
                <[customResource_jsHandlerName eachCustomResource := true]> handlerNames)
           | Some _ => (nodeJSSource, handlerNames)
           end) st crs.

(** The outer loop over the functions. *)
Definition shimLambdas `{Externals} (lambdaAWSInfos : list LambdaAWSInfo) (st : shimState)
  : shimState :=
  foldl (fun '(nodeJSSource, handlerNames) eachLambda =>
           let st1 :=
             match handlerNames !! jsHandlerName eachLambda with
             | None =>
                 (nodeJSSource +:+ createNewNodeJSProxyEntry eachLambda,
                  <[jsHandlerName eachLambda := true]> handlerNames)
             | Some _ => (nodeJSSource, handlerNames)
             end in
           shimCustomResources (customResources eachLambda) st1) st lambdaAWSInfos.

(** The text written to [index.js]. *)
Definition nodeJSShimSource `{Externals} (serviceName executableOutput : string)
    (lambdaAWSInfos : list LambdaAWSInfo) : string :=
  let nodeJSSource := escFSMustString "/resources/index.js" in
  let nodeJSSource :=
    nodeJSSource +:+ newline
    +:+ "// DO NOT EDIT - CONTENT UNTIL EOF IS AUTOMATICALLY GENERATED" +:+ newline in
  let (nodeJSSource, _) := shimLambdas lambdaAWSInfos (nodeJSSource, ∅) in
  let nodeJSSource :=
    foldl (fun src eachCustomResourceName =>
             src +:+ createNewSpartaCustomResourceEntry eachCustomResourceName)
          nodeJSSource golangCustomResourceTypes in
  let nodeJSSource :=
    nodeJSSource +:+ "SPARTA_BINARY_NAME='" +:+ executableOutput +:+ "';" +:+ newline in
  nodeJSSource +:+ "SPARTA_SERVICE_NAME='" +:+ serviceName +:+ "';" +:+ newline.

(** [writeNodeJSShim] *)
Definition writeNodeJSShim `{Externals} (serviceName executableOutput : string)
    (lambdaAWSInfos : list LambdaAWSInfo) : W (option error) :=
  nodeJSWriter <- ext (ZipCreate "index.js") ;;
  match nodeJSWriter with
  | RErr _ => ret (Some "Failed to create ZIP entry: index.js")
  | ROk _ =>
      let nodeJSSource := nodeJSShimSource serviceName executableOutput lambdaAWSInfos in
      _ <- log Debug "Dynamically generated NodeJS adapter" ;;
      copied <- ext (ZipWrite "index.js" nodeJSSource) ;;
      ret (err_of copied)
  end.

Definition customResourceScripts : list string :=
  ["sparta_utils.js"; "golang-constants.json"].

Definition provisioningResourcesRelPath : string := "/resources/provision".

(** [writeCustomResources] *)
Fixpoint writeCustomResources_loop `{Externals} (names : list string) : W (option error) :=
  match names with
  | [] => ret None
  | eachName :: rest =>
      let resourceName := provisioningResourcesRelPath +:+ "/" +:+ eachName in
      let resourceContent := escFSMustString resourceName in
      embedWriter <- ext (ZipCreate eachName) ;;
      match embedWriter with
      | RErr errCreate => ret (Some errCreate)
      | ROk _ =>
          _ <- log Debug "Script name" ;;
          copied <- ext (ZipWrite eachName resourceContent) ;;
          match copied with
          | RErr copyErr => ret (Some copyErr)
          | ROk _ => writeCustomResources_loop rest
          end
      end
  end.

Definition writeCustomResources `{Externals} : W (option error) :=
  writeCustomResources_loop customResourceScripts.

(** [buildGoBinary] *)
Definition buildGoBinary `{Externals} (executableOutput buildTags : string)
  : W (option error) :=
  _ <- log Info "Running `go generate`" ;;
  goGenerateErr <- ext GoGenerate ;;
  match goGenerateErr with
  | RErr e => ret (Some e)
  | ROk _ =>
      let allBuildTags := "lambdabinary " +:+ buildTags in
      _ <- log Info "Compiling binary" ;;
      built <- ext (GoBuild executableOutput allBuildTags) ;;
      ret (err_of built)
  end.

(** The part of the package step that runs once the binary is built; the
    deferred removal of the binary follows it on every path. *)
Definition packageArchive `{Externals} (c : workflowContext)
    (sanitizedServiceName executableOutput : string)
  : W (option workflowStep * option error) :=
  _ <- logFilesize "Executable binary size" executableOutput ;;
  postBuildErr <- callWorkflowHook PostBuild (hookOf (workflowHooks c) hook_PostBuild) ;;
  match postBuildErr with
  | Some e => ret (None, Some e)
  | None =>
  tmpFile <- ext (TemporaryFile sanitizedServiceName) ;;
  match tmpFile with
  | RErr _ => ret (None, Some "Failed to create temporary file")
  | ROk tmpFileName =>
  _ <- log Info "Creating ZIP archive for upload" ;;
  archiveErr <- match hookOf (workflowHooks c) hook_Archive with
                | Some h => r <- ext (RunHook Archive h) ;; ret (err_of r)
                | None => ret None
                end ;;
  match archiveErr with
  | Some e => ret (None, Some e)
  | None =>
  readerErr <- ext (ZipAddToZip executableOutput "") ;;
  match readerErr with
  | RErr e => ret (None, Some e)
  | ROk _ =>
  shimErr <- writeNodeJSShim (serviceName c) executableOutput (lambdaAWSInfos c) ;;
  match shimErr with
  | Some e => ret (None, Some e)
  | None =>
  _ <- log Debug "Embedding CustomResource scripts" ;;
  customResourceErr <- writeCustomResources ;;
  match customResourceErr with
  | Some e => ret (None, Some e)
  | None =>
  archiveCloseErr <- ext ZipClose ;;
  match archiveCloseErr with
  | RErr e => ret (None, Some e)
  | ROk _ =>
  tempfileCloseErr <- ext (FileClose tmpFileName) ;;
  match tempfileCloseErr with
  | RErr e => ret (None, Some e)
  | ROk _ => ret (Some (createUploadStep tmpFileName), None)
  end end end end end end end end.

(** The deferred cleanup of the temporary binary. *)
Definition removeBinary `{Externals} (executableOutput : string) : W unit :=
  errRemove <- ext (OSRemove executableOutput) ;;
  match errRemove with
  | RErr _ => log Warning "Failed to delete binary"
  | ROk _ => ret tt
  end.

Definition createPackageStep `{Externals} : workflowStep :=
  Step
    (c <- getCtx ;;
     preBuildErr <- liftW (callWorkflowHook PreBuild (hookOf (workflowHooks c) hook_PreBuild)) ;;
     match preBuildErr with
     | Some e => ret (None, Some e)
     | None =>
         let sanitizedServiceName := sanitizedName (serviceName c) in
         let executableOutput := sanitizedServiceName +:+ ".lambda.amd64" in
         buildErr <- liftW (buildGoBinary executableOutput (buildTags c)) ;;
         match buildErr with
         | Some e => ret (None, Some e)
         | None =>
             r <- liftW (packageArchive c sanitizedServiceName executableOutput) ;;
             _ <- liftW (removeBinary executableOutput) ;;
             ret r
         end
     end)%st.

(** ** Role verification: [verifyIAMRoles] *)

(** What the first loop of [verifyIAMRoles] updates: the slice
    [allRoleNames], the template, the role map and the role definitions. *)
Record rolesState := mkRolesState {
  allRoleNames : list string;
  rs_template : Template;
  rs_map : gmap string StringExpr;
  rs_heap : roleHeap
}.

(** The body shared by the two places that validate an inline role
    definition: derive the logical name through the pointer and declare the
    role unless the map already has the name. *)
Definition declareRole `{Externals} (p : loc) (serviceName fnName : string)
    (options : option LambdaFunctionOptions) (st : rolesState) : rolesState :=
  let (logicalName, h') := IAMRoleDefinition_logicalName p serviceName fnName (rs_heap st) in
  match rs_map st !! logicalName with
  | None =>
      mkRolesState (allRoleNames st)
                   (AddResource logicalName (toResource (deref h' p) options) (rs_template st))
                   (<[logicalName := GetAtt logicalName "Arn"]> (rs_map st))
                   h'
  | Some _ => mkRolesState (allRoleNames st) (rs_template st) (rs_map st) h'
  end.

Definition appendRoleName (name : string) (st : rolesState) : rolesState :=
  if String.eqb "" name then st
  else mkRolesState (allRoleNames st ++ [name]) (rs_template st) (rs_map st) (rs_heap st).

(** One iteration of the loop over [ctx.lambdaAWSInfos]. *)
Definition collectRoles `{Externals} (serviceName : string) (st : rolesState)
    (eachLambdaInfo : LambdaAWSInfo) : rolesState :=
  let st := appendRoleName (RoleName eachLambdaInfo) st in
  let st := foldl (fun st eachCustomResource => appendRoleName (roleName eachCustomResource) st)
                  st (customResources eachLambdaInfo) in
  let st :=
    match RoleDefinition eachLambdaInfo with
    | Some p => declareRole p serviceName (lambdaFnName eachLambdaInfo)
                            (Options eachLambdaInfo) st
    | None => st
    end in
  foldl (fun st eachCustomResource =>
           match roleDefinition eachCustomResource with
           | Some p => declareRole p serviceName (userFunctionName eachCustomResource)
                                   (cr_options eachCustomResource) st
           | None => st
           end)
        st (customResources eachLambdaInfo).

(** The loop over [allRoleNames]: a name that the map does not have yet is
    looked up with [iam.GetRole]; the first failed lookup ends the step. *)
Fixpoint checkRoleNames `{Externals} (names : list string)
    (m : gmap string StringExpr) : W (option error * gmap string StringExpr) :=
  match names with
  | [] => ret (None, m)
  | eachRoleName :: rest =>
      match m !! eachRoleName with
      | Some _ => checkRoleNames rest m
      | None =>
          _ <- log Debug ("Checking IAM RoleName: " +:+ eachRoleName) ;;
          resp <- ext (IAMGetRole eachRoleName) ;;
          match resp with
          | RErr err =>
              _ <- log Error err ;;
              ret (Some err, m)
          | ROk arn => checkRoleNames rest (<[eachRoleName := StringLiteral arn]> m)
          end
      end
  end.

(** The first loop of [verifyIAMRoles], over [ctx.lambdaAWSInfos], from the
    empty role map. *)
Definition collectAllRoles `{Externals} (c : workflowContext) (h : roleHeap) : rolesState :=
  foldl (collectRoles (serviceName c)) (mkRolesState [] (cfTemplate c) ∅ h)
        (lambdaAWSInfos c).

Definition verifyIAMRoles `{Externals} : workflowStep :=
  Step (fun s =>
    let c := ctx s in
    let (_, tr) := log Info "Verifying IAM Lambda execution roles" (trace s) in
    let st := collectAllRoles c (heap s) in
    let '((err, m), tr) := checkRoleNames (allRoleNames st) (rs_map st) tr in
    let c' := set_lambdaIAMRoleNameMap m (set_cfTemplate (rs_template st) c) in
    match err with
    | Some e => ((None, Some e), mkState c' (rs_heap st) tr)
    | None =>
        let (_, tr) := log Info "IAM roles verified" tr in
        ((Some createPackageStep, None), mkState c' (rs_heap st) tr)
    end).

(** The part of the state of the first loop that declaring a role can
    change. *)
Definition declared (st : rolesState) : Template * gmap string StringExpr * roleHeap :=
  (rs_template st, rs_map st, rs_heap st).

(** The declarations in which every inline role definition is the one
    behind [p]. *)
Definition sharesRole (p : loc) (l : LambdaAWSInfo) : Prop :=
  RoleDefinition l = Some p
  ∧ ∀ cr, cr ∈ customResources l → roleDefinition cr = None ∨ roleDefinition cr = Some p.

(** The role names that the declarations carry, in the order of the first
    loop. *)
Definition declaredRoleNames (lambdaAWSInfos : list LambdaAWSInfo) : list string :=
  flat_map (fun l => filter (fun n => n ≠ "")
                            (RoleName l :: map roleName (customResources l)))
           lambdaAWSInfos.

(** The role names looked up in a history. *)
Definition roleLookups (tr : list event) : list string :=
  omap (fun ev => match ev.1 with IAMGetRole r => Some r | _ => None end) tr.

(** ** The driver: [Provision] *)

(** The loop [for step := verifyIAMRoles; step != nil; ...] of [Provision],
    from any first step. *)
Fixpoint runWorkflow `{Externals} (step : workflowStep) (s : state) {struct step}
  : option error * state :=
  match step with
  | Step run =>
      match run s with
      | ((_, Some err), s1) =>
          let (_, s2) := rollback s1 in
          let (_, s3) := liftW (log Error err) s2 in
          (Some err, s3)
      | ((None, None), s1) =>
          let (_, s2) := liftW (log Info "Elapsed time") s1 in
          (None, s2)
      | ((Some next, None), s1) => runWorkflow next s1
      end
  end.

(** The arguments of [Provision]. *)
Record provisionArgs := mkProvisionArgs {
  arg_noop : bool;
  arg_serviceName : string;
  arg_serviceDescription : string;
  arg_lambdaAWSInfos : list LambdaAWSInfo;
  arg_api : option API;
  arg_site : option S3Site;
  arg_s3Bucket : string;
  arg_buildID : string;
  arg_buildTags : string;
  arg_templateWriter : bool;
  arg_loggerAtMostDebug : bool;
  arg_workflowHooks : option WorkflowHooks
}.

Definition newWorkflowContext (a : provisionArgs) (infos : list LambdaAWSInfo)
  : workflowContext :=
  {| noop := arg_noop a;
     serviceName := arg_serviceName a;
     serviceDescription := arg_serviceDescription a;
     lambdaAWSInfos := infos;
     api := arg_api a;
     s3Site := arg_site a;
     s3SiteLambdaZipKey := "";
     cfTemplate := {| tpl_Description := arg_serviceDescription a;
                      Resources := ∅; Outputs := ∅ |};
     lambdaIAMRoleNameMap := ∅;
     s3Bucket := arg_s3Bucket a;
     buildID := arg_buildID a;
     buildTags := arg_buildTags a;
     s3LambdaZipKey := "";
     templateWriter := arg_templateWriter a;
     loggerAtMostDebug := arg_loggerAtMostDebug a;
     workflowHooks := arg_workflowHooks a;
     rollbackFunctions := [] |}.

(** What a call of [Provision] leaves behind: the value returned (or the
    panic), the context if one was created, the role definitions and the
    history. *)
Record provisionResult := mkProvisionResult {
  returned : outcome (option error);
  final_ctx : option workflowContext;
  final_heap : roleHeap;
  final_trace : list event
}.

Definition Provision `{Externals} (a : provisionArgs) (h : roleHeap) (tr : list event)
  : provisionResult :=
  let '((v, infos), tr) := validateSpartaPreconditions (arg_lambdaAWSInfos a) tr in
  match v with
  | Panic m => mkProvisionResult (Panic m) None h tr
  | Ret (Some err) => mkProvisionResult (Ret (Some err)) None h tr
  | Ret None =>
      let c := newWorkflowContext a infos in
      let (_, tr) := log Info "Provisioning service" tr in
      if (length (arg_lambdaAWSInfos a) <=? 0)%nat then
        mkProvisionResult (Ret (Some "No lambda functions provided to Sparta.Provision()"))
                          (Some c) h tr
      else
        let (r, s) := runWorkflow verifyIAMRoles (mkState c h tr) in
        mkProvisionResult (Ret r) (Some (ctx s)) (heap s) (trace s)
  end.

(** The state in which the workflow starts, when [Provision] gets that
    far: the preconditions hold and there is a function to provision. *)
Definition workflowStart `{Externals} (a : provisionArgs) (h : roleHeap) (tr : list event)
  : option state :=
  let '((v, infos), tr) := validateSpartaPreconditions (arg_lambdaAWSInfos a) tr in
  match v with
  | Ret None =>
      if (length (arg_lambdaAWSInfos a) <=? 0)%nat then None
      else Some (mkState (newWorkflowContext a infos) h
                         (tr ++ [(Log Info "Provisioning service", ROk "")]))
  | _ => None
  end.

(** [chainRuns step s res s1]: from [step] in state [s], the steps run one
    after the other, each step that returned a next step and no error
    being followed by that next step, up to a last step, which returned
    [res], an error or no next step, and left the state [s1]. *)
Inductive chainRuns : workflowStep -> state -> option workflowStep * option error
                      -> state -> Prop :=
| chain_last step s res s1 :
    runStep step s = (res, s1) ->
    is_Some res.2 \/ res.1 = None ->
    chainRuns step s res s1
| chain_next step s next s1 res s2 :
    runStep step s = ((Some next, None), s1) ->
    chainRuns next s1 res s2 ->
    chainRuns step s res s2.

(** The cleanup function of a task, if it is one. *)
Definition cleanupOf (t : rollbackTask) : option RollbackFunction :=
  match t with
  | CleanupTask f => Some f
  | HookTask _ => None
  end.

Definition hookOfTask (t : rollbackTask) : option funcptr :=
  match t with
  | HookTask h => Some h
  | CleanupTask _ => None
  end.

(** [rolledBack s1 s2 err]: from the state [s1] that a failed step left,
    the driver reached [s2] by one rollback followed by the log of the
    error: the start of the rollback is logged once, every registered
    function is invoked once, the rollback hook runs if there is one, each
    failed function gives one warning, and nothing else happens. *)
Definition rolledBack (s1 s2 : state) (err : error) : Prop :=
  ctx s2 = ctx s1
  /\ heap s2 = heap s1
  /\ exists acts,
      trace s2 = trace s1 ++ [(Log Info "Invoking rollback functions", ROk "")]
                 ++ acts ++ [(Log Error err, ROk "")]
      /\ Permutation (deletions acts) (rollbackFunctions (ctx s1))
      /\ Permutation (rollbackHookRuns acts)
                     (option_list (hookOf (workflowHooks (ctx s1)) hook_Rollback))
      /\ warnings acts = failedDeletions acts
      /\ Forall (fun ev => isRollbackCall ev.1 = true) acts.

(** What the driver does once the last step of a chain returned [res] and
    left [s1]: on an error, one rollback and that error; otherwise success,
    with nothing but the log of the elapsed time. *)
Definition workflowOutcome (res : option workflowStep * option error) (s1 : state)
    (out : option error * state) : Prop :=
  match res.2 with
  | Some err => out.1 = Some err /\ rolledBack s1 out.2 err
  | None =>
      out = (None, mkState (ctx s1) (heap s1)
                           (trace s1 ++ [(Log Info "Elapsed time", ROk "")]))
  end.

(** Reading the declarations: the derived name of a function (empty when
    the derivation panics) and the names that the precondition check
    counts, in its order. *)
Definition nameOf `{Externals} (l : LambdaAWSInfo) : string :=
  match (lambdaFunctionName l).1 with
  | Ret n => n
  | Panic _ => ""
  end.

Definition definedNames `{Externals} (lambdaAWSInfos : list LambdaAWSInfo) : list string :=
  flat_map (fun l => nameOf l :: map userFunctionName (customResources l)) lambdaAWSInfos.

(** The name derivation of a declaration returns. *)
Definition derivable `{Externals} (l : LambdaAWSInfo) : Prop :=
  exists n, (lambdaFunctionName l).1 = Ret n.

(** The count that the collision memo holds for a name. *)
Definition countOf (collisionMemo : gmap string nat) (n : string) : nat :=
  default 0 (collisionMemo !! n).

(** The calls that the precondition checks and the start of [Provision]
    make: the logger and the look for the sysinfo package. *)
Definition isPreconditionCall (c : call) : bool :=
  match c with
  | Log _ _ | UserGoPath | OSStat _ | BuildSysInfoSample => true
  | _ => false
  end.

(** ** Reading the dispatch shim

    The registrations that [writeNodeJSShim] visits, in its order: the
    handler identifier and the forwarding entry of every function, each
    followed by those of its custom resources. *)
Definition shimRegistrations `{Externals} (lambdaAWSInfos : list LambdaAWSInfo)
  : list (string * string) :=
  flat_map (fun l =>
              (jsHandlerName l, createNewNodeJSProxyEntry l)
              :: map (fun cr => (customResource_jsHandlerName cr,
                                 createUserCustomResourceEntry cr))
                     (customResources l))
           lambdaAWSInfos.

(** One registration, as both loops of [writeNodeJSShim] perform it. *)
Definition register (st : shimState) (r : string * string) : shimState :=
  match st.2 !! r.1 with
  | None => (st.1 +:+ r.2, <[r.1 := true]> st.2)
  | Some _ => st
  end.

(** The registrations whose identifier was not seen before. *)
Fixpoint firstRegistrations (seen : gset string) (regs : list (string * string))
  : list (string * string) :=
  match regs with
  | [] => []
  | (k, e) :: rest =>
      if decide (k ∈ seen) then firstRegistrations seen rest
      else (k, e) :: firstRegistrations ({[k]} ∪ seen) rest
  end.

(** The text of a list of entries. *)
Definition joinAll (l : list string) : string := foldr String.append "" l.

(** The text before the entries and the text after them. *)
Definition shimHeader `{Externals} : string :=
  escFSMustString "/resources/index.js" +:+ newline
  +:+ "// DO NOT EDIT - CONTENT UNTIL EOF IS AUTOMATICALLY GENERATED" +:+ newline.

Definition shimTrailer (serviceName executableOutput : string) : string :=
  ("SPARTA_BINARY_NAME='" +:+ executableOutput +:+ "';" +:+ newline)
  +:+ "SPARTA_SERVICE_NAME='" +:+ serviceName +:+ "';" +:+ newline.

(** The identifiers of the forwarding entries of [index.js], in the order
    of the text: those of the registrations that are emitted, then the
    export names of the built-in custom resource types. *)
Definition shimIdentifiers `{Externals} (lambdaAWSInfos : list LambdaAWSInfo) : list string :=
  map fst (firstRegistrations ∅ (shimRegistrations lambdaAWSInfos))
  ++ map javascriptExportNameForCustomResourceType golangCustomResourceTypes.

(** ** Reading names (sparta.go) *)

(** The strings made of the bytes [0-9A-Za-z_] only. *)
Fixpoint wordOnly (s : string) : bool :=
  match s with
  | EmptyString => true
  | String c rest => GoStrings.is_word c && wordOnly rest
  end.

(** The name that [lambdaFunctionName] starts from when no
    [SpartaOptions.Name] is given: the name that reflection finds for
    [lambdaFn], or else the user supplied name. *)
Definition derivationSource `{Externals} (info : LambdaAWSInfo) : string :=
  match lambdaFn info with
  | Some f => runtimeFuncName f
  | None => userSuppliedFunctionName info
  end.

(** [strings.Contains(name, "(") || strings.Contains(name, ")")] *)
Definition structDefined (name : string) : bool :=
  GoStrings.Contains name "(" || GoStrings.Contains name ")".

(** ** Declaring functions (sparta.go) *)

(** The values that callers pass for [roleNameOrIAMRoleDefinition]: a role
    name, a role definition, or a value of another type, given as [%s]
    prints it. *)
Inductive roleArgument :=
| RoleNameArgument (roleName : string)
| RoleDefinitionArgument (definition : IAMRoleDefinition)
| OtherArgument (printed : string).

(** [defaultLambdaFunctionOptions] *)
Definition defaultLambdaFunctionOptions : LambdaFunctionOptions :=
  {| lfo_Description := ""; lfo_VpcConfig := false; lfo_SpartaOptions := None |}.

(** [HandleAWSLambda]: the new declaration, or the panic of the type
    switch.  A role definition is copied into a variable of its own, and the
    declaration points to the copy. *)
Definition HandleAWSLambda (functionName : string) (lambdaHandler : option funcptr)
    (roleNameOrIAMRoleDefinition : roleArgument) : St roleHeap (outcome LambdaAWSInfo) :=
  fun h =>
    let lambda roleName roleDefinition :=
      {| handlerSymbol := lambdaHandler;
         lambdaFn := None;
         userSuppliedFunctionName := functionName;
         lambdaFnName := "";
         RoleName := roleName;
         RoleDefinition := roleDefinition;
         Options := Some defaultLambdaFunctionOptions;
         customResources := [];
         cachedLambdaFunctionName := "" |} in
    match roleNameOrIAMRoleDefinition with
    | RoleNameArgument roleName => (Ret (lambda roleName None), h)
    | RoleDefinitionArgument definition =>
        let p := fresh (dom h) in
        (Ret (lambda "" (Some p)), <[p := definition]> h)
    | OtherArgument v => (Panic ("Unsupported IAM Role type: " +:+ v), h)
    end.

(** [strings.Replace(s, "_", "", -1)] *)
Fixpoint removeUnderscores (s : string) : string :=
  match s with
  | EmptyString => EmptyString
  | String c rest =>
      if Ascii.eqb c "_"%char then removeUnderscores rest
      else String c (removeUnderscores rest)
  end.

(** [LambdaAWSInfo.LogicalResourceName]; the name is derived twice. *)
Definition LogicalResourceName `{Externals} (info : LambdaAWSInfo)
  : outcome string * LambdaAWSInfo :=
  match lambdaFunctionName info with
  | (Ret baseName, info1) =>
      let resourceName := removeUnderscores (sanitizedName baseName) in
      let prefix := resourceName +:+ "Lambda" in
      match lambdaFunctionName info1 with
      | (Ret name, info2) => (Ret (CloudFormationResourceName prefix [name]), info2)
      | (Panic m, info2) => (Panic m, info2)
      end
  | (Panic m, info1) => (Panic m, info1)
  end.

(** The strings made of letters and digits only. *)
Fixpoint alphanumericOnly (s : string) : bool :=
  match s with
  | EmptyString => true
  | String c rest =>
      GoStrings.is_word c && negb (Ascii.eqb c "_"%char) && alphanumericOnly rest
  end.

(** ** Reading the history of a step *)

(** The local files whose removal was asked for, in order. *)
Definition removals (tr : list event) : list string :=
  omap (fun ev => match ev.1 with OSRemove path => Some path | _ => None end) tr.

(** The uploads that were attempted, whatever the answer. *)
Definition uploadAttempts (tr : list event) : list (string * string * string) :=
  omap (fun ev => match ev.1 with
                  | S3UploadLocalFile localPath bucket keyPrefix =>
                      Some (localPath, bucket, keyPrefix)
                  | _ => None
                  end) tr.

(** The answers to the uploads and to the look-ups of the lifecycle
    configuration of the bucket. *)
Definition uploadAnswers (tr : list event) : list response :=
  omap (fun ev => match ev.1 with
                  | S3UploadLocalFile _ _ _ => Some ev.2
                  | _ => None
                  end) tr.

Definition lifecycleAnswers (tr : list event) : list response :=
  omap (fun ev => match ev.1 with
                  | S3GetBucketLifecycleConfiguration _ => Some ev.2
                  | _ => None
                  end) tr.

(** The calls that write the archive, in order. *)
Definition zipCalls (tr : list event) : list call :=
  omap (fun ev => match ev.1 with
                  | ZipCreate _ | ZipWrite _ _ | ZipAddToZip _ _ | ZipClose => Some ev.1
                  | _ => None
                  end) tr.

(** The answers of the deployment service to [ConvergeStackState]. *)
Definition convergeAnswers (tr : list event) : list response :=
  omap (fun ev => match ev.1 with
                  | ConvergeStackState _ _ _ _ => Some ev.2
                  | _ => None
                  end) tr.

(** The temporary files that were created: the name asked for and the
    name given. *)
Definition temporaryFiles (tr : list event) : list (string * string) :=
  omap (fun ev => match ev with
                  | (TemporaryFile name, ROk tmp) => Some (name, tmp)
                  | _ => None
                  end) tr.

(** The Go compiler produced the binary. *)
Definition buildSucceeded (tr : list event) : bool :=
  existsb (fun ev => match ev with (GoBuild _ _, ROk _) => true | _ => false end) tr.

(** The calls of each workflow step. *)
Definition isRoleCall (c : call) : bool :=
  match c with
  | Log _ _ | IAMGetRole _ => true
  | _ => false
  end.

Definition isPackageCall (c : call) : bool :=
  match c with
  | Log _ _ | RunHook PreBuild _ | RunHook PostBuild _ | RunHook Archive _
  | GoGenerate | GoBuild _ _ | OSStat _ | OSRemove _ | TemporaryFile _
  | ZipCreate _ | ZipWrite _ _ | ZipAddToZip _ _ | ZipClose | FileClose _ => true
  | _ => false
  end.

Definition isUploadCall (c : call) : bool :=
  match c with
  | Log _ _ | OSStat _ | OSRemove _ | TemporaryFile _ | FilepathAbs _
  | ZipAddToZip _ _ | ZipClose
  | S3GetBucketLifecycleConfiguration _ | S3UploadLocalFile _ _ _ => true
  | _ => false
  end.

Definition isAssemblyCall (c : call) : bool :=
  match c with
  | Log _ _ | RunHook PreMarshall _ | RunHook ServiceDecorator _ | RunHook PostMarshall _
  | ExportLambda _ | ExportAPI _ | SafeMergeTemplates _
  | LambdaFunctionEnvironment _ | NewCloudFormationResource _
  | JSONMarshal | JSONMarshalIndent | WriteTemplate
  | ConvergeStackState _ _ _ _ => true
  | _ => false
  end.

(** The calls that reach object storage or the deployment service. *)
Definition isDeploymentCall (c : call) : bool :=
  isObjectStorageCall c
  || match c with ConvergeStackState _ _ _ _ => true | _ => false end.

(** [keeps tr_of I P m]: from a state in which [I] holds, the computation
    [m] leads to a state in which [I] holds, and extends the history by
    calls that satisfy [P] only. *)
Definition keeps {S A : Type} (tr_of : S → list event) (I : S → Prop) (P : call → bool)
    (m : St S A) : Prop :=
  ∀ s, I s →
    I (m s).2
    ∧ ∃ delta, tr_of (m s).2 = tr_of s ++ delta
               ∧ Forall (fun ev => P ev.1 = true) delta.

(** The same for code that only talks to the outside world. *)
Definition callsOnly {A : Type} (P : call → bool) (m : W A) : Prop :=
  keeps (fun tr => tr) (fun _ => True) P m.

(** [returns Q m]: whatever the state, the value that [m] returns
    satisfies [Q]. *)
Definition returns {S A : Type} (Q : A → Prop) (m : St S A) : Prop :=
  ∀ s, Q (m s).1.

(** [chainKeeps J P n step]: [step] and the steps that follow it, [n] at
    most, keep [J] and make calls in [P] only. *)
Fixpoint chainKeeps (J : workflowContext → Prop) (P : call → bool) (n : nat)
    (step : workflowStep) : Prop :=
  keeps trace (fun s => J (ctx s)) P (runStep step)
  ∧ ∀ s, match (runStep step s).1.1 with
         | Some next =>
             match n with
             | O => False
             | S n' => chainKeeps J P n' next
             end
         | None => True
         end.

(** The context of a dry run in which no rollback action is registered. *)
Definition dryContext (c : workflowContext) : Prop :=
  noop c = true ∧ rollbackFunctions c = [].

Definition notDeployment (c : call) : bool := negb (isDeploymentCall c).

Definition notConverge (c : call) : bool :=
  match c with
  | ConvergeStackState _ _ _ _ => false
  | _ => true
  end.

(** What the assembly step reads of the context it starts from: the
    registered rollback actions, the dry run flag, the bucket and the key
    of the template. *)
Record assemblySettings := mkAssemblySettings {
  as_rollbackFunctions : list RollbackFunction;
  as_noop : bool;
  as_templateAction : RollbackFunction
}.

Definition assemblySettingsOf `{Externals} (c : workflowContext) : assemblySettings :=
  {| as_rollbackFunctions := rollbackFunctions c;
     as_noop := noop c;
     as_templateAction := CreateS3RollbackFunc (s3Bucket c) (templateKeyName c) |}.

(** [assemblyOutcome ref r delta c']: the stack operation was asked for at
    most once; the action that removes the template is registered exactly
    when it succeeded, and then the step returns no error. *)
Definition assemblyOutcome (ref : assemblySettings)
    (r : option workflowStep * option error) (delta : list event)
    (c' : workflowContext) : Prop :=
  match convergeAnswers delta with
  | [] => rollbackFunctions c' = as_rollbackFunctions ref
          ∧ (r.2 = None → as_noop ref = true)
  | [ROk _] => r.2 = None ∧ as_noop ref = false
               ∧ rollbackFunctions c'
                 = as_rollbackFunctions ref ++ [as_templateAction ref]
  | [RErr e] => r.2 = Some e ∧ as_noop ref = false
                ∧ rollbackFunctions c' = as_rollbackFunctions ref
  | _ => False
  end.

Definition hasSettings `{Externals} (ref : assemblySettings) (c : workflowContext) : Prop :=
  assemblySettingsOf c = ref.

(** [sums ref m]: from a context with the settings [ref], [m] ends as
    [assemblyOutcome] says. *)
Definition sums `{Externals} (ref : assemblySettings)
    (m : Step_ (option workflowStep * option error)) : Prop :=
  ∀ s, hasSettings ref (ctx s) →
       ∃ delta, trace (m s).2 = trace s ++ delta
                ∧ assemblyOutcome ref (m s).1 delta (ctx (m s).2).

(** [runs c0 Φ m]: started with the context [c0], the computation [m]
    extends the history by some events [delta] and ends with a value [a]
    and a context [c'] such that [Φ delta a c'] holds. *)
Definition runs {A : Type} (c0 : workflowContext)
    (Φ : list event → A → workflowContext → Prop) (m : Step_ A) : Prop :=
  ∀ s, ctx s = c0 →
       ∃ delta, trace (m s).2 = trace s ++ delta
                ∧ heap (m s).2 = heap s
                ∧ Φ delta (m s).1 (ctx (m s).2).

(** ** Custom resources (sparta.go) *)

(** The values that callers pass for [handlerSymbol]: nil, a value that is
    not a function, given by the kind that reflection finds for it, or a
    function. *)
Inductive handlerArgument :=
| NilHandler
| NotAFunction (kind : string)
| FunctionHandler (f : funcptr).

Definition set_customResources (crs : list customResourceInfo) (info : LambdaAWSInfo)
  : LambdaAWSInfo :=
  {| handlerSymbol := handlerSymbol info;
     lambdaFn := lambdaFn info;
     userSuppliedFunctionName := userSuppliedFunctionName info;
     lambdaFnName := lambdaFnName info;
     RoleName := RoleName info;
     RoleDefinition := RoleDefinition info;
     Options := Options info;
     customResources := crs;
     cachedLambdaFunctionName := cachedLambdaFunctionName info |}.

(** [customResourceInfo.logicalName]: the name of the user function and
    the digest of that name as [%#v] prints it; [goSyntaxString] is that
    printing of a string. *)
Definition customResourceInfo_logicalName `{Externals} (goSyntaxString : string → string)
    (resourceInfo : customResourceInfo) : string :=
  let source := goSyntaxString (userFunctionName resourceInfo) in
  CloudFormationResourceName (userFunctionName resourceInfo) [sha1_hex source].

(** [LambdaAWSInfo.RequireCustomResource]: the logical name of the custom
    resource, or an error, or the panic of the type switch.  The state is
    the receiver and the role definitions that pointers refer to.  The
    properties of the resource, the environment of its options and the
    dependencies of the receiver are not read by the code modelled here. *)
Definition RequireCustomResource `{Externals} (goSyntaxString : string → string)
    (roleNameOrIAMRoleDefinition : roleArgument) (handlerSymbol : handlerArgument)
    (lambdaOptions : option LambdaFunctionOptions)
  : St (LambdaAWSInfo * roleHeap) (outcome (string * option error)) :=
  fun '(info, h) =>
    match handlerSymbol with
    | NilHandler =>
        (Ret ("", Some "RequireCustomResource userFunc must not be nil"), (info, h))
    | NotAFunction kind =>
        (Ret ("", Some ("CustomResourceHandler kind " +:+ kind +:+ " is not func")),
         (info, h))
    | FunctionHandler f =>
        let lambdaOptions :=
          match lambdaOptions with
          | Some o => o
          | None => defaultLambdaFunctionOptions
          end in
        let resourceInfo roleName roleDefinition :=
          {| roleDefinition := roleDefinition;
             roleName := roleName;
             cr_handlerSymbol := Some f;
             userFunctionName := runtimeFuncName f;
             cr_options := Some lambdaOptions |} in
        let required resourceInfo h' :=
          (Ret (customResourceInfo_logicalName goSyntaxString resourceInfo, None),
           (set_customResources (customResources info ++ [resourceInfo]) info, h')) in
        match roleNameOrIAMRoleDefinition with
        | RoleNameArgument roleName => required (resourceInfo roleName None) h
        | RoleDefinitionArgument definition =>
            let p := fresh (dom h) in
            required (resourceInfo "" (Some p)) (<[p := definition]> h)
        | OtherArgument v => (Panic ("Unsupported IAM Role type: " +:+ v), (info, h))
        end
    end.

(** ** API Gateway resources (apigateway.go) *)

(** A [Resource] with its field [parentLambda], which [NewMethod] does not
    read: nil, or the declaration it points to. *)
Record apiResource := mkApiResource {
  parentLambda : option LambdaAWSInfo;
  resourceOf : Resource
}.

(** [API.NewResource]: the pointer to the new resource, or nil and an
    error when the path is taken.  The error message reads the name of
    [parentLambda] and panics when that pointer is nil.  The state is the
    map [api.resources] and the resources that pointers refer to. *)
Definition NewResource (pathPart : string) (parentLambda : option LambdaAWSInfo)
  : St (gmap string loc * gmap loc apiResource) (outcome (option loc * option error)) :=
  fun '(resources, h) =>
    match resources !! pathPart with
    | Some _ =>
        match parentLambda with
        | None => (Panic nilDereference, (resources, h))
        | Some l =>
            (Ret (None, Some ("Path " +:+ pathPart
                              +:+ " already defined for lambda function: "
                              +:+ lambdaFnName l)),
             (resources, h))
        end
    | None =>
        let resource := fresh (dom h) in
        let h' := <[resource := {| parentLambda := parentLambda;
                                   resourceOf := {| pathPart := pathPart;
                                                    Methods := ∅ |} |}]> h in
        (Ret (Some resource, None), (<[pathPart := resource]> resources, h'))
    end.

(** ** Reading the role map *)

(** Every entry of the role map [m] refers to the ARN of the resource of
    the template [t] that has the name of the entry. *)
Definition inlineRoles (t : Template) (m : gmap string StringExpr) : Prop :=
  ∀ n v, m !! n = Some v → v = GetAtt n "Arn" ∧ is_Some (Resources t !! n).

(** ** A concrete world

    One way to fill in the functions of the other packages, used to run
    the model on examples: the outside world answers by [answers] whatever
    happened before, and the scheduler always makes the choices [choices]. *)
Definition scriptedWorld (answers : call -> response) (choices : list nat) : Externals :=
  {| respond := fun _ c => answers c;
     schedule := fun _ => choices;
     runtimeFuncName := fun _ => "main.handler";
     CloudFormationResourceName := fun prefix parts => prefix +:+ String.concat "" parts;
     ensureValidSignature := fun name h =>
       match h with
       | Some _ => None
       | None => Some ("Invalid lambda function signature: " +:+ name)
       end;
     jsHandlerName := fun l => sanitizedName (lambdaFnName l);
     customResource_jsHandlerName := fun cr => sanitizedName (userFunctionName cr);
     javascriptExportNameForCustomResourceType := sanitizedName;
     golangCustomResourceTypes :=
       ["SESLambdaEventSource"; "S3LambdaEventSource"; "SNSLambdaEventSource";
        "CloudWatchLogsLambdaEventSource"; "ZipToS3Bucket"];
     escFSMustString := fun path => "// " +:+ path;
     stableCloudformationResourceName := fun prefix => prefix;
     os_IsNotExist := fun e => String.eqb e "file does not exist";
     sha1_hex := fun _ => "da39a3ee5e6b4b0d3255bfef95601890afd80709" |}.

(** A world in which every call succeeds. *)
Definition quietWorld : Externals := scriptedWorld (fun _ => ROk "ok") [].

(** A function declaration with a handler, a name and a named role. *)
Definition simpleLambda (name role : string) : LambdaAWSInfo :=
  {| handlerSymbol := Some 1;
     lambdaFn := None;
     userSuppliedFunctionName := name;
     lambdaFnName := name;
     RoleName := role;
     RoleDefinition := None;
     Options := None;
     customResources := [];
     cachedLambdaFunctionName := "" |}.

(** A world whose identity service knows every role. *)
Definition knownRolesWorld : Externals :=
  scriptedWorld (fun c => match c with
                          | IAMGetRole r => ROk ("arn:aws:iam::role/" +:+ r)
                          | _ => ROk "ok"
                          end) [].

(** A world whose identity service does not know the role r1. *)
Definition unknownRoleWorld : Externals :=
  scriptedWorld (fun c => match c with
                          | IAMGetRole r =>
                              if String.eqb r "r1" then RErr "no such role"
                              else ROk ("arn:aws:iam::role/" +:+ r)
                          | _ => ROk "ok"
                          end) [].

(** A function declared under the name that Go gives to the method value
    of a method with a pointer receiver, which has one parenthesised part;
    [handler] is its handler, nil for an invalid signature. *)
Definition structMethodLambda (handler : option funcptr) : LambdaAWSInfo :=
  {| handlerSymbol := handler;
     lambdaFn := None;
     userSuppliedFunctionName := "pkg.(" +:+ "*T).handler-fm";
     lambdaFnName := "";
     RoleName := "ops";
     RoleDefinition := None;
     Options := None;
     customResources := [];
     cachedLambdaFunctionName := "" |}.

(** Two functions that share the role definition behind pointer 1; each
    has a custom resource that runs under the named role ops. *)
Definition sharingLambda (name : string) : LambdaAWSInfo :=
  {| handlerSymbol := Some 1;
     lambdaFn := None;
     userSuppliedFunctionName := name;
     lambdaFnName := name;
     RoleName := "";
     RoleDefinition := Some 1;
     Options := None;
     customResources :=
       [ {| roleDefinition := None; roleName := "ops"; cr_handlerSymbol := Some 2;
            userFunctionName := name +:+ "Resource"; cr_options := None |} ];
     cachedLambdaFunctionName := "" |}.

Definition provisionOf (infos : list LambdaAWSInfo) (dryRun : bool) (site : option S3Site)
  : provisionArgs :=
  {| arg_noop := dryRun;
     arg_serviceName := "Svc";
     arg_serviceDescription := "A service";
     arg_lambdaAWSInfos := infos;
     arg_api := None;
     arg_site := site;
     arg_s3Bucket := "b";
     arg_buildID := "1";
     arg_buildTags := "";
     arg_templateWriter := false;
     arg_loggerAtMostDebug := false;
     arg_workflowHooks := None |}.

Definition stateOf (infos : list LambdaAWSInfo) (dryRun : bool) (site : option S3Site)
  : state :=
  mkState (newWorkflowContext (provisionOf infos dryRun site) infos) ∅ [].

Definition sharingState : state :=
  stateOf [sharingLambda "alpha"; sharingLambda "beta"] false None.

(** A world in which object storage refuses every upload, with a message
    that tells the primary archive from the site archive. *)
Definition refusedUploadsWorld : Externals :=
  scriptedWorld (fun c => match c with
                          | S3UploadLocalFile localPath _ _ =>
                              if String.eqb localPath "/tmp/Svc123"
                              then RErr "primary upload refused"
                              else RErr "site upload refused"
                          | TemporaryFile name => ROk ("/tmp/" +:+ name)
                          | _ => ROk "ok"
                          end) [].

(** A world in which object storage takes the primary archive and refuses
    the site archive. *)
Definition refusedSiteWorld : Externals :=
  scriptedWorld (fun c => match c with
                          | S3UploadLocalFile localPath _ _ =>
                              if String.eqb localPath "/tmp/Svc123"
                              then ROk "uploaded"
                              else RErr "site upload refused"
                          | TemporaryFile name => ROk ("/tmp/" +:+ name)
                          | _ => ROk "ok"
                          end) [].

(** A world in which the deployment service rejects the stack. *)
Definition rejectedStackWorld : Externals :=
  scriptedWorld (fun c => match c with
                          | ConvergeStackState _ _ _ _ => RErr "stack rejected"
                          | TemporaryFile name => ROk ("/tmp/" +:+ name)
                          | _ => ROk "ok"
                          end) [].

(** A world in which the environment of the site builder function cannot
    be created, so that the S3 site export fails. *)
Definition brokenSiteExportWorld : Externals :=
  scriptedWorld (fun c => match c with
                          | LambdaFunctionEnvironment _ => RErr "environment refused"
                          | _ => ROk "ok"
                          end) [].

(** A world in which the export of every function fails. *)
Definition brokenLambdaExportWorld : Externals :=
  scriptedWorld (fun c => match c with
                          | ExportLambda _ => RErr "export refused"
                          | _ => ROk "ok"
                          end) [].

(** A service with one function and an S3 site, not a dry run. *)
Definition siteState : state :=
  stateOf [simpleLambda "alpha" "ops"] false (Some (mkS3Site "./site" "S3SiteBucket")).

(** * Properties *)

(** Unfolds the monadic plumbing so that a computation shows the calls it
    makes one after the other. *)
Ltac run_monad :=
  cbv beta iota zeta delta [bind ret ext log liftW getCtx modifyCtx err_of].
Ltac run_monad_in H :=
  cbv beta iota zeta delta [bind ret ext log liftW getCtx modifyCtx err_of] in H.

(** Cases on the answer to the next call the goal is waiting for. *)
Ltac case_respond :=
  match goal with
  | |- context [respond ?tr ?c] =>
      let p := fresh "p" in
      let e := fresh "e" in
      destruct (respond tr c) as [p|e]; run_monad; cbn [fst snd ctx heap trace]
  end.

(** ** Naming *)

Section Naming.
Context `{Externals}.

Lemma set_cachedLambdaFunctionName_same info :
  set_cachedLambdaFunctionName (cachedLambdaFunctionName info) info = info.
Proof. by destruct info. Qed.

(** A second call returns what the first returned and changes nothing. *)
Lemma lambdaFunctionName_again info :
  lambdaFunctionName (lambdaFunctionName info).2 = lambdaFunctionName info.
Proof.
  destruct info as [hs fn user fnName role rd opts crs cached].
  unfold lambdaFunctionName, spartaOptionsName; cbn [cachedLambdaFunctionName
    userSuppliedFunctionName lambdaFn Options set_cachedLambdaFunctionName].
  destruct (String.eqb cached "") eqn:Hc; cbn [negb].
  - apply String.eqb_eq in Hc. subst cached.
    match goal with
    | |- context [match ?c with Ret n => _ | Panic m => _ end] =>
        destruct c as [n|m] eqn:Hcomp
    end; cbn [snd fst cachedLambdaFunctionName userSuppliedFunctionName lambdaFn
              Options set_cachedLambdaFunctionName].
    + destruct (String.eqb n "") eqn:Hn; cbn [negb].
      * apply String.eqb_eq in Hn. subst n. by rewrite Hcomp.
      * reflexivity.
    + rewrite Hcomp. reflexivity.
  - cbn [snd cachedLambdaFunctionName]. by rewrite Hc.
Qed.

Lemma lambdaFunctionName_calls_same n info :
  Forall (eq (lambdaFunctionName info).1) (lambdaFunctionName_calls n info).1.
Proof.
  induction n as [|n IH] in info |- *; cbn [lambdaFunctionName_calls]; [constructor|].
  destruct (lambdaFunctionName info) as [r info'] eqn:Hr.
  destruct (lambdaFunctionName_calls n info') as [rs info''] eqn:Hrs. cbn [fst].
  constructor; [done|].
  specialize (IH info'). rewrite Hrs in IH. cbn [fst] in IH.
  pose proof (lambdaFunctionName_again info) as Hagain.
  rewrite Hr in Hagain. cbn [snd] in Hagain. rewrite Hagain in IH. exact IH.
Qed.

(** Once a pointer holds a non-empty cached name, [logicalName] returns it
    whatever the arguments and leaves the definitions alone. *)
Lemma logicalName_cached p svc fn h :
  cachedLogicalName (deref h p) ≠ "" →
  IAMRoleDefinition_logicalName p svc fn h = (cachedLogicalName (deref h p), h).
Proof.
  intros Hne. unfold IAMRoleDefinition_logicalName.
  destruct (String.eqb "" (cachedLogicalName (deref h p))) eqn:Hc; [|done].
  apply String.eqb_eq in Hc. congruence.
Qed.

Lemma deref_insert p d (h : roleHeap) : deref (<[p := d]> h) p = d.
Proof. unfold deref. by rewrite lookup_insert_eq. Qed.

Lemma deref_insert_ne p q d (h : roleHeap) : p ≠ q → deref (<[p := d]> h) q = deref h q.
Proof. intros. unfold deref. by rewrite lookup_insert_ne. Qed.

(** The name a call returns is the name the pointer holds afterwards. *)
Lemma logicalName_result p svc fn h :
  cachedLogicalName (deref (IAMRoleDefinition_logicalName p svc fn h).2 p)
  = (IAMRoleDefinition_logicalName p svc fn h).1.
Proof. reflexivity. Qed.

Lemma logicalName_first p svc fn h :
  (IAMRoleDefinition_logicalName p svc fn h).1 =
  if String.eqb "" (cachedLogicalName (deref h p))
  then CloudFormationResourceName "IAMRole" [svc; fn]
  else cachedLogicalName (deref h p).
Proof.
  unfold IAMRoleDefinition_logicalName. cbn [fst].
  destruct (String.eqb "" (cachedLogicalName (deref h p))); [|done].
  by rewrite deref_insert.
Qed.

Lemma logicalName_calls_same p args h name :
  cachedLogicalName (deref h p) = name → name ≠ "" →
  Forall (eq name) (logicalName_calls p args h).1.
Proof.
  intros Hn Hne.
  induction args as [|[svc fn] args IH]; cbn [logicalName_calls]; [constructor|].
  rewrite logicalName_cached by congruence.
  destruct (logicalName_calls p args h) as [rs h'']. cbn [fst] in *.
  constructor; [done|exact IH].
Qed.

(** C9. Name derivation is idempotent within a run.  Whatever the number
    of calls of [lambdaFunctionName] on a function declaration, every call
    returns what the first call returned; and when the resource names of
    IAM roles are never empty, every call of [logicalName] through a
    pointer returns the string the first call returned, whatever the
    arguments of the later calls. *)
Theorem name_derivation_idempotent :
  (∀ (info : LambdaAWSInfo) (n : nat),
      Forall (eq (lambdaFunctionName info).1) (lambdaFunctionName_calls n info).1)
  ∧ ((∀ svc fn, CloudFormationResourceName "IAMRole" [svc; fn] ≠ "") →
     ∀ (p : loc) (h : roleHeap) (svc fn : string) (args : list (string * string)),
       Forall (eq (IAMRoleDefinition_logicalName p svc fn h).1)
              (logicalName_calls p ((svc, fn) :: args) h).1).
Proof.
  split; [intros info n; apply lambdaFunctionName_calls_same|].
  intros Hne p h svc fn args. cbn [logicalName_calls].
  destruct (IAMRoleDefinition_logicalName p svc fn h) as [r h'] eqn:Hr.
  destruct (logicalName_calls p args h') as [rs h''] eqn:Hrs. cbn [fst].
  constructor; [done|].
  pose proof (logicalName_result p svc fn h) as Hres.
  pose proof (logicalName_first p svc fn h) as Hfirst.
  rewrite Hr in Hres, Hfirst. cbn [fst snd] in Hres, Hfirst.
  pose proof (logicalName_calls_same p args h' r Hres) as Hall.
  rewrite Hrs in Hall. apply Hall.
  rewrite Hfirst.
  destruct (String.eqb "" (cachedLogicalName (deref h p))) eqn:Hc; [apply Hne|].
  apply String.eqb_neq in Hc. congruence.
Qed.

End Naming.

(** The statement at a concrete world: three calls on a declaration named
    after a function of another package, and three calls through one
    pointer with three different owners. *)
Lemma name_derivation_idempotent_witness :
  Forall (eq (Ret "SpartaPython_HelloWorld"))
         (@lambdaFunctionName_calls quietWorld 3
            (simpleLambda "github.com/mweagle/SpartaPython.HelloWorld" "")).1
  ∧ Forall (eq "IAMRoleSvcmain")
           (@logicalName_calls quietWorld 7
              [("Svc", "main"); ("Svc", "other"); ("Another", "third")] ∅).1.
Proof.
  pose proof (@name_derivation_idempotent quietWorld) as [Hl Hr].
  split.
  - pose proof (Hl (simpleLambda "github.com/mweagle/SpartaPython.HelloWorld" "") 3) as X.
    vm_compute in X |- *. exact X.
  - pose proof (Hr ltac:(intros svc fn; simpl; discriminate) 7 ∅ "Svc" "main"
                   [("Svc", "other"); ("Another", "third")]) as X.
    vm_compute in X |- *. exact X.
Defined.

(** ** API Gateway methods *)

Section Gateway.

(** [NewMethod] fails exactly when the HTTP method is taken, and then
    returns a nil pointer. *)
Lemma NewMethod_taken httpMethod resource (h : methodHeap) p :
  Methods resource !! httpMethod = Some p →
  ∃ e, NewMethod httpMethod (resource, h) = ((None, Some e), (resource, h)).
Proof. intros Hp. unfold NewMethod. rewrite Hp. eauto. Qed.

Lemma NewMethod_free httpMethod resource (h : methodHeap) :
  Methods resource !! httpMethod = None →
  ∃ p resource',
    NewMethod httpMethod (resource, h)
    = ((Some p, None),
       (resource', <[p := mkMethod "NONE" httpMethod false]> h))
    ∧ h !! p = None
    ∧ Methods resource' !! httpMethod = Some p.
Proof.
  intros Hp. unfold NewMethod. rewrite Hp.
  eexists _, _. split; [reflexivity|]. split.
  - apply not_elem_of_dom, is_fresh.
  - cbn [Methods]. apply lookup_insert_eq.
Qed.

(** C10. [NewAuthorizedMethod] reaches the assignment of the supplied
    authorization type only when [NewMethod] returned an error; the pointer
    it assigns through is then nil and the call panics with a nil
    dereference.  On every call that succeeds the method that is returned
    and stored has the authorization type NONE, whatever authorization
    type was asked for. *)
Theorem NewAuthorizedMethod_keeps_NONE
    (resource : Resource) (h : methodHeap) (httpMethod authType : string) :
  match Methods resource !! httpMethod with
  | Some _ =>
      (∃ e, (NewMethod httpMethod (resource, h)).1 = (None, Some e))
      ∧ (NewAuthorizedMethod httpMethod authType (resource, h)).1
        = Panic nilDereference
  | None =>
      ∃ p m resource' h',
        NewAuthorizedMethod httpMethod authType (resource, h)
        = (Ret (Some p, None), (resource', h'))
        ∧ Methods resource' !! httpMethod = Some p
        ∧ h' !! p = Some m
        ∧ authorizationType m = "NONE"
  end.
Proof.
  destruct (Methods resource !! httpMethod) as [q|] eqn:Hq.
  - destruct (NewMethod_taken httpMethod resource h q Hq) as [e He].
    split; [exists e; by rewrite He|].
    unfold NewAuthorizedMethod. by rewrite He.
  - destruct (NewMethod_free httpMethod resource h Hq) as (p & resource' & He & Hfresh & Hp).
    exists p, (mkMethod "NONE" httpMethod false), resource',
           (<[p := mkMethod "NONE" httpMethod false]> h).
    unfold NewAuthorizedMethod. rewrite He.
    split; [reflexivity|]. split; [exact Hp|]. split; [apply lookup_insert_eq|reflexivity].
Qed.

(** A resource with a GET method asked for an authorized GET method
    panics; a fresh resource asked for an IAM authorized GET gets a method
    with authorization type NONE. *)
Example NewAuthorizedMethod_examples :
  let fresh_resource := mkResource "/hello" ∅ in
  let '(_, taken) := NewMethod "GET" (fresh_resource, ∅) in
  (NewAuthorizedMethod "GET" "AWS_IAM" taken).1 = Panic nilDereference
  ∧ ∃ p h', (NewAuthorizedMethod "GET" "AWS_IAM" (fresh_resource, ∅))
             = (Ret (Some p, None), h')
            ∧ authorizationType <$> (h'.2 !! p) = Some "NONE".
Proof. vm_compute. split; [reflexivity|]. eexists _, _. split; reflexivity. Qed.

End Gateway.

(** ** The dispatch shim *)

Section Shim.
Context `{Externals}.

Lemma string_app_assoc (a b c : string) : (a +:+ b) +:+ c = a +:+ (b +:+ c).
Proof.
  induction a as [|x a IH]; [reflexivity|].
  change (String x ((a +:+ b) +:+ c) = String x (a +:+ (b +:+ c))). by rewrite IH.
Qed.

Lemma string_app_nil_r (a : string) : a +:+ "" = a.
Proof.
  induction a as [|x a IH]; [reflexivity|].
  change (String x (a +:+ "") = String x a). by rewrite IH.
Qed.

Lemma shimCustomResources_register crs st :
  shimCustomResources crs st
  = foldl register st
          (map (fun cr => (customResource_jsHandlerName cr,
                           createUserCustomResourceEntry cr)) crs).
Proof.
  unfold shimCustomResources.
  induction crs as [|cr crs IH] in st |- *; [reflexivity|].
  cbn [foldl map]. rewrite IH. f_equal.
  destruct st as [src names]. unfold register. cbn [fst snd].
  by destruct (names !! customResource_jsHandlerName cr).
Qed.

Lemma shimLambdas_register infos st :
  shimLambdas infos st = foldl register st (shimRegistrations infos).
Proof.
  unfold shimLambdas, shimRegistrations.
  induction infos as [|l infos IH] in st |- *; [reflexivity|].
  cbn [foldl flat_map]. rewrite IH, foldl_app. f_equal.
  destruct st as [src names].
  rewrite shimCustomResources_register. cbn [foldl]. reflexivity.
Qed.

Lemma foldl_register regs src (names : gmap string bool) :
  (foldl register (src, names) regs).1
  = src +:+ joinAll (map snd (firstRegistrations (dom names) regs)).
Proof.
  induction regs as [|[k e] regs IH] in src, names |- *.
  - cbn. by rewrite string_app_nil_r.
  - cbn [foldl firstRegistrations]. unfold register at 2. cbn [fst snd].
    destruct (names !! k) as [b|] eqn:Hk.
    + rewrite decide_True by (apply elem_of_dom; eauto). apply IH.
    + rewrite decide_False by (by apply not_elem_of_dom).
      rewrite IH, dom_insert_L. cbn [map joinAll foldr snd].
      by rewrite string_app_assoc.
Qed.

Lemma foldl_append_entries (f : string → string) l src :
  foldl (fun s n => s +:+ f n) src l = src +:+ joinAll (map f l).
Proof.
  induction l as [|n l IH] in src |- *; cbn.
  - by rewrite string_app_nil_r.
  - by rewrite IH, string_app_assoc.
Qed.

(** The text of [index.js], read as a header, the entries and a trailer. *)
Lemma nodeJSShimSource_layout serviceName executableOutput infos :
  nodeJSShimSource serviceName executableOutput infos
  = shimHeader
    +:+ joinAll (map snd (firstRegistrations ∅ (shimRegistrations infos)))
    +:+ joinAll (map createNewSpartaCustomResourceEntry golangCustomResourceTypes)
    +:+ shimTrailer serviceName executableOutput.
Proof.
  unfold nodeJSShimSource, shimTrailer.
  pose proof (foldl_register (shimRegistrations infos) shimHeader ∅) as Hreg.
  rewrite <- shimLambdas_register in Hreg. rewrite dom_empty_L in Hreg.
  fold shimHeader.
  destruct (shimLambdas infos (shimHeader, ∅)) as [src names]. cbn [fst] in Hreg.
  subst src. rewrite foldl_append_entries.
  by rewrite !string_app_assoc.
Qed.

Lemma firstRegistrations_keys seen regs k :
  k ∈ map fst (firstRegistrations seen regs) ↔ k ∈ map fst regs ∧ k ∉ seen.
Proof.
  induction regs as [|[k' e] regs IH] in seen |- *; cbn [firstRegistrations map fst].
  - rewrite elem_of_nil. tauto.
  - case_decide as Hseen.
    + rewrite IH, elem_of_cons. split; [tauto|].
      intros [[->|?] ?]; tauto.
    + cbn [map fst]. rewrite !elem_of_cons, IH, not_elem_of_union, elem_of_singleton.
      destruct (decide (k = k')) as [->|Hne]; naive_solver.
Qed.

Lemma firstRegistrations_NoDup seen regs :
  NoDup (map fst (firstRegistrations seen regs)).
Proof.
  induction regs as [|[k e] regs IH] in seen |- *; cbn [firstRegistrations].
  - constructor.
  - case_decide; [apply IH|]. cbn [map fst]. constructor; [|apply IH].
    rewrite firstRegistrations_keys, not_elem_of_union, elem_of_singleton. naive_solver.
Qed.

(** An emitted entry is the first registration of its identifier. *)
Lemma firstRegistrations_first seen regs k e :
  (k, e) ∈ firstRegistrations seen regs ↔
  ((k ∉ seen) ∧ (∃ pre post, regs = pre ++ (k, e) :: post ∧ k ∉ map fst pre)).
Proof.
  induction regs as [|[k' e'] regs IH] in seen |- *; cbn [firstRegistrations].
  - rewrite elem_of_nil. split; [tauto|].
    intros (_ & pre & post & Heq & _). by destruct pre.
  - case_decide as Hseen.
    + rewrite IH. split.
      * intros (Hk & pre & post & -> & Hpre). split; [done|].
        exists ((k', e') :: pre), post. split; [done|].
        cbn [map fst]. rewrite not_elem_of_cons. split; [congruence|done].
      * intros (Hk & pre & post & Heq & Hpre). split; [done|].
        destruct pre as [|r pre]; simplify_eq/=; [done|].
        exists pre, post. split; [done|]. set_solver.
    + rewrite elem_of_cons, IH. split.
      * intros [Heq|(Hk & pre & post & -> & Hpre)].
        -- simplify_eq. split; [done|]. exists [], regs. split; [done|]. set_solver.
        -- split; [set_solver|].
           exists ((k', e') :: pre), post. split; [done|].
           cbn [map fst]. set_solver.
      * intros (Hk & pre & post & Heq & Hpre).
        destruct pre as [|r pre]; simplify_eq/=; [by left|].
        right. split; [set_solver|]. exists pre, post. split; [done|]. set_solver.
Qed.

(** What [writeNodeJSShim] does to the archive. *)
Lemma writeNodeJSShim_run serviceName executableOutput infos tr :
  let text := nodeJSShimSource serviceName executableOutput infos in
  let run := writeNodeJSShim serviceName executableOutput infos tr in
  ∃ delta,
    run.2 = tr ++ delta
    ∧ match respond tr (ZipCreate "index.js") with
      | RErr _ =>
          run.1 = Some "Failed to create ZIP entry: index.js"
          ∧ zipCalls delta = [ZipCreate "index.js"]
      | ROk _ =>
          zipCalls delta = [ZipCreate "index.js"; ZipWrite "index.js" text]
          ∧ ∃ r, (ZipWrite "index.js" text, r) ∈ delta ∧ run.1 = err_of r
      end.
Proof.
  intros text run. subst run. unfold writeNodeJSShim. run_monad. fold text.
  destruct (respond tr (ZipCreate "index.js")) as [payload|e]; cbn [fst snd].
  - eexists. rewrite <- !app_assoc. split; [reflexivity|]. split; [reflexivity|].
    eexists. split; [|reflexivity].
    apply elem_of_cons. right. apply elem_of_cons. right. apply elem_of_cons. by left.
  - eexists. split; [reflexivity|]. by split.
Qed.

Lemma shimRegistrations_entries infos k e :
  (k, e) ∈ shimRegistrations infos → ∃ target, e = forwarderEntry k target.
Proof.
  unfold shimRegistrations. intros Hin.
  apply list_elem_of_In, in_flat_map in Hin as (l & _ & Hin).
  apply list_elem_of_In in Hin. apply elem_of_cons in Hin as [Heq|Hin].
  - injection Heq as -> ->. by eexists.
  - change (map ?f ?l) with (f <$> l) in Hin.
    apply list_elem_of_fmap in Hin as (cr & Heq & _). injection Heq as -> ->. by eexists.
Qed.


(** When the archive accepts the entry, that text is what is written. *)
Lemma writeNodeJSShim_writes serviceName executableOutput infos tr :
  err_of (respond tr (ZipCreate "index.js")) = None →
  ∃ r, (ZipWrite "index.js" (nodeJSShimSource serviceName executableOutput infos), r)
       ∈ (writeNodeJSShim serviceName executableOutput infos tr).2.
Proof.
  intros Hok. unfold writeNodeJSShim. run_monad.
  destruct (respond tr (ZipCreate "index.js")) as [payload|e]; [|done].
  eexists. cbn [snd]. rewrite !elem_of_app. right. apply list_elem_of_singleton. reflexivity.
Qed.

End Shim.


(** ** Role verification *)

Section Roles.
Context `{Externals}.

Lemma appendRoleName_declared name st : declared (appendRoleName name st) = declared st.
Proof. unfold appendRoleName. by destruct (String.eqb "" name). Qed.

Lemma appendRoleName_names name st :
  allRoleNames (appendRoleName name st)
  = allRoleNames st ++ filter (fun n => n ≠ "") [name].
Proof.
  unfold appendRoleName. destruct (String.eqb "" name) eqn:Hn.
  - apply String.eqb_eq in Hn. subst name.
    rewrite filter_cons_False by (intros Hne; by apply Hne).
    by rewrite filter_nil, app_nil_r.
  - apply String.eqb_neq in Hn.
    rewrite filter_cons_True by congruence. by rewrite filter_nil.
Qed.

Lemma appendRoleNames_declared (crs : list customResourceInfo) st :
  declared (foldl (fun st cr => appendRoleName (roleName cr) st) st crs) = declared st.
Proof.
  induction crs as [|cr crs IH] in st |- *; [done|].
  cbn [foldl]. by rewrite IH, appendRoleName_declared.
Qed.

Lemma appendRoleNames_names (crs : list customResourceInfo) st :
  allRoleNames (foldl (fun st cr => appendRoleName (roleName cr) st) st crs)
  = allRoleNames st ++ filter (fun n => n ≠ "") (map roleName crs).
Proof.
  induction crs as [|cr crs IH] in st |- *; cbn [foldl map].
  - by rewrite filter_nil, app_nil_r.
  - rewrite IH, appendRoleName_names, <- app_assoc. f_equal.
    by rewrite <- filter_app.
Qed.

Lemma declareRole_names p svc fn opts st :
  allRoleNames (declareRole p svc fn opts st) = allRoleNames st.
Proof.
  unfold declareRole.
  destruct (IAMRoleDefinition_logicalName p svc fn (rs_heap st)) as [n h'].
  by destruct (rs_map st !! n).
Qed.

Lemma declareRoles_names svc (crs : list customResourceInfo) st :
  allRoleNames
    (foldl (fun st cr =>
              match roleDefinition cr with
              | Some p => declareRole p svc (userFunctionName cr) (cr_options cr) st
              | None => st
              end) st crs)
  = allRoleNames st.
Proof.
  induction crs as [|cr crs IH] in st |- *; [done|].
  cbn [foldl]. rewrite IH. destruct (roleDefinition cr); [apply declareRole_names|done].
Qed.

(** [allRoleNames] after the first loop. *)
Lemma collectRoles_names svc infos st :
  allRoleNames (foldl (collectRoles svc) st infos)
  = allRoleNames st ++ declaredRoleNames infos.
Proof.
  induction infos as [|l infos IH] in st |- *; cbn [foldl declaredRoleNames flat_map].
  - by rewrite app_nil_r.
  - rewrite IH. unfold collectRoles.
    rewrite declareRoles_names.
    assert (Hmid : ∀ st', allRoleNames
              (match RoleDefinition l with
               | Some p => declareRole p svc (lambdaFnName l) (Options l) st'
               | None => st'
               end) = allRoleNames st').
    { intros st'. destruct (RoleDefinition l); [apply declareRole_names|done]. }
    rewrite Hmid, appendRoleNames_names, appendRoleName_names.
    change (RoleName l :: map roleName (customResources l))
      with ([RoleName l] ++ map roleName (customResources l)).
    rewrite filter_app. unfold declaredRoleNames.
    by rewrite <- !app_assoc.
Qed.

(** A pointer that already holds a name that the map has declares
    nothing. *)
Lemma declareRole_again p svc fn opts st name :
  cachedLogicalName (deref (rs_heap st) p) = name → name ≠ "" →
  is_Some (rs_map st !! name) →
  declared (declareRole p svc fn opts st) = declared st.
Proof.
  intros Hn Hne [v Hv]. unfold declareRole.
  rewrite logicalName_cached by congruence. rewrite Hn, Hv. reflexivity.
Qed.

Lemma declareRoles_again p svc (crs : list customResourceInfo) st name :
  cachedLogicalName (deref (rs_heap st) p) = name → name ≠ "" →
  is_Some (rs_map st !! name) →
  (∀ cr, cr ∈ crs → roleDefinition cr = None ∨ roleDefinition cr = Some p) →
  declared
    (foldl (fun st cr =>
              match roleDefinition cr with
              | Some q => declareRole q svc (userFunctionName cr) (cr_options cr) st
              | None => st
              end) st crs)
  = declared st.
Proof.
  intros Hn Hne Hv Hcrs.
  induction crs as [|cr crs IH] in st, Hn, Hv, Hcrs |- *; [done|].
  cbn [foldl].
  set (st1 := match roleDefinition cr with
              | Some q => declareRole q svc (userFunctionName cr) (cr_options cr) st
              | None => st
              end).
  assert (Hstep : declared st1 = declared st).
  { unfold st1. destruct (Hcrs cr) as [-> | ->]; [by left|done|].
    by apply declareRole_again with name. }
  pose proof Hstep as Hstep'. unfold declared in Hstep'.
  injection Hstep' as Ht Hm Hh.
  rewrite IH; [done|congruence|congruence|].
  intros cr' Hin. apply Hcrs. by right.
Qed.

Lemma collectRoles_again p svc l st name :
  cachedLogicalName (deref (rs_heap st) p) = name → name ≠ "" →
  is_Some (rs_map st !! name) → sharesRole p l →
  declared (collectRoles svc st l) = declared st.
Proof.
  intros Hn Hne Hv [Hl Hcrs]. unfold collectRoles. rewrite Hl.
  set (st1 := foldl _ (appendRoleName (RoleName l) st) (customResources l)).
  assert (Hst1 : declared st1 = declared st).
  { unfold st1. by rewrite appendRoleNames_declared, appendRoleName_declared. }
  pose proof Hst1 as Hst1'. unfold declared in Hst1'.
  injection Hst1' as Ht1 Hm1 Hh1.
  set (st2 := declareRole p svc (lambdaFnName l) (Options l) st1).
  assert (Hst2 : declared st2 = declared st1).
  { apply declareRole_again with name; congruence. }
  pose proof Hst2 as Hst2'. unfold declared in Hst2'.
  injection Hst2' as Ht2 Hm2 Hh2.
  rewrite declareRoles_again with (p := p) (name := name);
    [congruence|congruence|done|congruence|done].
Qed.

Lemma collectRoles_all_again p svc infos st name :
  cachedLogicalName (deref (rs_heap st) p) = name → name ≠ "" →
  is_Some (rs_map st !! name) → Forall (sharesRole p) infos →
  declared (foldl (collectRoles svc) st infos) = declared st.
Proof.
  intros Hn Hne Hv Hall.
  induction Hall as [|l infos Hl Hall IH] in st, Hn, Hv |- *; [done|].
  cbn [foldl].
  pose proof (collectRoles_again p svc l st name Hn Hne Hv Hl) as Hstep.
  pose proof Hstep as Hstep'. unfold declared in Hstep'.
  injection Hstep' as Ht Hm Hh.
  rewrite IH; [done|congruence|congruence].
Qed.

Lemma logicalName_nonempty p svc fn h :
  (∀ svc fn, CloudFormationResourceName "IAMRole" [svc; fn] ≠ "") →
  (IAMRoleDefinition_logicalName p svc fn h).1 ≠ "".
Proof.
  intros Hne. rewrite logicalName_first.
  destruct (String.eqb "" (cachedLogicalName (deref h p))) eqn:Hc; [apply Hne|].
  apply String.eqb_neq in Hc. congruence.
Qed.

Lemma logicalName_Privileges p svc fn h :
  Privileges (deref (IAMRoleDefinition_logicalName p svc fn h).2 p)
  = Privileges (deref h p).
Proof.
  unfold IAMRoleDefinition_logicalName. cbn [snd].
  destruct (String.eqb "" (cachedLogicalName (deref h p))); [|done].
  by rewrite deref_insert.
Qed.

(** The first function that shares [p] declares the role. *)
Lemma collectRoles_first p svc l tpl h :
  (∀ svc fn, CloudFormationResourceName "IAMRole" [svc; fn] ≠ "") →
  sharesRole p l →
  let name := (IAMRoleDefinition_logicalName p svc (lambdaFnName l) h).1 in
  declared (collectRoles svc (mkRolesState [] tpl ∅ h) l)
  = (AddResource name (toResource (deref h p) (Options l)) tpl,
     {[name := GetAtt name "Arn"]},
     (IAMRoleDefinition_logicalName p svc (lambdaFnName l) h).2).
Proof.
  intros Hne [Hl Hcrs] name. unfold collectRoles. rewrite Hl.
  set (st0 := mkRolesState [] tpl ∅ h).
  set (st1 := foldl _ (appendRoleName (RoleName l) st0) (customResources l)).
  assert (Hst1 : declared st1 = declared st0).
  { unfold st1. by rewrite appendRoleNames_declared, appendRoleName_declared. }
  unfold declared in Hst1. injection Hst1 as Ht1 Hm1 Hh1. cbn in Ht1, Hm1, Hh1.
  set (st2 := declareRole p svc (lambdaFnName l) (Options l) st1).
  assert (Hst2 : declared st2
                 = (AddResource name (toResource (deref h p) (Options l)) tpl,
                    {[name := GetAtt name "Arn"]},
                    (IAMRoleDefinition_logicalName p svc (lambdaFnName l) h).2)).
  { unfold st2, declareRole. rewrite Hh1, Hm1, Ht1.
    pose proof (logicalName_Privileges p svc (lambdaFnName l) h) as Hpriv.
    fold name.
    destruct (IAMRoleDefinition_logicalName p svc (lambdaFnName l) h) as [n h1] eqn:Hn.
    cbn [fst snd] in *. subst name. rewrite lookup_empty.
    unfold declared. cbn [rs_template rs_map rs_heap].
    unfold toResource. rewrite Hpriv. by rewrite insert_empty. }
  pose proof Hst2 as Hst2'. unfold declared in Hst2'. injection Hst2' as Ht2 Hm2 Hh2.
  rewrite declareRoles_again with (p := p) (name := name); [done| | | |done].
  - rewrite Hh2. apply logicalName_result.
  - by apply logicalName_nonempty.
  - rewrite Hm2, lookup_singleton_eq. eauto.
Qed.

(** All the functions of a service share the role definition behind
    [p]: the first loop declares one role, named by the first function. *)
Lemma collectAllRoles_shared p c h first rest :
  (∀ svc fn, CloudFormationResourceName "IAMRole" [svc; fn] ≠ "") →
  lambdaAWSInfos c = first :: rest →
  Forall (sharesRole p) (lambdaAWSInfos c) →
  let name := (IAMRoleDefinition_logicalName p (serviceName c) (lambdaFnName first) h).1 in
  declared (collectAllRoles c h)
  = (AddResource name (toResource (deref h p) (Options first)) (cfTemplate c),
     {[name := GetAtt name "Arn"]},
     (IAMRoleDefinition_logicalName p (serviceName c) (lambdaFnName first) h).2).
Proof.
  intros Hne Hinfos Hall name. unfold collectAllRoles. rewrite Hinfos in Hall |- *.
  apply Forall_cons in Hall as [Hfirst Hrest]. cbn [foldl].
  pose proof (collectRoles_first p (serviceName c) first (cfTemplate c) h Hne Hfirst) as H1.
  cbn zeta in H1. fold name in H1.
  pose proof H1 as H1'. unfold declared in H1'. injection H1' as Ht Hm Hh.
  rewrite collectRoles_all_again with (p := p) (name := name); [done| | | |done].
  - rewrite Hh. apply logicalName_result.
  - by apply logicalName_nonempty.
  - rewrite Hm, lookup_singleton_eq. eauto.
Qed.

Lemma roleLookups_app tr1 tr2 : roleLookups (tr1 ++ tr2) = roleLookups tr1 ++ roleLookups tr2.
Proof. apply omap_app. Qed.

(** The second loop looks up, in order and once each, the names that
    the map does not have; a lookup that fails is the last one. *)
Lemma checkRoleNames_lookups names (m : gmap string StringExpr) tr :
  ∃ delta,
    (checkRoleNames names m tr).2 = tr ++ delta
    ∧ NoDup (roleLookups delta)
    ∧ (∀ r, r ∈ roleLookups delta → r ∈ names ∧ m !! r = None)
    ∧ ((checkRoleNames names m tr).1.1 = None →
       ∀ r, r ∈ names → m !! r = None → r ∈ roleLookups delta)
    ∧ (∀ r v, m !! r = Some v → (checkRoleNames names m tr).1.2 !! r = Some v)
    ∧ ((checkRoleNames names m tr).1.1 = None →
       ∀ r, r ∈ names → is_Some ((checkRoleNames names m tr).1.2 !! r)).
Proof.
  induction names as [|a names IH] in m, tr |- *; cbn [checkRoleNames].
  - exists []. run_monad. cbn [fst snd]. rewrite app_nil_r.
    split; [done|]. split; [constructor|].
    split; [intros r Hr; by apply elem_of_nil in Hr|].
    split; [intros _ r Hr; by apply elem_of_nil in Hr|].
    split; [done|]. intros _ r Hr; by apply elem_of_nil in Hr.
  - destruct (m !! a) as [v|] eqn:Ha.
    + destruct (IH m tr) as (delta & Htr & Hnd & Hin & Hall & Hkeep & Hdom).
      exists delta. split; [done|]. split; [done|].
      split; [intros r Hr; destruct (Hin r Hr); split; [by right|done]|].
      split.
      * intros Herr r Hr Hm. apply elem_of_cons in Hr as [->|Hr]; [congruence|].
        by apply Hall.
      * split; [done|]. intros Herr r Hr.
        apply elem_of_cons in Hr as [->|Hr]; [eauto|by apply Hdom].
    + run_monad.
      set (tr0 := tr ++ [(Log Debug ("Checking IAM RoleName: " +:+ a), ROk "")]).
      destruct (respond tr0 (IAMGetRole a)) as [arn|err] eqn:Hresp.
      * set (tr1 := tr0 ++ [(IAMGetRole a, ROk arn)]).
        destruct (IH (<[a := StringLiteral arn]> m) tr1)
          as (delta & Htr & Hnd & Hin & Hall & Hkeep & Hdom).
        exists ([(Log Debug ("Checking IAM RoleName: " +:+ a), ROk "");
                 (IAMGetRole a, ROk arn)] ++ delta).
        split; [rewrite Htr; unfold tr1, tr0; by rewrite <- !app_assoc|].
        rewrite roleLookups_app. cbn [roleLookups omap app fst].
        change (omap _ delta) with (roleLookups delta).
        split.
        { constructor; [|done]. intros Hr. apply Hin in Hr as [_ Hr].
          by rewrite lookup_insert_eq in Hr. }
        split.
        { intros r Hr. apply elem_of_cons in Hr as [->|Hr]; [split; [by left|done]|].
          apply Hin in Hr as [Hr Hm]. split; [by right|].
          destruct (decide (a = r)) as [->|Hne]; [by rewrite lookup_insert_eq in Hm|].
          by rewrite lookup_insert_ne in Hm. }
        split.
        { intros Herr r Hr Hm. destruct (decide (r = a)) as [->|Hne]; [by left|].
          right. apply Hall; [done| |by rewrite lookup_insert_ne].
          apply elem_of_cons in Hr as [?|?]; [congruence|done]. }
        split.
        { intros r v Hm. apply Hkeep. rewrite lookup_insert_ne; [done|congruence]. }
        intros Herr r Hr. apply elem_of_cons in Hr as [->|Hr]; [|by apply Hdom].
        rewrite (Hkeep a (StringLiteral arn)); [eauto|apply lookup_insert_eq].
      * exists [(Log Debug ("Checking IAM RoleName: " +:+ a), ROk "");
                (IAMGetRole a, RErr err); (Log Error err, ROk "")].
        cbn [fst snd]. split; [unfold tr0; by rewrite <- !app_assoc|].
        cbn [roleLookups omap fst].
        split; [apply NoDup_singleton|].
        split; [intros r Hr; apply list_elem_of_singleton in Hr as ->; split; [by left|done]|].
        split; [done|]. split; [done|done].
Qed.

(** What the step leaves in the state, read off its definition. *)
Lemma verifyIAMRoles_run s :
  let st := collectAllRoles (ctx s) (heap s) in
  let tr0 := trace s ++ [(Log Info "Verifying IAM Lambda execution roles", ROk "")] in
  let ck := checkRoleNames (allRoleNames st) (rs_map st) tr0 in
  (runStep verifyIAMRoles s).1.2 = ck.1.1
  ∧ cfTemplate (ctx (runStep verifyIAMRoles s).2) = rs_template st
  ∧ lambdaIAMRoleNameMap (ctx (runStep verifyIAMRoles s).2) = ck.1.2
  ∧ heap (runStep verifyIAMRoles s).2 = rs_heap st
  ∧ ∃ tail, trace (runStep verifyIAMRoles s).2 = ck.2 ++ tail ∧ roleLookups tail = [].
Proof.
  intros st tr0 ck. unfold runStep, verifyIAMRoles. run_monad.
  fold st. fold tr0. fold ck.
  destruct ck as [[[e|] m] tr1]; cbn [fst snd ctx heap trace].
  - repeat split; try done. exists []. by rewrite app_nil_r.
  - repeat split; try done. exists [(Log Info "IAM roles verified", ROk "")]. done.
Qed.


End Roles.



(** ** Paths of uploaded objects *)

Section Paths.

Lemma hasSlash_split_aux s rest cur :
  GoPath.hasSlash s = false →
  GoStrings.split_aux "/"%char (s +:+ rest) cur
  = GoStrings.split_aux "/"%char rest (cur +:+ s).
Proof.
  induction s as [|c s IH] in cur |- *; intros Hs.
  - by rewrite string_app_nil_r.
  - cbn [GoPath.hasSlash] in Hs. apply orb_false_iff in Hs as [Hc Hs].
    change (String c s +:+ rest) with (String c (s +:+ rest)).
    cbn [GoStrings.split_aux]. rewrite Hc, IH by done.
    f_equal. by rewrite string_app_assoc.
Qed.

Lemma Split_two s b :
  GoPath.hasSlash s = false → GoPath.hasSlash b = false →
  GoStrings.Split (s +:+ "/" +:+ b) "/"%char = [s; b].
Proof.
  intros Hs Hb. unfold GoStrings.Split.
  rewrite hasSlash_split_aux by done.
  change ("/" +:+ b) with (String "/"%char b). cbn [GoStrings.split_aux].
  rewrite Ascii.eqb_refl. f_equal.
  rewrite <- (string_app_nil_r b) at 1.
  rewrite hasSlash_split_aux by done. reflexivity.
Qed.

(** Joining two plain names puts one slash between them. *)
Lemma Join_plain s b :
  GoPath.plainName s = true → GoPath.plainName b = true →
  GoPath.Join [s; b] = s +:+ "/" +:+ b.
Proof.
  unfold GoPath.plainName. rewrite !andb_true_iff, !negb_true_iff.
  intros [[[Hs1 Hs2] Hs3] Hs4] [[[Hb1 Hb2] Hb3] Hb4].
  unfold GoPath.Join. cbn [GoPath.dropEmpty]. rewrite Hs1.
  cbn [String.concat].
  destruct s as [|c s']; [done|].
  unfold GoPath.Clean.
  change (String c s' +:+ "/" +:+ b) with (String c (s' +:+ "/" +:+ b)) at 1.
  cbv iota.
  cbn [GoPath.hasSlash] in Hs4. apply orb_false_iff in Hs4 as [Hc Hs4].
  rewrite Hc.
  change (String c (s' +:+ "/" +:+ b)) with (String c s' +:+ "/" +:+ b).
  rewrite Split_two; [|cbn [GoPath.hasSlash]; by rewrite Hc, Hs4|done].
  unfold GoPath.cleanElements. cbn [foldl].
  rewrite Hs1, Hs2, Hs3, Hb1, Hb2, Hb3. cbn [orb rev app String.concat].
  reflexivity.
Qed.

End Paths.

(** ** Uploads *)

Section Uploads.
Context `{Externals}.

Lemma uploadedObjects_app tr1 tr2 :
  uploadedObjects (tr1 ++ tr2) = uploadedObjects tr1 ++ uploadedObjects tr2.
Proof. apply omap_app. Qed.

(** [ensureExpirationPolicy] uploads nothing, and calls nothing but the
    logger in a dry run. *)
Lemma ensureExpirationPolicy_calls S3Bucket noop tr :
  ∃ delta,
    (ensureExpirationPolicy S3Bucket noop tr).2 = tr ++ delta
    ∧ uploadedObjects delta = []
    ∧ (noop = true →
       (ensureExpirationPolicy S3Bucket noop tr).1 = None
       ∧ Forall (fun ev => isObjectStorageCall ev.1 = false) delta).
Proof.
  unfold ensureExpirationPolicy. destruct noop; run_monad.
  - eexists. split; [reflexivity|]. split; [reflexivity|].
    intros _. split; [reflexivity|]. by repeat constructor.
  - destruct (respond tr (S3GetBucketLifecycleConfiguration S3Bucket)) as [p|e].
    + eexists. rewrite <- app_assoc. split; [reflexivity|]. split; [reflexivity|done].
    + destruct (GoStrings.Contains e "NoSuchLifecycleConfiguration"); cbn [negb].
      * eexists. rewrite <- app_assoc. split; [reflexivity|]. split; [reflexivity|done].
      * eexists. split; [reflexivity|]. split; [reflexivity|done].
Qed.

Lemma removeLocalFile_calls localPath tr :
  ∃ delta,
    (removeLocalFile localPath tr).2 = tr ++ delta
    ∧ uploadedObjects delta = []
    ∧ Forall (fun ev => isObjectStorageCall ev.1 = false) delta.
Proof.
  unfold removeLocalFile. run_monad.
  destruct (respond tr (OSRemove localPath)) as [p|e].
  - eexists. split; [reflexivity|]. split; [reflexivity|]. by repeat constructor.
  - eexists. rewrite <- app_assoc. split; [reflexivity|]. split; [reflexivity|].
    by repeat constructor.
Qed.

(** What [uploadLocalFileToS3] returns and records. *)
Lemma uploadLocalFileToS3_run localPath S3Bucket S3KeyPrefix noop tr :
  let keyName := GoPath.Join [S3KeyPrefix; GoPath.Base localPath] in
  let run := uploadLocalFileToS3 localPath S3Bucket S3KeyPrefix noop tr in
  ∃ delta,
    run.2 = tr ++ delta
    ∧ (run.1.2 = None → run.1.1 = keyName)
    ∧ uploadedObjects delta
      = match run.1.2 with
        | None => if noop then [] else [CreateS3RollbackFunc S3Bucket keyName]
        | Some _ => []
        end
    ∧ (noop = true →
       run.1 = (keyName, None)
       ∧ Forall (fun ev => isObjectStorageCall ev.1 = false) delta).
Proof.
  intros keyName run.
  assert (Hrun : run = uploadLocalFileToS3 localPath S3Bucket S3KeyPrefix noop tr)
    by reflexivity.
  clearbody run. unfold uploadLocalFileToS3 in Hrun. fold keyName in Hrun.
  destruct (ensureExpirationPolicy_calls S3Bucket noop tr) as (d1 & Htr1 & Hup1 & Hnoop1).
  unfold bind at 1 in Hrun.
  destruct (ensureExpirationPolicy S3Bucket noop tr) as [[e|] tr1]; cbn [fst snd] in *;
    subst tr1.
  - unfold ret in Hrun. subst run. exists d1. cbn [fst snd].
    split; [done|]. split; [done|]. split; [done|].
    intros Hn. by destruct (Hnoop1 Hn).
  - assert (Hfinish : ∀ result d2,
              uploadedObjects d2
              = match result.2 with
                | None => if noop then [] else [CreateS3RollbackFunc S3Bucket keyName]
                | Some _ => []
                end →
              (result.2 = None → result.1 = keyName) →
              (noop = true → result = (keyName, None)
                             ∧ Forall (fun ev => isObjectStorageCall ev.1 = false) d2) →
              run = (let (_, s') := removeLocalFile localPath ((tr ++ d1) ++ d2) in
                     (result, s')) →
              ∃ delta : list event,
                run.2 = tr ++ delta
                ∧ (run.1.2 = None → run.1.1 = keyName)
                ∧ uploadedObjects delta
                  = match run.1.2 with
                    | None => if noop then [] else [CreateS3RollbackFunc S3Bucket keyName]
                    | Some _ => []
                    end
                ∧ (noop = true → run.1 = (keyName, None)
                   ∧ Forall (fun ev => isObjectStorageCall ev.1 = false) delta)).
    { intros result d2 Hup2 Hkey Hnoop2 ->.
      destruct (removeLocalFile_calls localPath ((tr ++ d1) ++ d2)) as (d3 & Htr3 & Hup3 & Hd3).
      destruct (removeLocalFile localPath ((tr ++ d1) ++ d2)) as [u tr3].
      cbn [fst snd] in *. subst tr3.
      exists (d1 ++ d2 ++ d3). rewrite <- !app_assoc.
      split; [done|]. split; [done|].
      rewrite !uploadedObjects_app, Hup1, Hup2, Hup3, app_nil_r. split; [done|].
      intros Hn. destruct (Hnoop2 Hn) as [-> Hd2]. destruct (Hnoop1 Hn) as [_ Hd1].
      split; [done|]. by rewrite !Forall_app. }
    destruct noop; run_monad_in Hrun.
    + eapply (Hfinish (keyName, None)); [| | |exact Hrun]; [done|done|].
      intros _. split; [done|by repeat constructor].
    + destruct (respond (tr ++ d1) (S3UploadLocalFile localPath S3Bucket S3KeyPrefix))
        as [p|e] eqn:Hresp.
      * eapply (Hfinish (keyName, None)); [| | |exact Hrun]; [done|done|done].
      * eapply (Hfinish ("", Some e)); [| | |exact Hrun]; [done|done|done].
Qed.

Lemma registerRollback_functions f c :
  rollbackFunctions (registerRollback f c) = rollbackFunctions c ++ [f].
Proof. unfold registerRollback. by destruct (rollbackFunctions c). Qed.

Lemma registerRollback_settings f c : sameSettings c (registerRollback f c).
Proof. by repeat split. Qed.

Lemma sameSettings_refl c : sameSettings c c.
Proof. by repeat split. Qed.

Lemma sameSettings_trans c1 c2 c3 :
  sameSettings c1 c2 → sameSettings c2 c3 → sameSettings c1 c3.
Proof.
  intros (?&?&?&?&?) (?&?&?&?&?). repeat split; congruence.
Qed.

Lemma uploadProgress_refl x : uploadProgress x x.
Proof.
  split; [apply sameSettings_refl|]. split; [done|].
  exists [], []. rewrite !app_nil_r. repeat split; done.
Qed.

Lemma uploadProgress_trans x y z :
  uploadProgress x y → uploadProgress y z → uploadProgress x z.
Proof.
  intros (Hs1 & Hh1 & d1 & e1 & Ht1 & He1 & Hr1 & Hn1)
         (Hs2 & Hh2 & d2 & e2 & Ht2 & He2 & Hr2 & Hn2).
  split; [by eapply sameSettings_trans|]. split; [congruence|].
  exists (d1 ++ d2), (e1 ++ e2).
  rewrite Ht2, Ht1, He2, He1, Hr2, Hr1, uploadedObjects_app, <- !app_assoc.
  repeat split; try done.
  intros Hn. apply Forall_app. split; [by apply Hn1|].
  apply Hn2. destruct Hs1 as (Hnoop & _). congruence.
Qed.

(** Progress from the facts about one task. *)
Lemma uploadProgress_task errs s errs' c' tr' newErrors delta :
  sameSettings (ctx s) c' →
  tr' = trace s ++ delta →
  errs' = errs ++ newErrors →
  rollbackFunctions c' = rollbackFunctions (ctx s) ++ uploadedObjects delta →
  (noop (ctx s) = true → Forall (fun ev => isObjectStorageCall ev.1 = false) delta) →
  uploadProgress (errs, s) (errs', mkState c' (heap s) tr').
Proof.
  intros Hs Ht He Hr Hn. split; [done|]. split; [done|].
  exists delta, newErrors. by repeat split.
Qed.

Lemma logFilesize_calls message filePath tr :
  ∃ delta,
    (logFilesize message filePath tr).2 = tr ++ delta
    ∧ uploadedObjects delta = []
    ∧ Forall (fun ev => isObjectStorageCall ev.1 = false) delta.
Proof.
  unfold logFilesize. run_monad.
  destruct (respond tr (OSStat filePath)) as [p|e].
  - eexists. rewrite <- app_assoc. split; [reflexivity|]. split; [reflexivity|].
    by repeat constructor.
  - eexists. split; [reflexivity|]. split; [reflexivity|]. by repeat constructor.
Qed.

(** The goroutine of the primary archive. *)
Lemma primaryUploadTask_progress packagePath errs s :
  uploadProgress (errs, s) (primaryUploadTask packagePath (errs, s)).2
  ∧ ((primaryUploadTask packagePath (errs, s)).2.1 = errs →
     s3LambdaZipKey (ctx (primaryUploadTask packagePath (errs, s)).2.2)
     = GoPath.Join [serviceName (ctx s); GoPath.Base packagePath]).
Proof.
  unfold primaryUploadTask, uploadLift, appendUploadError. run_monad.
  destruct (logFilesize_calls "Lambda function deployment package size" packagePath (trace s))
    as (d0 & Ht0 & Hu0 & Hf0).
  destruct (logFilesize "Lambda function deployment package size" packagePath (trace s))
    as [u tr0]. cbn [fst snd] in *. subst tr0. run_monad. cbn [ctx heap trace].
  destruct (uploadLocalFileToS3_run packagePath (s3Bucket (ctx s)) (serviceName (ctx s))
              (noop (ctx s)) (trace s ++ d0)) as (d1 & Ht1 & Hkey & Hu1 & Hn1).
  destruct (uploadLocalFileToS3 packagePath (s3Bucket (ctx s)) (serviceName (ctx s))
              (noop (ctx s)) (trace s ++ d0)) as [[keyName [e|]] tr1];
    cbn [fst snd ctx heap trace] in *; subst tr1; run_monad; cbn [fst snd ctx heap trace].
  - split.
    + apply uploadProgress_task with [e] (d0 ++ d1);
        [by repeat split|by rewrite app_assoc|done| |].
      * by rewrite uploadedObjects_app, Hu0, Hu1, app_nil_r.
      * intros Hn. apply Forall_app. split; [done|]. by apply Hn1.
    + intros Herrs. exfalso.
      apply (f_equal length) in Herrs. rewrite length_app in Herrs. cbn in Herrs. lia.
  - rewrite (Hkey eq_refl) in *.
    destruct (noop (ctx s)) eqn:Hnoop; cbn [negb fst snd ctx heap trace].
    + split; [|done].
      apply uploadProgress_task with [] (d0 ++ d1);
        [by repeat split|by rewrite app_assoc|by rewrite app_nil_r| |].
      * by rewrite uploadedObjects_app, Hu0, Hu1, app_nil_r.
      * intros _. apply Forall_app. split; [done|]. by apply Hn1.
    + split; [|done].
      apply uploadProgress_task with [] (d0 ++ d1);
        [by repeat split|by rewrite app_assoc|by rewrite app_nil_r| |congruence].
      rewrite registerRollback_functions, uploadedObjects_app, Hu0, Hu1. done.
Qed.

(** Closes the case of a task that ends without an upload. *)
Ltac upload_task_done :=
  eapply uploadProgress_task;
  [ apply sameSettings_refl
  | rewrite <- ?app_assoc; reflexivity
  | first [reflexivity | symmetry; apply app_nil_r]
  | symmetry; apply app_nil_r
  | intros _; by repeat constructor ].

(** The goroutine of the S3 site archive. *)
Lemma siteUploadTask_progress site errs s :
  uploadProgress (errs, s) (siteUploadTask site (errs, s)).2.
Proof.
  unfold siteUploadTask, uploadLift, appendUploadError. run_monad.
  case_respond; [|by upload_task_done].
  case_respond; [|by upload_task_done].
  case_respond; [|by upload_task_done].
  rewrite <- !app_assoc. cbn [app].
  match goal with
  | |- context [uploadLocalFileToS3 _ _ _ _ (trace s ++ ?d)] => set (d0 := d)
  end.
  assert (Hd0 : Forall (fun ev => isObjectStorageCall ev.1 = false) d0)
    by (by repeat constructor).
  assert (Hu0 : uploadedObjects d0 = []) by done.
  clearbody d0.
  destruct (uploadLocalFileToS3_run p (s3Bucket (ctx s)) (serviceName (ctx s))
              (noop (ctx s)) (trace s ++ d0)) as (d1 & Ht1 & Hkey & Hu1 & Hn1).
  destruct (uploadLocalFileToS3 p (s3Bucket (ctx s)) (serviceName (ctx s))
              (noop (ctx s)) (trace s ++ d0)) as [[keyName [e|]] tr6];
    cbn [fst snd ctx heap trace] in *; subst tr6; run_monad; cbn [fst snd ctx heap trace].
  - apply uploadProgress_task with [e] (d0 ++ d1);
      [by repeat split|by rewrite app_assoc|done| |].
    + by rewrite uploadedObjects_app, Hu0, Hu1, app_nil_r.
    + intros Hn. apply Forall_app. split; [done|]. by apply Hn1.
  - rewrite (Hkey eq_refl) in *.
    destruct (noop (ctx s)) eqn:Hnoop; cbn [negb fst snd ctx heap trace].
    + apply uploadProgress_task with [] (d0 ++ d1);
        [by repeat split|by rewrite app_assoc|by rewrite app_nil_r| |].
      * by rewrite uploadedObjects_app, Hu0, Hu1, app_nil_r.
      * intros _. apply Forall_app. split; [done|]. by apply Hn1.
    + apply uploadProgress_task with [] (d0 ++ d1);
        [by repeat split|by rewrite app_assoc|by rewrite app_nil_r| |congruence].
      rewrite registerRollback_functions, uploadedObjects_app, Hu0, Hu1. done.
Qed.

Lemma take_nth_elem {A} n (l : list A) x r :
  take_nth n l = Some (x, r) → l ≡ₚ x :: r.
Proof.
  induction l as [|y l IH] in n, x, r |- *; [by destruct n|].
  destruct n as [|n]; cbn [take_nth].
  - by intros [= -> ->].
  - destruct (take_nth n l) as [[z r']|] eqn:Hn; [|done].
    intros [= -> <-]. rewrite (IH _ _ _ Hn). apply Permutation_swap.
Qed.

(** Whatever the scheduler chooses, every task runs once. *)
Lemma pick_order_perm {A} choices (tasks : list A) :
  pick_order choices tasks ≡ₚ tasks.
Proof.
  induction choices as [|n choices IH] in tasks |- *; [done|].
  cbn [pick_order]. destruct (take_nth n tasks) as [[t rest]|] eqn:Hn; [|apply IH].
  rewrite (take_nth_elem _ _ _ _ Hn). by rewrite IH.
Qed.

Lemma run_all_progress (tasks : list (St uploadState unit)) x :
  Forall (fun t => ∀ y, uploadProgress y (t y).2) tasks →
  uploadProgress x (run_all tasks x).2.
Proof.
  intros Hall. induction Hall as [|t tasks Ht Hall IH] in x |- *; cbn [run_all].
  - apply uploadProgress_refl.
  - unfold bind. specialize (Ht x). destruct (t x) as [u y]. cbn [snd] in Ht.
    eapply uploadProgress_trans; [exact Ht|apply IH].
Qed.

(** The header of the error of the upload step is followed by the header
    again and by the first collected error; the other errors do not
    show. *)
Lemma uploadErrorLoop_first_only e rest :
  uploadErrorLoop (e :: rest) uploadErrorHeader
  = Some (uploadErrorHeader +:+ uploadErrorHeader +:+ e +:+ newline).
Proof. reflexivity. Qed.

(** The upload step as a whole. *)
Lemma createUploadStep_progress packagePath s :
  let r := runStep (createUploadStep packagePath) s in
  ∃ errs,
    uploadProgress ([], s) (errs, r.2)
    ∧ match errs with
      | [] => r.1 = (Some ensureCloudFormationStack, None)
      | e :: _ =>
          r.1 = (None, Some (uploadErrorHeader +:+ uploadErrorHeader +:+ e +:+ newline))
      end.
Proof.
  intros r. subst r. unfold runStep, createUploadStep.
  set (tasks := primaryUploadTask packagePath :: _).
  assert (Htasks : Forall (fun t => ∀ y : uploadState, uploadProgress y (t y).2) tasks).
  { unfold tasks. apply Forall_cons_2.
    - intros [errs y]. apply primaryUploadTask_progress.
    - destruct (s3Site (ctx s)) as [site|]; [|apply Forall_nil_2].
      apply Forall_cons_2; [|apply Forall_nil_2].
      intros [errs y]. apply siteUploadTask_progress. }
  assert (Hpicked : Forall (fun t => ∀ y : uploadState, uploadProgress y (t y).2)
                           (pick_order (schedule (trace s)) tasks)).
  { by rewrite pick_order_perm. }
  pose proof (run_all_progress _ ([], s) Hpicked) as Hrun.
  destruct (run_all (pick_order (schedule (trace s)) tasks) ([], s)) as [u [errs s']].
  cbn [fst snd] in *. exists errs.
  destruct errs as [|e rest]; cbn [length Nat.ltb Nat.leb uploadErrorLoop fst snd]; done.
Qed.

Lemma uploadAttempts_app tr1 tr2 :
  uploadAttempts (tr1 ++ tr2) = uploadAttempts tr1 ++ uploadAttempts tr2.
Proof. unfold uploadAttempts. apply omap_app. Qed.

(** The upload that [uploadLocalFileToS3] asks for when it returns no
    error. *)
Lemma uploadLocalFileToS3_attempt localPath S3Bucket S3KeyPrefix noop tr :
  let run := uploadLocalFileToS3 localPath S3Bucket S3KeyPrefix noop tr in
  ∃ delta,
    run.2 = tr ++ delta
    ∧ (run.1.2 = None →
       if noop then uploadAttempts delta = []
       else uploadAttempts delta = [(localPath, S3Bucket, S3KeyPrefix)]
            ∧ ∃ p, (S3UploadLocalFile localPath S3Bucket S3KeyPrefix, ROk p) ∈ delta).
Proof.
  intros run. subst run.
  unfold uploadLocalFileToS3, ensureExpirationPolicy, removeLocalFile.
  destruct noop; run_monad; cbn [fst snd].
  - destruct (respond _ (OSRemove localPath)); run_monad; cbn [fst snd];
      (eexists; split; [rewrite <- ?app_assoc; reflexivity|]; intros _; reflexivity).
  - destruct (respond tr (S3GetBucketLifecycleConfiguration S3Bucket)) as [p0|e0];
      run_monad; cbn [fst snd].
    2: destruct (negb (GoStrings.Contains e0 "NoSuchLifecycleConfiguration"));
         run_monad; cbn [fst snd].
    2: { eexists. split; [reflexivity|]. intros Hn. discriminate Hn. }
    all: destruct (respond _ (S3UploadLocalFile localPath S3Bucket S3KeyPrefix)) as [p|e]
           eqn:Hup; run_monad; cbn [fst snd].
    all: destruct (respond _ (OSRemove localPath)); run_monad; cbn [fst snd].
    all: eexists; split; [rewrite <- ?app_assoc; reflexivity|].
    all: intros Hn; try discriminate Hn.
    all: split; [reflexivity|]; exists p.
    all: rewrite ?elem_of_app, ?elem_of_cons; tauto.
Qed.

Lemma uploadAttempts_none d :
  uploadAttempts d = [] → uploadedObjects d = [] ∧ ∀ lp b k r, (S3UploadLocalFile lp b k, r) ∉ d.
Proof.
  induction d as [|[c r] d IH]; intros Ha.
  - split; [done|]. intros lp b k r0 Hin. by apply elem_of_nil in Hin.
  - destruct c; try discriminate Ha;
      (destruct (IH Ha) as [Hobj Hnot]; split; [exact Hobj|];
       intros lp b k r0 Hin; apply elem_of_cons in Hin as [Hin|Hin];
       [discriminate Hin|by eapply Hnot]).
Qed.

(** A history with one upload, which was accepted, records one uploaded
    object. *)
Lemma uploadedObjects_single d localPath bucket keyPrefix p :
  uploadAttempts d = [(localPath, bucket, keyPrefix)] →
  (S3UploadLocalFile localPath bucket keyPrefix, ROk p) ∈ d →
  uploadedObjects d
  = [CreateS3RollbackFunc bucket (GoPath.Join [keyPrefix; GoPath.Base localPath])].
Proof.
  induction d as [|[c r] d IH]; intros Ha Hp; [by apply elem_of_nil in Hp|].
  destruct c;
    try (apply elem_of_cons in Hp as [Hp|Hp]; [discriminate Hp|]; by apply IH).
  injection Ha as -> -> -> Ha.
  destruct (uploadAttempts_none d Ha) as [Hobj Hnot].
  apply elem_of_cons in Hp as [Hp|Hp]; [|by apply Hnot in Hp].
  injection Hp as <-.
  change (CreateS3RollbackFunc bucket (GoPath.Join [keyPrefix; GoPath.Base localPath])
          :: uploadedObjects d = [CreateS3RollbackFunc bucket
                                    (GoPath.Join [keyPrefix; GoPath.Base localPath])]).
  by rewrite Hobj.
Qed.

(** The upload that the goroutine of the primary archive asks for. *)
Lemma primaryUploadTask_attempt packagePath errs s :
  let x' := (primaryUploadTask packagePath (errs, s)).2 in
  x'.1 = errs → noop (ctx s) = false →
  ∃ delta p,
    trace x'.2 = trace s ++ delta
    ∧ uploadAttempts delta = [(packagePath, s3Bucket (ctx s), serviceName (ctx s))]
    ∧ (S3UploadLocalFile packagePath (s3Bucket (ctx s)) (serviceName (ctx s)), ROk p) ∈ delta.
Proof.
  intros x'. subst x'.
  unfold primaryUploadTask, uploadLift, appendUploadError. run_monad.
  assert (Hlog : ∃ d0, (logFilesize "Lambda function deployment package size" packagePath
                          (trace s)).2 = trace s ++ d0
                       ∧ uploadAttempts d0 = []).
  { unfold logFilesize. run_monad. destruct (respond _ (OSStat packagePath)).
    - eexists. rewrite <- app_assoc. by split.
    - eexists. by split. }
  destruct Hlog as (d0 & Ht0 & Hu0).
  destruct (logFilesize "Lambda function deployment package size" packagePath (trace s))
    as [u tr0]. cbn [fst snd] in *. subst tr0. run_monad. cbn [ctx heap trace].
  destruct (uploadLocalFileToS3_attempt packagePath (s3Bucket (ctx s)) (serviceName (ctx s))
              (noop (ctx s)) (trace s ++ d0)) as (d1 & Ht1 & Hup).
  cbv zeta in Ht1, Hup.
  destruct (uploadLocalFileToS3 packagePath (s3Bucket (ctx s)) (serviceName (ctx s))
              (noop (ctx s)) (trace s ++ d0)) as [[keyName [e|]] tr1];
    cbn [fst snd ctx heap trace] in *; subst tr1; run_monad; cbn [fst snd ctx heap trace].
  - intros Herrs. exfalso.
    apply (f_equal length) in Herrs. rewrite length_app in Herrs. cbn in Herrs. lia.
  - intros _ Hnoop. rewrite Hnoop in *. cbn [negb fst snd ctx heap trace].
    destruct (Hup eq_refl) as (Hatt & p & Hin).
    exists (d0 ++ d1), p. split; [by rewrite app_assoc|]. split.
    + by rewrite uploadAttempts_app, Hu0, Hatt.
    + apply elem_of_app. by right.
Qed.

(** C7, as amended.  In a dry run [uploadLocalFileToS3] makes no call to
    object storage and returns the key
    [path.Join(S3KeyPrefix, filepath.Base(localPath))]; in every mode a call
    that succeeds returns that key, and outside a dry run it has asked
    object storage once, to upload the local file under the prefix, and
    was answered that the upload is done.  The upload step passes the
    service name as prefix: when the goroutine of the primary archive
    records no error, the key it records is the join of the service name
    and the base name of the archive, and outside a dry run the archive
    was uploaded once, into the bucket with the service name as prefix,
    and the action that removes the object under that key is registered.
    [path.Join] cleans its result, so the key is the service name, a slash
    and the base name when both are plain names. *)
Theorem uploadLocalFileToS3_key
    (localPath S3Bucket S3KeyPrefix : string) (dryRun : bool) (tr : list event) :
  let keyName := GoPath.Join [S3KeyPrefix; GoPath.Base localPath] in
  let run := uploadLocalFileToS3 localPath S3Bucket S3KeyPrefix dryRun tr in
  (∃ delta,
     run.2 = tr ++ delta
     ∧ (dryRun = true →
        run.1 = (keyName, None)
        ∧ Forall (fun ev => isObjectStorageCall ev.1 = false) delta)
     ∧ (run.1.2 = None → run.1.1 = keyName)
     ∧ (dryRun = false → run.1.2 = None →
        uploadAttempts delta = [(localPath, S3Bucket, S3KeyPrefix)]
        ∧ (∃ p, (S3UploadLocalFile localPath S3Bucket S3KeyPrefix, ROk p) ∈ delta)
        ∧ uploadedObjects delta = [CreateS3RollbackFunc S3Bucket keyName]))
  ∧ (∀ packagePath errs s,
       let x' := (primaryUploadTask packagePath (errs, s)).2 in
       let key := GoPath.Join [serviceName (ctx s); GoPath.Base packagePath] in
       x'.1 = errs →
       s3LambdaZipKey (ctx x'.2) = key
       ∧ (noop (ctx s) = false →
          ∃ delta p,
            trace x'.2 = trace s ++ delta
            ∧ uploadAttempts delta
              = [(packagePath, s3Bucket (ctx s), serviceName (ctx s))]
            ∧ (S3UploadLocalFile packagePath (s3Bucket (ctx s)) (serviceName (ctx s)),
               ROk p) ∈ delta
            ∧ rollbackFunctions (ctx x'.2)
              = rollbackFunctions (ctx s) ++ [CreateS3RollbackFunc (s3Bucket (ctx s)) key]))
  ∧ (∀ service base,
       GoPath.plainName service = true → GoPath.plainName base = true →
       GoPath.Join [service; base] = service +:+ "/" +:+ base).
Proof.
  intros keyName run.
  destruct (uploadLocalFileToS3_run localPath S3Bucket S3KeyPrefix dryRun tr)
    as (delta & Htr & Hkey & Hobj & Hnoop).
  destruct (uploadLocalFileToS3_attempt localPath S3Bucket S3KeyPrefix dryRun tr)
    as (delta' & Htr' & Hatt).
  cbv zeta in Htr, Hkey, Hobj, Hnoop, Htr', Hatt. fold run in Htr, Hkey, Hobj, Hnoop, Htr', Hatt.
  fold keyName in Hkey, Hobj, Hnoop.
  assert (delta' = delta) as -> by (apply (app_inv_head tr); congruence).
  split; [|split].
  - exists delta. split; [done|]. split; [exact Hnoop|]. split; [exact Hkey|].
    intros Hn Hok. rewrite Hok, Hn in *. destruct (Hatt eq_refl) as [Ha Hp]. done.
  - intros packagePath errs s x' key Herrs.
    destruct (primaryUploadTask_progress packagePath errs s) as [Hprog Hk].
    fold x' in Hprog, Hk.
    split; [by apply Hk|]. intros Hn.
    destruct (primaryUploadTask_attempt packagePath errs s Herrs Hn) as (d & p & Ht & Ha & Hp).
    fold x' in Ht.
    exists d, p. split; [done|]. split; [done|]. split; [done|].
    destruct Hprog as (_ & _ & d2 & ne & Ht2 & _ & Hrb & _). cbn [fst snd] in *.
    assert (d2 = d) as -> by (apply (app_inv_head (trace s)); congruence).
    rewrite Hrb. f_equal. by apply uploadedObjects_single with p.
  - apply Join_plain.
Qed.

End Uploads.

(** The statement at the archive /tmp/work/Svc123 of the service Svc: the
    dry run returns the key Svc/Svc123 without a call to object storage; the
    upload returns it after one accepted upload under the prefix Svc. *)
Lemma uploadLocalFileToS3_key_witness :
  let dry := @uploadLocalFileToS3 quietWorld "/tmp/work/Svc123" "b" "Svc" true [] in
  let wet := @uploadLocalFileToS3 quietWorld "/tmp/work/Svc123" "b" "Svc" false [] in
  let task := (@primaryUploadTask quietWorld "/tmp/work/Svc123" ([], siteState)).2 in
  (dry.1 = ("Svc/Svc123", None)
   ∧ Forall (fun ev => isObjectStorageCall ev.1 = false) dry.2)
  ∧ (wet.1 = ("Svc/Svc123", None)
     ∧ uploadAttempts wet.2 = [("/tmp/work/Svc123", "b", "Svc")]
     ∧ uploadedObjects wet.2 = [CreateS3RollbackFunc "b" "Svc/Svc123"])
  ∧ (s3LambdaZipKey (ctx task.2) = "Svc/Svc123"
     ∧ ∃ delta p,
         trace task.2 = [] ++ delta
         ∧ uploadAttempts delta = [("/tmp/work/Svc123", "b", "Svc")]
         ∧ (S3UploadLocalFile "/tmp/work/Svc123" "b" "Svc", ROk p) ∈ delta
         ∧ rollbackFunctions (ctx task.2) = [] ++ [CreateS3RollbackFunc "b" "Svc/Svc123"])
  ∧ GoPath.Join ["Svc"; "Svc123"] = "Svc" +:+ "/" +:+ "Svc123".
Proof.
  intros dry wet task.
  pose proof (@uploadLocalFileToS3_key quietWorld "/tmp/work/Svc123" "b" "Svc" true [])
    as ((d1 & Ht1 & Hdry & _) & _).
  pose proof (@uploadLocalFileToS3_key quietWorld "/tmp/work/Svc123" "b" "Svc" false [])
    as ((d2 & Ht2 & _ & Hkey & Hwet) & Htask & Hplain).
  cbv zeta in Ht1, Hdry, Ht2, Hkey, Hwet. fold dry in Ht1, Hdry. fold wet in Ht2, Hkey, Hwet.
  cbn [app] in Ht1, Ht2. subst d1 d2.
  split; [exact (Hdry eq_refl)|].
  assert (Hok : wet.1.2 = None) by (vm_compute; reflexivity).
  split.
  { destruct (Hwet eq_refl Hok) as (Ha & _ & Ho).
    split; [|by split].
    specialize (Hkey Hok). destruct wet.1 as [k e]. cbn [fst snd] in *. by subst. }
  split; [|exact (Hplain "Svc" "Svc123" eq_refl eq_refl)].
  destruct (Htask "/tmp/work/Svc123" [] siteState) as [Hk Hup]; [vm_compute; reflexivity|].
  split; [exact Hk|]. exact (Hup eq_refl).
Defined.

(** For the service name [Svc/] the key is not the service name, a slash
    and the base name of the archive: [path.Join] drops the doubled
    slash. *)
Lemma uploadLocalFileToS3_key_cleans_prefix :
  let run := @uploadLocalFileToS3 quietWorld "/tmp/work/Svc123" "b" "Svc/" false [] in
  run.1 = ("Svc/Svc123", None)
  ∧ uploadAttempts run.2 = [("/tmp/work/Svc123", "b", "Svc/")]
  ∧ GoPath.Base "/tmp/work/Svc123" = "Svc123"
  ∧ run.1.1 ≠ "Svc/" +:+ "/" +:+ "Svc123".
Proof.
  intros run. split; [vm_compute; reflexivity|]. split; [vm_compute; reflexivity|].
  split; [vm_compute; reflexivity|]. vm_compute. discriminate.
Qed.

(** C1 on the code.  Both uploads of a service with an S3 site are
    refused.  The step collects both errors, and the error it returns names
    the refusal of the primary archive only: the loop over the collected
    errors returns from its first iteration. *)
Theorem createUploadStep_reports_first_error_only :
  let r := runStep (@createUploadStep refusedUploadsWorld "/tmp/Svc123") siteState in
  (S3UploadLocalFile "/tmp/Svc123" "b" "Svc", RErr "primary upload refused") ∈ trace r.2
  ∧ (S3UploadLocalFile "/tmp/Svc-S3Site" "b" "Svc", RErr "site upload refused") ∈ trace r.2
  ∧ r.1 = (None, Some (uploadErrorHeader +:+ uploadErrorHeader
                       +:+ "primary upload refused" +:+ newline))
  ∧ (∀ e, r.1.2 = Some e → GoStrings.Contains e "site upload refused" = false)
  ∧ uploadErrorLoop ["primary upload refused"; "site upload refused"] uploadErrorHeader
    = uploadErrorLoop ["primary upload refused"] uploadErrorHeader.
Proof.
  intros r.
  assert (Hr : r.1 = (None, Some (uploadErrorHeader +:+ uploadErrorHeader
                                  +:+ "primary upload refused" +:+ newline)))
    by (vm_compute; reflexivity).
  split; [vm_compute; set_solver|]. split; [vm_compute; set_solver|].
  split; [exact Hr|]. split; [|reflexivity].
  intros e He. rewrite Hr in He. injection He as <-. vm_compute. reflexivity.
Qed.

(** ** The workflow driver *)

Section Workflow.
Context `{Externals}.

(** Induction along a chain of steps: a property holds of a step when it
    holds of every step that the step can return. *)
Lemma workflowStep_chain_ind (P : workflowStep → Prop) :
  (∀ run, (∀ s next e s1, run s = ((Some next, e), s1) → P next) → P (Step run)) →
  ∀ step, P step.
Proof.
  intros IH. fix rec 1. intros [run]. apply IH. intros s next e s1 Heq.
  refine (match run s as r return r = ((Some next, e), s1) → P next with
          | ((Some n, _), _) => fun Hr => _
          | ((None, _), _) => fun Hr => _
          end Heq).
  - assert (Hn : n = next) by congruence. rewrite <- Hn. exact (rec n).
  - discriminate Hr.
Qed.

Lemma deletions_app tr1 tr2 : deletions (tr1 ++ tr2) = deletions tr1 ++ deletions tr2.
Proof. apply omap_app. Qed.

Lemma rollbackHookRuns_app tr1 tr2 :
  rollbackHookRuns (tr1 ++ tr2) = rollbackHookRuns tr1 ++ rollbackHookRuns tr2.
Proof. apply omap_app. Qed.

Lemma warnings_app tr1 tr2 : warnings (tr1 ++ tr2) = warnings tr1 ++ warnings tr2.
Proof. apply omap_app. Qed.

Lemma failedDeletions_app tr1 tr2 :
  failedDeletions (tr1 ++ tr2) = failedDeletions tr1 ++ failedDeletions tr2.
Proof. apply omap_app. Qed.

(** One goroutine of [rollback]. *)
Lemma runRollbackTask_calls t tr :
  ∃ acts,
    (runRollbackTask t tr).2 = tr ++ acts
    ∧ deletions acts = option_list (cleanupOf t)
    ∧ rollbackHookRuns acts = option_list (hookOfTask t)
    ∧ warnings acts = failedDeletions acts
    ∧ Forall (fun ev => isRollbackCall ev.1 = true) acts.
Proof.
  destruct t as [hook|[bucket key]]; unfold runRollbackTask, invokeRollbackFunction; run_monad.
  - eexists. split; [reflexivity|]. repeat split; try done. by repeat constructor.
  - destruct (respond tr (S3DeleteObject bucket key)) as [p|e].
    + eexists. split; [reflexivity|]. repeat split; try done. by repeat constructor.
    + eexists. rewrite <- app_assoc. split; [reflexivity|]. repeat split; try done.
      by repeat constructor.
Qed.

(** The goroutines of [rollback], in the order in which they ran. *)
Lemma run_all_rollbackTasks ts tr :
  ∃ acts,
    (run_all (map runRollbackTask ts) tr).2 = tr ++ acts
    ∧ deletions acts = omap cleanupOf ts
    ∧ rollbackHookRuns acts = omap hookOfTask ts
    ∧ warnings acts = failedDeletions acts
    ∧ Forall (fun ev => isRollbackCall ev.1 = true) acts.
Proof.
  induction ts as [|t ts IH] in tr |- *; cbn [map run_all].
  - exists []. unfold ret. cbn [snd]. rewrite app_nil_r. repeat split; done.
  - unfold bind.
    destruct (runRollbackTask_calls t tr) as (a1 & Ht & Hd1 & Hh1 & Hw1 & Hf1).
    destruct (runRollbackTask t tr) as [u tr1]. cbn [snd] in Ht. subst tr1.
    destruct (IH (tr ++ a1)) as (a2 & Ht2 & Hd2 & Hh2 & Hw2 & Hf2).
    exists (a1 ++ a2). rewrite Ht2, <- app_assoc.
    rewrite deletions_app, rollbackHookRuns_app, warnings_app, failedDeletions_app.
    rewrite Hd1, Hd2, Hh1, Hh2, Hw1, Hw2. cbn [omap].
    split; [done|]. split; [by destruct t|]. split; [by destruct t|].
    split; [done|]. by apply Forall_app.
Qed.

Lemma omap_cleanupOf_rollbackTasks c :
  omap cleanupOf (rollbackTasks c) = rollbackFunctions c.
Proof.
  unfold rollbackTasks. rewrite omap_app.
  assert (Hfs : omap cleanupOf (map CleanupTask (rollbackFunctions c)) = rollbackFunctions c).
  { induction (rollbackFunctions c) as [|f fs IH]; [done|]. cbn. by rewrite IH. }
  rewrite Hfs. destruct (workflowHooks c) as [hooks|]; [|done].
  by destruct (hook_Rollback hooks).
Qed.

Lemma omap_hookOfTask_rollbackTasks c :
  omap hookOfTask (rollbackTasks c)
  = option_list (hookOf (workflowHooks c) hook_Rollback).
Proof.
  unfold rollbackTasks. rewrite omap_app.
  assert (Hfs : omap hookOfTask (map CleanupTask (rollbackFunctions c)) = []).
  { induction (rollbackFunctions c) as [|f fs IH]; [done|]. cbn. by rewrite IH. }
  rewrite Hfs, app_nil_r. destruct (workflowHooks c) as [hooks|]; [|done].
  cbn [hookOf]. by destruct (hook_Rollback hooks).
Qed.

(** [rollback] logs that it starts, invokes every registered function
    once, runs the rollback hook if there is one, logs one warning per
    failed function, and changes neither the context nor anything else. *)
Lemma rollback_calls s :
  ctx (rollback s).2 = ctx s
  ∧ heap (rollback s).2 = heap s
  ∧ ∃ acts,
      trace (rollback s).2
      = trace s ++ [(Log Info "Invoking rollback functions", ROk "")] ++ acts
      ∧ deletions acts ≡ₚ rollbackFunctions (ctx s)
      ∧ rollbackHookRuns acts ≡ₚ option_list (hookOf (workflowHooks (ctx s)) hook_Rollback)
      ∧ warnings acts = failedDeletions acts
      ∧ Forall (fun ev => isRollbackCall ev.1 = true) acts.
Proof.
  unfold rollback. run_monad. cbn [ctx heap trace].
  set (tr1 := trace s ++ [(Log Info "Invoking rollback functions", ROk "")]).
  set (ts := pick_order (schedule tr1) (rollbackTasks (ctx s))).
  destruct (run_all_rollbackTasks ts tr1) as (acts & Ht & Hd & Hh & Hw & Hf).
  destruct (run_all (map runRollbackTask ts) tr1) as [u tr2].
  cbn [snd ctx heap trace] in *. subst tr2.
  split; [done|]. split; [done|].
  exists acts. unfold tr1. rewrite <- app_assoc. split; [done|].
  assert (Hperm : ts ≡ₚ rollbackTasks (ctx s)) by apply pick_order_perm.
  split; [by rewrite Hd, Hperm, omap_cleanupOf_rollbackTasks|].
  split; [|done].
  by rewrite Hh, Hperm, omap_hookOfTask_rollbackTasks.
Qed.

(** A step that returns an error is the last step. *)
Lemma runWorkflow_failed step s next e s1 :
  runStep step s = ((next, Some e), s1) →
  (runWorkflow step s).1 = Some e ∧ rolledBack s1 (runWorkflow step s).2 e.
Proof.
  destruct step as [run]. cbn [runStep runWorkflow]. intros ->.
  destruct (rollback_calls s1) as (Hc & Hh & acts & Ht & Hd & Hk & Hw & Hf).
  destruct (rollback s1) as [u s2]. cbn [fst snd] in *.
  unfold liftW, log. cbn [fst snd ctx heap trace].
  assert (Hrolled : rolledBack s1 (mkState (ctx s2) (heap s2)
                                     (trace s2 ++ [(Log Error e, ROk "")])) e).
  { split; [done|]. split; [done|].
    exists acts. cbn [trace]. rewrite Ht, <- !app_assoc. by repeat split. }
  by destruct next.
Qed.

(** The driver, along the chain of steps that it runs. *)
Lemma runWorkflow_chain step s :
  ∃ res s1, chainRuns step s res s1 ∧ workflowOutcome res s1 (runWorkflow step s).
Proof.
  induction step as [run IH] using workflowStep_chain_ind in s |- *.
  destruct (run s) as [[next err] s1] eqn:Hrun.
  destruct err as [e|].
  - exists (next, Some e), s1. split; [apply chain_last; [done|left; eauto]|].
    unfold workflowOutcome. cbn [snd].
    by apply (runWorkflow_failed (Step run) s next e s1).
  - destruct next as [next|].
    + destruct (IH s next None s1 Hrun s1) as (res & s2 & Hchain & Hout).
      exists res, s2. split; [by eapply chain_next|].
      cbn [runWorkflow]. by rewrite Hrun.
    + exists (None, None), s1. split; [apply chain_last; [done|by right]|].
      unfold workflowOutcome. cbn [snd runWorkflow]. by rewrite Hrun.
Qed.

(** [Provision] returns what the driver returns once the workflow
    started. *)
Lemma Provision_started a h tr s0 :
  workflowStart a h tr = Some s0 →
  returned (Provision a h tr) = Ret (runWorkflow verifyIAMRoles s0).1
  ∧ final_ctx (Provision a h tr) = Some (ctx (runWorkflow verifyIAMRoles s0).2)
  ∧ final_trace (Provision a h tr) = trace (runWorkflow verifyIAMRoles s0).2.
Proof.
  unfold workflowStart, Provision.
  destruct (validateSpartaPreconditions (arg_lambdaAWSInfos a) tr) as [[v infos] tr1].
  destruct v as [[e|]|m]; try done.
  unfold log.
  destruct (length (arg_lambdaAWSInfos a) <=? 0)%nat; [done|].
  intros [= <-].
  by destruct (runWorkflow verifyIAMRoles _) as [r s].
Qed.

(** C2. For every chain of steps and every state it starts in, the
    driver runs the steps one after the other, a returned step becoming the
    current step, up to a last step.  If the last step returned an error,
    the driver rolls back once (one start of rollback in the history, every
    registered function invoked once, every failure of a function logged as
    a warning and nothing more) and returns the error of that step.  If the
    last step returned no next step and no error, the driver returns no
    error and rolls nothing back.  [Provision] returns what the driver
    returns. *)
Theorem workflow_error_triggers_one_rollback :
  (∀ step s, ∃ res s1, chainRuns step s res s1
                        ∧ workflowOutcome res s1 (runWorkflow step s))
  ∧ (∀ a h tr s0,
       workflowStart a h tr = Some s0 →
       returned (Provision a h tr) = Ret (runWorkflow verifyIAMRoles s0).1
       ∧ final_trace (Provision a h tr) = trace (runWorkflow verifyIAMRoles s0).2).
Proof.
  split; [apply runWorkflow_chain|].
  intros a h tr s0 Hstart.
  destruct (Provision_started a h tr s0 Hstart) as (Hr & _ & Ht). by split.
Qed.

Lemma uploadedObjects_no_storage delta :
  Forall (fun ev => isObjectStorageCall ev.1 = false) delta → uploadedObjects delta = [].
Proof.
  induction 1 as [|[c r] delta Hc Hall IH]; [done|].
  change ((c, r) :: delta) with ([(c, r)] ++ delta).
  rewrite uploadedObjects_app, IH, app_nil_r. by destruct c.
Qed.

(** C5. The upload step registers one rollback action per upload that
    object storage accepted, in the order of the uploads, and nothing else;
    in a dry run it registers nothing.  When the step fails, whichever
    upload failed, the action of every upload that succeeded is registered
    and the rollback that the driver then runs invokes it.  A workflow that
    returns no error invokes no registered action: after its last step the
    driver only logs the elapsed time. *)
Theorem upload_rollback_registration :
  (∀ packagePath s,
     let r := runStep (createUploadStep packagePath) s in
     ∃ delta,
       trace r.2 = trace s ++ delta
       ∧ rollbackFunctions (ctx r.2) = rollbackFunctions (ctx s) ++ uploadedObjects delta
       ∧ (noop (ctx s) = true → rollbackFunctions (ctx r.2) = rollbackFunctions (ctx s))
       ∧ (is_Some r.1.2 →
          ∃ acts,
            trace (runWorkflow (createUploadStep packagePath) s).2 = trace r.2 ++ acts
            ∧ ∀ f, f ∈ uploadedObjects delta →
                   f ∈ rollbackFunctions (ctx r.2) ∧ f ∈ deletions acts))
  ∧ (∀ step s,
       (runWorkflow step s).1 = None →
       ∃ res s1,
         chainRuns step s res s1
         ∧ runWorkflow step s
           = (None, mkState (ctx s1) (heap s1)
                            (trace s1 ++ [(Log Info "Elapsed time", ROk "")]))).
Proof.
  split.
  - intros packagePath s r.
    destruct (createUploadStep_progress packagePath s)
      as (errs & (Hset & Hheap & delta & newErrors & Ht & He & Hr & Hn) & Hres).
    fold r in Ht, Hr, Hres. cbn [fst snd] in *.
    exists delta. split; [done|]. split; [done|]. split.
    + intros Hnoop. rewrite Hr, (uploadedObjects_no_storage delta (Hn Hnoop)).
      by rewrite app_nil_r.
    + intros [e Hfail].
      destruct r as [[next err] s1] eqn:Hrun. cbn [fst snd] in *. subst err.
      destruct (runWorkflow_failed (createUploadStep packagePath) s next e s1 Hrun)
        as (_ & _ & _ & acts & Hta & Hd & _).
      exists ([(Log Info "Invoking rollback functions", ROk "")] ++ acts
              ++ [(Log Error e, ROk "")]).
      split; [done|]. intros f Hf.
      assert (Hreg : f ∈ rollbackFunctions (ctx s1)).
      { rewrite Hr. apply elem_of_app. by right. }
      split; [done|].
      rewrite !deletions_app. apply elem_of_app. right. apply elem_of_app. left.
      by rewrite Hd.
  - intros step s Hok.
    destruct (runWorkflow_chain step s) as (res & s1 & Hchain & Hout).
    exists res, s1. split; [done|].
    unfold workflowOutcome in Hout. destruct res.2 as [err|]; [|done].
    destruct Hout as [Herr _]. congruence.
Qed.

End Workflow.

(** The statement at a service whose stack the deployment service
    rejects: the workflow starts, its last step fails, the driver rolls back
    once and [Provision] returns the error of that step. *)
Lemma workflow_error_triggers_one_rollback_witness :
  let a := provisionOf [simpleLambda "alpha" "ops"] false None in
  ∃ s0 res s1,
    @workflowStart rejectedStackWorld a ∅ [] = Some s0
    ∧ chainRuns (@verifyIAMRoles rejectedStackWorld) s0 res s1
    ∧ workflowOutcome res s1
        (@runWorkflow rejectedStackWorld (@verifyIAMRoles rejectedStackWorld) s0)
    ∧ returned (@Provision rejectedStackWorld a ∅ [])
      = Ret (@runWorkflow rejectedStackWorld (@verifyIAMRoles rejectedStackWorld) s0).1
    ∧ returned (@Provision rejectedStackWorld a ∅ []) = Ret (Some "stack rejected").
Proof.
  intros a.
  pose proof (@workflow_error_triggers_one_rollback rejectedStackWorld) as [Hchain Hprov].
  destruct (@workflowStart rejectedStackWorld a ∅ []) as [s0|] eqn:Hstart;
    [|vm_compute in Hstart; discriminate].
  destruct (Hchain (@verifyIAMRoles rejectedStackWorld) s0) as (res & s1 & Hruns & Hout).
  destruct (Hprov a ∅ [] s0 Hstart) as [Hret _].
  exists s0, res, s1. split; [reflexivity|]. split; [exact Hruns|].
  split; [exact Hout|]. split; [exact Hret|]. vm_compute. reflexivity.
Defined.

(** The statement at a service with an S3 site whose site archive is
    refused while the primary archive is taken: the step fails, the action
    that deletes the primary archive is registered and the rollback invokes
    it; in a dry run nothing is registered; and the same step, when both
    uploads succeed, is followed by no rollback. *)
Lemma upload_rollback_registration_witness :
  let step := @createUploadStep refusedSiteWorld "/tmp/Svc123" in
  let r := runStep step siteState in
  let f := CreateS3RollbackFunc "b" "Svc/Svc123" in
  (is_Some r.1.2
   ∧ ∃ delta acts,
       trace r.2 = trace siteState ++ delta
       ∧ trace (@runWorkflow refusedSiteWorld step siteState).2 = trace r.2 ++ acts
       ∧ f ∈ uploadedObjects delta
       ∧ f ∈ rollbackFunctions (ctx r.2)
       ∧ f ∈ deletions acts)
  ∧ rollbackFunctions
      (ctx (runStep (@createUploadStep quietWorld "/tmp/Svc123")
                    (stateOf [simpleLambda "alpha" "ops"] true None)).2) = []
  ∧ ∃ res s1,
      chainRuns (@createUploadStep quietWorld "/tmp/Svc123") siteState res s1
      ∧ @runWorkflow quietWorld (@createUploadStep quietWorld "/tmp/Svc123") siteState
        = (None, mkState (ctx s1) (heap s1)
                         (trace s1 ++ [(Log Info "Elapsed time", ROk "")])).
Proof.
  intros step r f.
  pose proof (@upload_rollback_registration refusedSiteWorld) as [Hup _].
  pose proof (@upload_rollback_registration quietWorld) as [Hdry Hok].
  split; [|split].
  - destruct (Hup "/tmp/Svc123" siteState) as (delta & Ht & Hr & _ & Hfail).
    fold step in Ht, Hr, Hfail. fold r in Ht, Hr, Hfail.
    assert (Hsome : is_Some r.1.2) by (vm_compute; eauto).
    destruct (Hfail Hsome) as (acts & Hta & Hall).
    assert (Hf : f ∈ uploadedObjects delta).
    { assert (X : rollbackFunctions (ctx r.2) = [f]) by (vm_compute; reflexivity).
      rewrite X in Hr. cbn [rollbackFunctions ctx siteState stateOf newWorkflowContext app] in Hr.
      rewrite <- Hr. apply list_elem_of_here. }
    split; [exact Hsome|]. exists delta, acts.
    split; [exact Ht|]. split; [exact Hta|]. split; [exact Hf|]. exact (Hall f Hf).
  - destruct (Hdry "/tmp/Svc123" (stateOf [simpleLambda "alpha" "ops"] true None))
      as (delta & _ & _ & Hnoop & _).
    exact (Hnoop eq_refl).
  - apply Hok. vm_compute. reflexivity.
Defined.

(** ** Preconditions *)

Section Preconditions.
Context `{Externals}.

Lemma lambdaFunctionName_customResources l :
  customResources (lambdaFunctionName l).2 = customResources l.
Proof.
  destruct l as [hs fn user fnName role rd opts crs cached].
  unfold lambdaFunctionName, spartaOptionsName; cbn [cachedLambdaFunctionName
    userSuppliedFunctionName lambdaFn Options].
  destruct (String.eqb cached ""); cbn [negb]; [|done].
  match goal with
  | |- context [match ?c with Ret n => _ | Panic m => _ end] => by destruct c
  end.
Qed.

Lemma countOf_incrementCounter k memo n :
  countOf (incrementCounter k memo) n = countOf memo n + (if decide (k = n) then 1 else 0).
Proof.
  unfold countOf, incrementCounter.
  destruct (memo !! k) as [c|] eqn:Hk; case_decide as Hkn; subst.
  - rewrite lookup_insert_eq, Hk. done.
  - rewrite lookup_insert_ne by done. lia.
  - rewrite lookup_insert_eq, Hk. done.
  - rewrite lookup_insert_ne by done. lia.
Qed.

Lemma countOf_foldl names memo n :
  countOf (foldl (fun m k => incrementCounter k m) memo names) n
  = countOf memo n + length (filter (eq n) names).
Proof.
  induction names as [|k names IH] in memo |- *; cbn [foldl].
  - rewrite filter_nil. cbn. lia.
  - rewrite IH, countOf_incrementCounter.
    case_decide as Hk.
    + subst. rewrite filter_cons_True by done. cbn [length]. lia.
    + rewrite filter_cons_False by congruence. lia.
Qed.

Lemma countCustomResources_names (crs : list customResourceInfo) (memo : gmap string nat) :
  foldl (fun m eachCustom => incrementCounter (userFunctionName eachCustom) m) memo crs
  = foldl (fun m k => incrementCounter k m) memo (map userFunctionName crs).
Proof.
  induction crs as [|cr crs IH] in memo |- *; [done|]. cbn [foldl map]. apply IH.
Qed.

(** When every name derivation returns, the second loop counts the
    defined names. *)
Lemma countDefinitions_derivable infos memo :
  Forall derivable infos →
  ∃ infos',
    countDefinitions infos memo
    = (Ret (foldl (fun m k => incrementCounter k m) memo (definedNames infos)), infos').
Proof.
  intros Hall. induction Hall as [|l infos [n Hn] Hall IH] in memo |- *.
  - by exists [].
  - cbn [countDefinitions definedNames flat_map].
    pose proof (lambdaFunctionName_customResources l) as Hcrs.
    unfold nameOf.
    destruct (lambdaFunctionName l) as [r l'] eqn:Hl. cbn [fst snd] in *. subst r.
    rewrite Hcrs, foldl_app. cbn [foldl].
    set (memo2 := foldl _ (incrementCounter n memo) (customResources l)).
    assert (Hmemo2 : memo2 = foldl (fun m k => incrementCounter k m) (incrementCounter n memo)
                                   (map userFunctionName (customResources l))).
    { apply countCustomResources_names. }
    destruct (IH memo2) as (infos' & ->). rewrite Hmemo2. by eexists.
Qed.

Lemma definedNames_app l1 l2 : definedNames (l1 ++ l2) = definedNames l1 ++ definedNames l2.
Proof. apply flat_map_app. Qed.

(** Two functions with one derived name are counted twice at least. *)
Lemma definedNames_twice pre li mid lj post n :
  nameOf li = n → nameOf lj = n →
  2 ≤ length (filter (eq n) (definedNames (pre ++ li :: mid ++ lj :: post))).
Proof.
  intros Hi Hj.
  change (li :: mid ++ lj :: post) with ([li] ++ mid ++ [lj] ++ post).
  rewrite !definedNames_app, !filter_app, !length_app.
  assert (Hone : ∀ l, nameOf l = n → 1 ≤ length (filter (eq n) (definedNames [l]))).
  { intros l Hl. cbn [definedNames flat_map]. rewrite app_nil_r, Hl.
    rewrite filter_cons_True by done. cbn [length]. lia. }
  pose proof (Hone li Hi). pose proof (Hone lj Hj). lia.
Qed.

Lemma logCollisions_calls dups tr :
  ∃ delta, (logCollisions dups tr).2 = tr ++ delta
           ∧ Forall (fun ev => isPreconditionCall ev.1 = true) delta.
Proof.
  induction dups as [|d dups IH] in tr |- *; cbn [logCollisions].
  - exists []. unfold ret. cbn [snd]. by rewrite app_nil_r.
  - run_monad. destruct (IH (tr ++ [(Log Error "HandleAWSLambda", ROk "")])) as (delta & Ht & Hf).
    exists ((Log Error "HandleAWSLambda", ROk "") :: delta).
    rewrite Ht, <- app_assoc. split; [done|]. by constructor.
Qed.

(** The precondition check only logs and looks for the sysinfo package. *)
Lemma validateSpartaPreconditions_calls infos tr :
  ∃ delta, (validateSpartaPreconditions infos tr).2 = tr ++ delta
           ∧ Forall (fun ev => isPreconditionCall ev.1 = true) delta.
Proof.
  unfold validateSpartaPreconditions.
  destruct (countDefinitions infos ∅) as [[memo|m] infos'].
  2: { exists []. unfold ret. cbn [snd]. by rewrite app_nil_r. }
  unfold bind at 1.
  destruct (logCollisions_calls (duplicates memo) tr) as (d1 & Ht1 & Hf1).
  destruct (logCollisions (duplicates memo) tr) as [u tr1]. cbn [snd] in Ht1. subst tr1.
  run_monad.
  destruct (negb _).
  - eexists. rewrite <- app_assoc. split; [reflexivity|].
    apply Forall_app. split; [done|]. by repeat constructor.
  - set (tr2 := (tr ++ d1) ++ [(Log Debug "Lambda collision map", ROk "")]).
    set (goPath := respond tr2 UserGoPath).
    set (tr3 := (tr2 ++ _) ++ _).
    set (path := sysinfoPath _).
    destruct (respond tr3 (OSStat path)) as [p|e] eqn:Hstat.
    + eexists. unfold tr3, tr2. rewrite <- !app_assoc. split; [reflexivity|].
      apply Forall_app. split; [done|]. by repeat constructor.
    + destruct (os_IsNotExist e).
      * destruct (respond (tr3 ++ [(OSStat path, RErr e)]) BuildSysInfoSample) as [q|e'].
        -- eexists. unfold tr3, tr2. rewrite <- !app_assoc. split; [reflexivity|].
           apply Forall_app. split; [done|]. by repeat constructor.
        -- eexists. unfold tr3, tr2. rewrite <- !app_assoc. split; [reflexivity|].
           apply Forall_app. split; [done|]. by repeat constructor.
      * eexists. unfold tr3, tr2. rewrite <- !app_assoc. split; [reflexivity|].
        apply Forall_app. split; [done|]. by repeat constructor.
Qed.

(** A declaration with an invalid signature or two functions with one
    derived name make the precondition check return an error. *)
Lemma validateSpartaPreconditions_rejects infos tr :
  Forall derivable infos →
  (∃ l, l ∈ infos
        ∧ is_Some (ensureValidSignature (userSuppliedFunctionName l) (handlerSymbol l)))
  ∨ (∃ pre li mid lj post, infos = pre ++ li :: mid ++ lj :: post ∧ nameOf li = nameOf lj) →
  ∃ e, (validateSpartaPreconditions infos tr).1.1 = Ret (Some e).
Proof.
  intros Hder Hbad. unfold validateSpartaPreconditions.
  destruct (countDefinitions_derivable infos ∅ Hder) as (infos' & ->).
  set (memo := foldl _ ∅ (definedNames infos)).
  assert (Hlen : negb (length (signatureErrors infos
                               ++ map (fun kv => "Multiple definitions of lambda: " +:+ kv.1)
                                      (duplicates memo)) =? 0)%nat = true).
  { apply negb_true_iff, Nat.eqb_neq. rewrite length_app, length_map.
    destruct Hbad as [(l & Hl & [e He])|(pre & li & mid & lj & post & -> & Hname)].
    - assert (Hin : e ∈ signatureErrors infos).
      { unfold signatureErrors. apply list_elem_of_omap. eauto. }
      destruct (signatureErrors infos); [by apply elem_of_nil in Hin|]. cbn [length]. lia.
    - pose proof (definedNames_twice pre li mid lj post (nameOf li) eq_refl (eq_sym Hname))
        as Htwice.
      pose proof (countOf_foldl (definedNames (pre ++ li :: mid ++ lj :: post)) ∅ (nameOf li))
        as Hcount.
      fold memo in Hcount. unfold countOf in Hcount at 2. rewrite lookup_empty in Hcount.
      cbn [default] in Hcount.
      unfold countOf in Hcount.
      destruct (memo !! nameOf li) as [c|] eqn:Hc; cbn [default] in Hcount;
        unfold id in Hcount; [|lia].
      assert (Hin : (nameOf li, c) ∈ duplicates memo).
      { unfold duplicates. apply list_elem_of_filter. split; [cbn; lia|].
        by apply elem_of_map_to_list. }
      destruct (duplicates memo); [by apply elem_of_nil in Hin|]. cbn [length]. lia. }
  unfold bind at 1. destruct (logCollisions (duplicates memo) tr) as [u tr1].
  run_monad. rewrite Hlen. cbn [fst]. eauto.
Qed.

(** A service without functions passes the precondition check or fails it
    on the sysinfo package; it fails nowhere else. *)
Lemma validateSpartaPreconditions_empty tr :
  ∃ v, (validateSpartaPreconditions [] tr).1 = (Ret v, []).
Proof.
  unfold validateSpartaPreconditions. cbn [countDefinitions signatureErrors omap].
  assert (Hd : duplicates ∅ = []) by (unfold duplicates; by rewrite map_to_list_empty).
  rewrite Hd. cbn [logCollisions]. run_monad.
  change (signatureErrors []) with (@nil string).
  cbn [app length Nat.eqb negb map]. run_monad.
  repeat case_respond; try (eexists; reflexivity).
  all: destruct (os_IsNotExist _); repeat case_respond; eexists; reflexivity.
Qed.

(** The second loop returns a memo only when every derivation returned. *)
Lemma countDefinitions_Ret infos memo0 memo infos' :
  countDefinitions infos memo0 = (Ret memo, infos') → Forall derivable infos.
Proof.
  induction infos as [|l infos IH] in memo0, memo, infos' |- *; [by constructor|].
  cbn [countDefinitions].
  destruct (lambdaFunctionName l) as [[n|m] l'] eqn:Hl; [|done].
  destruct (countDefinitions infos _) as [r rest] eqn:Hrest.
  intros [= -> <-]. constructor; [|by eapply IH].
  exists n. by rewrite Hl.
Qed.

(** Whether or not the name derivations return, such an input never
    starts the workflow and never makes [Provision] return success: when a
    derivation panics, so does [Provision]. *)
Lemma Provision_never_starts_on_bad_input (a : provisionArgs) (h : roleHeap)
    (tr : list event) :
  (∃ l, l ∈ arg_lambdaAWSInfos a
        ∧ is_Some (ensureValidSignature (userSuppliedFunctionName l) (handlerSymbol l)))
  ∨ (∃ pre li mid lj post,
       arg_lambdaAWSInfos a = pre ++ li :: mid ++ lj :: post ∧ nameOf li = nameOf lj)
  ∨ arg_lambdaAWSInfos a = [] →
  returned (Provision a h tr) ≠ Ret None
  ∧ workflowStart a h tr = None
  ∧ ∃ delta, final_trace (Provision a h tr) = tr ++ delta
             ∧ Forall (fun ev => isPreconditionCall ev.1 = true) delta.
Proof.
  intros Hbad.
  destruct (validateSpartaPreconditions_calls (arg_lambdaAWSInfos a) tr) as (d & Ht & Hf).
  assert (Hcases : (validateSpartaPreconditions (arg_lambdaAWSInfos a) tr).1.1 ≠ Ret None
                   ∨ arg_lambdaAWSInfos a = []).
  { destruct (countDefinitions (arg_lambdaAWSInfos a) ∅) as [[memo|m] infos'] eqn:Hcount.
    - pose proof (countDefinitions_Ret _ _ _ _ Hcount) as Hder.
      destruct Hbad as [Hsig|[Hdup|Hempty]]; [left|left|by right].
      + destruct (validateSpartaPreconditions_rejects (arg_lambdaAWSInfos a) tr Hder
                    (or_introl Hsig)) as [e ->]. done.
      + destruct (validateSpartaPreconditions_rejects (arg_lambdaAWSInfos a) tr Hder
                    (or_intror Hdup)) as [e ->]. done.
    - left. unfold validateSpartaPreconditions. rewrite Hcount. done. }
  unfold Provision, workflowStart.
  destruct (validateSpartaPreconditions (arg_lambdaAWSInfos a) tr) as [[v infos] tr1].
  cbn [fst snd] in *. subst tr1.
  destruct v as [[e|]|m].
  - cbn [returned final_trace]. split; [done|]. split; [done|]. by exists d.
  - destruct Hcases as [Hv|Hempty]; [done|].
    unfold log. rewrite Hempty. cbn [length Nat.leb returned final_trace].
    split; [done|]. split; [done|].
    exists (d ++ [(Log Info "Provisioning service", ROk "")]).
    rewrite app_assoc. split; [done|]. apply Forall_app. split; [done|].
    by repeat constructor.
  - cbn [returned final_trace]. split; [done|]. split; [done|]. by exists d.
Qed.

(** When every name derivation returns, a declaration with an invalid
    handler signature, two functions with one derived name, or no function
    at all make [Provision] return an error while the workflow has not
    started: no step runs, and the history holds nothing but logs and the
    look for the sysinfo package; so nothing was built, uploaded, converged
    or rolled back. *)
Theorem Provision_rejects_before_first_step (a : provisionArgs) (h : roleHeap)
    (tr : list event) :
  Forall derivable (arg_lambdaAWSInfos a) →
  (∃ l, l ∈ arg_lambdaAWSInfos a
        ∧ is_Some (ensureValidSignature (userSuppliedFunctionName l) (handlerSymbol l)))
  ∨ (∃ pre li mid lj post,
       arg_lambdaAWSInfos a = pre ++ li :: mid ++ lj :: post ∧ nameOf li = nameOf lj)
  ∨ arg_lambdaAWSInfos a = [] →
  (∃ err, returned (Provision a h tr) = Ret (Some err))
  ∧ workflowStart a h tr = None
  ∧ final_heap (Provision a h tr) = h
  ∧ ∃ delta, final_trace (Provision a h tr) = tr ++ delta
             ∧ Forall (fun ev => isPreconditionCall ev.1 = true) delta.
Proof.
  intros Hder Hbad.
  destruct (validateSpartaPreconditions_calls (arg_lambdaAWSInfos a) tr) as (d & Ht & Hf).
  assert (Hcases : (∃ e, (validateSpartaPreconditions (arg_lambdaAWSInfos a) tr).1.1
                         = Ret (Some e))
                   ∨ (arg_lambdaAWSInfos a = []
                      ∧ ∃ v, (validateSpartaPreconditions (arg_lambdaAWSInfos a) tr).1.1
                             = Ret v)).
  { destruct Hbad as [Hsig|[Hdup|Hempty]].
    - left. apply validateSpartaPreconditions_rejects; auto.
    - left. apply validateSpartaPreconditions_rejects; auto.
    - right. split; [done|]. rewrite Hempty.
      destruct (validateSpartaPreconditions_empty tr) as [v Hv]. exists v. by rewrite Hv. }
  unfold Provision, workflowStart.
  destruct (validateSpartaPreconditions (arg_lambdaAWSInfos a) tr) as [[v infos] tr1].
  cbn [fst snd] in *. subst tr1.
  destruct Hcases as [[e ->]|[Hempty [v' ->]]].
  - cbn [returned final_heap final_trace]. split; [eauto|]. split; [done|]. split; [done|].
    by exists d.
  - destruct v' as [e|].
    + cbn [returned final_heap final_trace]. split; [eauto|]. split; [done|].
      split; [done|]. by exists d.
    + unfold log. rewrite Hempty. cbn [length Nat.leb returned final_heap final_trace].
      split; [eauto|]. split; [done|]. split; [done|].
      exists (d ++ [(Log Info "Provisioning service", ROk "")]).
      rewrite app_assoc. split; [done|]. apply Forall_app. split; [done|].
      by repeat constructor.
Qed.

End Preconditions.

(** The statement at the collision of two functions that are both named
    main: [Provision] returns an error and the workflow has not started. *)
Lemma Provision_rejects_before_first_step_witness :
  let a := provisionOf [simpleLambda "main" "ops"; simpleLambda "main" "ops"] false None in
  (∃ err, returned (@Provision quietWorld a ∅ []) = Ret (Some err))
  ∧ @workflowStart quietWorld a ∅ [] = None
  ∧ final_heap (@Provision quietWorld a ∅ []) = ∅
  ∧ ∃ delta, final_trace (@Provision quietWorld a ∅ []) = [] ++ delta
             ∧ Forall (fun ev => isPreconditionCall ev.1 = true) delta.
Proof.
  intros a.
  apply (@Provision_rejects_before_first_step quietWorld a ∅ []).
  - apply Forall_cons_2; [|apply Forall_cons_2; [|apply Forall_nil_2]];
      (exists "main"; vm_compute; reflexivity).
  - right. left.
    exists [], (simpleLambda "main" "ops"), [], (simpleLambda "main" "ops"), [].
    split; reflexivity.
Defined.

(** C6 on the code.  A function declared under the name of a method value
    of a pointer receiver, which has one parenthesised part, makes the name
    derivation read the second of the parts it found: [Provision] panics
    with an index out of range, before any step and any log, and returns no
    error.  It does so for a service whose only function has an invalid
    signature, and for a service that also has two functions named
    main. *)
Theorem Provision_panics_on_method_value_name :
  let invalid := provisionOf [structMethodLambda None] false None in
  let colliding :=
    provisionOf [simpleLambda "main" "ops"; simpleLambda "main" "ops";
                 structMethodLambda (Some 1)] false None in
  (@signatureErrors quietWorld (arg_lambdaAWSInfos invalid)
   = ["Invalid lambda function signature: " +:+ ("pkg.(" +:+ "*T).handler-fm")]
   ∧ returned (@Provision quietWorld invalid ∅ []) = Panic "index out of range"
   ∧ final_trace (@Provision quietWorld invalid ∅ []) = [])
  ∧ (@nameOf quietWorld (simpleLambda "main" "ops") = "main"
     ∧ returned (@Provision quietWorld colliding ∅ []) = Panic "index out of range"
     ∧ final_trace (@Provision quietWorld colliding ∅ []) = [])
  ∧ GoStrings.reCapture_FindAllString ("pkg.(" +:+ "*T).handler-fm") = ["(" +:+ "*T)"].
Proof.
  intros invalid colliding. repeat split; vm_compute; reflexivity.
Qed.

(** ** Template assembly *)

(** C4 on the code.  The S3 site export of a service fails; the step goes
    on to converge the stack and returns no error, so the driver never sees
    the failure.  The export of a function that fails, by contrast, ends
    the step with its error. *)
Theorem ensureCloudFormationStack_drops_site_export_error :
  let site := mkS3Site "./site" "S3SiteBucket" in
  let r := runStep (@ensureCloudFormationStack brokenSiteExportWorld) siteState in
  (∀ template tr,
      (@S3Site_export brokenSiteExportWorld site template tr).1.1
      = Some "Failed to create S3 site resource: environment refused")
  ∧ (LambdaFunctionEnvironment "ZipToS3Bucket", RErr "environment refused") ∈ trace r.2
  ∧ r.1 = (None, None)
  ∧ (ConvergeStackState "Svc" "b"
       "Svc/Svc-da39a3ee5e6b4b0d3255bfef95601890afd80709-cf.json"
       ["S3SiteIAMRole"; "S3SiteBucketPolicy"; "S3SiteBucket"], ROk "ok") ∈ trace r.2
  ∧ (@runWorkflow brokenSiteExportWorld (@ensureCloudFormationStack brokenSiteExportWorld)
       siteState).1 = None
  ∧ (runStep (@ensureCloudFormationStack brokenLambdaExportWorld) siteState).1
    = (None, Some "export refused").
Proof.
  intros site r.
  split; [intros template tr; reflexivity|].
  split; [vm_compute; set_solver|].
  split; [vm_compute; reflexivity|].
  split; [vm_compute; set_solver|].
  split; vm_compute; reflexivity.
Qed.

(** ** Sanitized names *)

Section SanitizedNames.

Lemma reSanitize_aux_wordOnly s inrun :
  wordOnly (GoStrings.reSanitize_aux s inrun) = true.
Proof.
  induction s as [|c s IH] in inrun |- *; [done|].
  cbn [GoStrings.reSanitize_aux]. destruct (GoStrings.is_word c) eqn:Hc.
  - cbn [wordOnly]. by rewrite Hc, IH.
  - destruct inrun; [apply IH|]. cbn [wordOnly]. by rewrite IH.
Qed.

Lemma reSanitize_aux_length s inrun :
  String.length (GoStrings.reSanitize_aux s inrun) ≤ String.length s.
Proof.
  induction s as [|c s IH] in inrun |- *; [done|].
  cbn [GoStrings.reSanitize_aux String.length]. destruct (GoStrings.is_word c).
  - cbn [String.length]. specialize (IH false). lia.
  - destruct inrun.
    + specialize (IH true). lia.
    + cbn [String.length]. specialize (IH true). lia.
Qed.

Lemma reSanitize_aux_word s inrun :
  wordOnly s = true → GoStrings.reSanitize_aux s inrun = s.
Proof.
  induction s as [|c s IH] in inrun |- *; [done|].
  cbn [wordOnly GoStrings.reSanitize_aux]. intros [Hc Hs]%andb_prop.
  rewrite Hc. by rewrite IH.
Qed.

(** X1.  Whatever the input, [sanitizedName] returns a string made of
    letters, digits and underscores only, and never a string longer than
    its input. *)
Theorem sanitizedName_word_characters (input : string) :
  wordOnly (sanitizedName input) = true
  ∧ String.length (sanitizedName input) ≤ String.length input.
Proof.
  split; [apply reSanitize_aux_wordOnly|apply reSanitize_aux_length].
Qed.

(** X2.  [sanitizedName] returns its input unchanged exactly when the
    input is made of letters, digits and underscores only, and sanitizing a
    sanitized name changes nothing. *)
Theorem sanitizedName_fixes_identifiers (input : string) :
  (sanitizedName input = input ↔ wordOnly input = true)
  ∧ sanitizedName (sanitizedName input) = sanitizedName input.
Proof.
  split; [split|].
  - intros <-. apply reSanitize_aux_wordOnly.
  - apply reSanitize_aux_word.
  - apply reSanitize_aux_word, reSanitize_aux_wordOnly.
Qed.

End SanitizedNames.

(** ** Derived function names *)

Section DerivedNames.
Context `{Externals}.

Lemma split_aux_last sep s cur : is_Some (last (GoStrings.split_aux sep s cur)).
Proof.
  induction s as [|c s IH] in cur |- *; cbn [GoStrings.split_aux]; [by eexists|].
  destruct (Ascii.eqb c sep); [|apply IH].
  destruct (IH "") as [x Hx]. exists x.
  destruct (GoStrings.split_aux sep s "") eqn:E; [done|]. done.
Qed.

Lemma Contains_slash s : GoStrings.Contains s "/" = GoPath.hasSlash s.
Proof.
  unfold GoStrings.Contains.
  induction s as [|c s IH]; [done|].
  cbn [GoPath.hasSlash]. 
  change (String.index 0 "/" (String c s))
    with (if String.prefix "/" (String c s) then Some 0
          else match String.index 0 "/" s with Some n => Some (S n) | None => None end).
  cbn [String.prefix].
  destruct (ascii_dec "/" c) as [<-|Hne].
  - by destruct s.
  - replace (Ascii.eqb c "/") with false.
    2:{ symmetry. apply Ascii.eqb_neq. congruence. }
    cbn [orb]. rewrite <- IH. by destruct (String.index 0 "/" s).
Qed.

Lemma split_aux_tail p c cur :
  GoPath.hasSlash c = false →
  last (GoStrings.split_aux "/"%char (p +:+ "/" +:+ c) cur) = Some c.
Proof.
  intros Hc. induction p as [|a p IH] in cur |- *.
  - change ("" +:+ "/" +:+ c) with (String "/"%char c).
    cbn [GoStrings.split_aux]. rewrite Ascii.eqb_refl.
    pose proof (hasSlash_split_aux c "" "" Hc) as Hs.
    rewrite string_app_nil_r in Hs. rewrite Hs. done.
  - change (String a p +:+ "/" +:+ c) with (String a (p +:+ "/" +:+ c)).
    cbn [GoStrings.split_aux]. destruct (Ascii.eqb a "/"); [|apply IH].
    specialize (IH "").
    destruct (GoStrings.split_aux "/" (p +:+ "/" +:+ c) "") eqn:E; [done|]. done.
Qed.

(** X3.  [lambdaFunctionName] panics exactly when no name is cached, the
    options give no name, the name it starts from has a parenthesis (a
    function defined on a struct) and the expression for the parts of such
    a name finds fewer than two of them.  The panic is then an index out of
    range, and the declaration is left as it was: nothing is cached. *)
Theorem lambdaFunctionName_panics_iff (info : LambdaAWSInfo) :
  let name := derivationSource info in
  ((∃ m, (lambdaFunctionName info).1 = Panic m) ↔
   cachedLambdaFunctionName info = "" ∧ spartaOptionsName info = None
   ∧ structDefined name = true
   ∧ length (GoStrings.reCapture_FindAllString name) < 2)
  ∧ (∀ m, (lambdaFunctionName info).1 = Panic m →
          m = "index out of range" ∧ (lambdaFunctionName info).2 = info).
Proof.
  intros name. unfold lambdaFunctionName.
  destruct (String.eqb (cachedLambdaFunctionName info) "") eqn:Hcache; cbn [negb].
  2:{ apply String.eqb_neq in Hcache. split; [|done]. split.
      - by intros [m Hm].
      - by intros (Hc & _). }
  apply String.eqb_eq in Hcache.
  destruct (spartaOptionsName info) as [n|] eqn:Hopt.
  { split; [|done]. split; [by intros [m Hm]|by intros (_ & ? & _)]. }
  fold (derivationSource info). fold name. fold (structDefined name).
  destruct (structDefined name) eqn:Hstruct.
  - destruct (GoStrings.reCapture_FindAllString name) as [|p0 [|p1 rest]] eqn:Hparts;
      cbn [length].
    + split; [|by intros m [= <-]]. split; [intros _; repeat split; [done|lia]|by eexists].
    + split; [|by intros m [= <-]]. split; [intros _; repeat split; [done|lia]|by eexists].
    + destruct (split_aux_last "/"%char p1 "") as [l Hl].
      unfold GoStrings.Split. rewrite Hl.
      split; [|done]. split; [by intros [m Hm]|intros (_ & _ & _ & ?); lia].
  - destruct (GoStrings.Contains name "/").
    + destruct (split_aux_last "/"%char name "") as [l Hl].
      unfold GoStrings.Split. rewrite Hl.
      split; [|done]. split; [by intros [m Hm]|by intros (_ & _ & ? & _)].
    + split; [|done]. split; [by intros [m Hm]|by intros (_ & _ & ? & _)].
Qed.

Lemma lambdaFunctionName_component (info : LambdaAWSInfo) (pre c : string) :
  cachedLambdaFunctionName info = "" →
  spartaOptionsName info = None →
  derivationSource info = pre +:+ c →
  structDefined (pre +:+ c) = false →
  GoPath.hasSlash c = false →
  pre = "" ∨ (∃ p, pre = p +:+ "/") →
  lambdaFunctionName info
  = (Ret (sanitizedName c), set_cachedLambdaFunctionName (sanitizedName c) info)
  ∧ wordOnly (sanitizedName c) = true.
Proof.
  intros Hcache Hopt Hname Hstruct Hc Hpre.
  split; [|apply reSanitize_aux_wordOnly].
  unfold lambdaFunctionName. rewrite Hcache, Hopt. cbn [String.eqb negb].
  fold (derivationSource info). rewrite Hname.
  fold (structDefined (pre +:+ c)). rewrite Hstruct.
  rewrite Contains_slash.
  destruct Hpre as [->|[p ->]].
  - change ("" +:+ c) with c. by rewrite Hc.
  - rewrite string_app_assoc.
    assert (Hs : GoPath.hasSlash (p +:+ "/" +:+ c) = true).
    { clear. induction p as [|a p IH]; [done|].
      change (String a p +:+ "/" +:+ c) with (String a (p +:+ "/" +:+ c)).
      cbn [GoPath.hasSlash]. rewrite IH. apply orb_true_r. }
    rewrite Hs. unfold GoStrings.Split. by rewrite split_aux_tail.
Qed.

(** X4.  For a declaration with no cached name and no name in its
    options, whose source name has no parenthesis and ends, after its last
    slash if it has one, with the component [c], [lambdaFunctionName]
    returns the sanitized [c] and caches it; the name is made of letters,
    digits and underscores only. *)
Theorem lambdaFunctionName_last_component (info : LambdaAWSInfo) (pre c : string) :
  cachedLambdaFunctionName info = "" →
  spartaOptionsName info = None →
  derivationSource info = pre +:+ c →
  structDefined (pre +:+ c) = false →
  GoPath.hasSlash c = false →
  pre = "" ∨ (∃ p, pre = p +:+ "/") →
  lambdaFunctionName info
  = (Ret (sanitizedName c), set_cachedLambdaFunctionName (sanitizedName c) info)
  ∧ wordOnly (sanitizedName c) = true.
Proof. apply lambdaFunctionName_component. Qed.

End DerivedNames.

Lemma lambdaFunctionName_last_component_witness :
  let info := simpleLambda "github.com/mweagle/SpartaPython.HelloWorld" "" in
  @lambdaFunctionName quietWorld info
  = (Ret "SpartaPython_HelloWorld",
     set_cachedLambdaFunctionName "SpartaPython_HelloWorld" info)
  ∧ wordOnly "SpartaPython_HelloWorld" = true.
Proof.
  intros info.
  exact (@lambdaFunctionName_last_component quietWorld info
           "github.com/mweagle/" "SpartaPython.HelloWorld"
           eq_refl eq_refl eq_refl eq_refl eq_refl
           (or_intror (ex_intro _ "github.com/mweagle" eq_refl))).
Defined.

(** ** Reports of the precondition checks, declarations *)

(** Splits a membership in a list given by its elements into the cases. *)
Ltac elem_cases H :=
  repeat match type of H with
         | _ ∈ _ ++ _ => apply elem_of_app in H as [H|H]
         | _ ∈ _ :: _ => apply elem_of_cons in H as [H|H]
         | _ ∈ [] => by apply elem_of_nil in H
         end.

Section PreconditionReports.
Context `{Externals}.

Lemma countOf_names names n :
  countOf (foldl (fun m k => incrementCounter k m) ∅ names) n
  = length (filter (eq n) names).
Proof. rewrite countOf_foldl. unfold countOf. by rewrite lookup_empty. Qed.

(** The names that the collision memo reports: each once, and exactly the
    names counted twice or more. *)
Lemma duplicates_names names :
  let memo := foldl (fun m k => incrementCounter k m) ∅ names in
  NoDup (map fst (duplicates memo))
  ∧ ∀ n, n ∈ map fst (duplicates memo) ↔ 2 ≤ length (filter (eq n) names).
Proof.
  intros memo. split.
  - unfold duplicates.
    change (map fst ?l) with (fst <$> l).
    eapply sublist_NoDup; [apply (NoDup_fst_map_to_list memo)|].
    apply fmap_sublist, sublist_filter.
  - intros n. rewrite <- (countOf_names names n). fold memo.
    change (map fst ?l) with (fst <$> l). rewrite list_elem_of_fmap.
    unfold duplicates, countOf. split.
    + intros [[k c] [-> [Hc Hin]%list_elem_of_filter]].
      apply elem_of_map_to_list in Hin. cbn [fst snd] in *. rewrite Hin. cbn. lia.
    + intros Hn. destruct (memo !! n) as [c|] eqn:Hc; cbn in Hn; [|lia].
      exists (n, c). split; [done|]. apply list_elem_of_filter. split; [cbn; lia|].
      by apply elem_of_map_to_list.
Qed.

Lemma logCollisions_logs dups tr :
  logCollisions dups tr
  = (tt, tr ++ map (fun _ => (Log Error "HandleAWSLambda", ROk "")) dups).
Proof.
  induction dups as [|d dups IH] in tr |- *; cbn [logCollisions map].
  - unfold ret. by rewrite app_nil_r.
  - run_monad. rewrite IH, <- app_assoc. done.
Qed.

Lemma validateSpartaPreconditions_result infos tr memo infos' :
  countDefinitions infos ∅ = (Ret memo, infos') →
  let errorText :=
    signatureErrors infos
    ++ map (fun kv => "Multiple definitions of lambda: " +:+ kv.1) (duplicates memo) in
  match errorText with
  | [] => (validateSpartaPreconditions infos tr).1.1 = Ret None
          ∨ (validateSpartaPreconditions infos tr).1.1 = Ret (Some sysinfoMessage)
  | _ :: _ => (validateSpartaPreconditions infos tr).1.1
              = Ret (Some (GoStrings.Join errorText newline))
  end.
Proof.
  intros Hc errorText.
  remember (validateSpartaPreconditions infos tr).1.1 as v eqn:Hv.
  unfold validateSpartaPreconditions in Hv. rewrite Hc in Hv.
  unfold bind at 1 in Hv. rewrite logCollisions_logs in Hv. run_monad_in Hv.
  fold errorText in Hv.
  destruct errorText as [|e errorText]; cbn [length Nat.eqb negb fst snd] in Hv.
  - destruct (respond _ (OSStat _)) as [p|e] in Hv; [by left|].
    destruct (os_IsNotExist e) in Hv; [|by left].
    destruct (respond _ BuildSysInfoSample) in Hv; [by left|by right].
  - done.
Qed.

Lemma validateSpartaPreconditions_text infos tr :
  Forall derivable infos →
  ∃ dups,
    NoDup dups
    ∧ (∀ n, n ∈ dups ↔ 2 ≤ length (filter (eq n) (definedNames infos)))
    ∧ let errorText :=
        signatureErrors infos
        ++ map (fun n => "Multiple definitions of lambda: " +:+ n) dups in
      match errorText with
      | [] => (validateSpartaPreconditions infos tr).1.1 = Ret None
              ∨ (validateSpartaPreconditions infos tr).1.1 = Ret (Some sysinfoMessage)
      | _ :: _ => (validateSpartaPreconditions infos tr).1.1
                  = Ret (Some (GoStrings.Join errorText newline))
      end.
Proof.
  intros Hder.
  destruct (countDefinitions_derivable infos ∅ Hder) as (infos' & Hc).
  set (memo := foldl _ ∅ (definedNames infos)) in Hc.
  destruct (duplicates_names (definedNames infos)) as [Hnd Hin]. fold memo in Hnd, Hin.
  exists (map fst (duplicates memo)). split; [done|]. split; [done|].
  rewrite map_map. apply (validateSpartaPreconditions_result infos tr memo infos' Hc).
Qed.

(** X5.  When the name of every declaration can be derived,
    [validateSpartaPreconditions] reports as follows.  If some signature is
    invalid or some name is defined more than once, it returns one error:
    the signature errors in the order of the declarations, then one line
    [Multiple definitions of lambda: n] for each name [n] defined at least
    twice, each such name once, all joined by newlines.  Otherwise it
    returns no error, or the message about the sysinfo package. *)
Theorem validateSpartaPreconditions_reports
    (lambdaAWSInfos : list LambdaAWSInfo) (tr : list event) :
  Forall derivable lambdaAWSInfos →
  ∃ dups,
    NoDup dups
    ∧ (∀ n, n ∈ dups ↔ 2 ≤ length (filter (eq n) (definedNames lambdaAWSInfos)))
    ∧ let errorText :=
        signatureErrors lambdaAWSInfos
        ++ map (fun n => "Multiple definitions of lambda: " +:+ n) dups in
      match errorText with
      | [] => (validateSpartaPreconditions lambdaAWSInfos tr).1.1 = Ret None
              ∨ (validateSpartaPreconditions lambdaAWSInfos tr).1.1
                = Ret (Some sysinfoMessage)
      | _ :: _ => (validateSpartaPreconditions lambdaAWSInfos tr).1.1
                  = Ret (Some (GoStrings.Join errorText newline))
      end.
Proof. apply validateSpartaPreconditions_text. Qed.

Lemma NoDup_counts (l : list string) :
  (∀ n, length (filter (eq n) l) < 2) → NoDup l.
Proof.
  induction l as [|x l IH]; intros Hc; [constructor|].
  constructor.
  - intros Hx. specialize (Hc x). rewrite filter_cons_True in Hc by done.
    cbn [length] in Hc.
    assert (0 < length (filter (eq x) l)); [|lia].
    assert (Hin : x ∈ filter (eq x) l) by (by apply list_elem_of_filter).
    destruct (filter (eq x) l); [by apply elem_of_nil in Hin|cbn; lia].
  - apply IH. intros n. specialize (Hc n).
    destruct (decide (n = x)) as [->|Hne].
    + rewrite filter_cons_True in Hc by done. cbn [length] in Hc. lia.
    + by rewrite filter_cons_False in Hc by done.
Qed.

Lemma elem_of_collision_logs (ev : event) (dups : list (string * nat)) :
  ev ∈ map (fun _ : string * nat => (Log Error "HandleAWSLambda", ROk "")) dups →
  ev = (Log Error "HandleAWSLambda", ROk "").
Proof.
  change (map ?f ?l) with (f <$> l). by intros (? & -> & _)%list_elem_of_fmap.
Qed.

(** Decides a membership of an event in the collision logs followed by
    events that are given one by one. *)
Ltac precondition_events H :=
  elem_cases H;
  try (apply elem_of_collision_logs in H);
  try discriminate H.

(** X6.  [validateSpartaPreconditions] looks for the sysinfo package only
    when no signature is invalid and no name is defined twice, and at the
    path below the GOPATH it was answered.  It builds the sample only after
    that look-up failed with a does-not-exist error; a build that fails
    makes it return the sysinfo message.  When it returns no error, it has
    looked for the package and no build of the sample has failed. *)
Theorem validateSpartaPreconditions_sysinfo_check
    (lambdaAWSInfos : list LambdaAWSInfo) (tr : list event) :
  let run := validateSpartaPreconditions lambdaAWSInfos tr in
  ∃ delta,
    run.2 = tr ++ delta
    ∧ (∀ path r, (OSStat path, r) ∈ delta →
         signatureErrors lambdaAWSInfos = []
         ∧ NoDup (definedNames lambdaAWSInfos)
         ∧ ∃ goPath, (UserGoPath, goPath) ∈ delta
                     ∧ path = sysinfoPath (match goPath with ROk p => p | RErr _ => "" end))
    ∧ (∀ r, (BuildSysInfoSample, r) ∈ delta →
         ∃ path e, (OSStat path, RErr e) ∈ delta ∧ os_IsNotExist e = true)
    ∧ (∀ e, (BuildSysInfoSample, RErr e) ∈ delta →
         run.1.1 = Ret (Some sysinfoMessage))
    ∧ (run.1.1 = Ret None →
         (∃ path r, (OSStat path, r) ∈ delta)
         ∧ ∀ e, (BuildSysInfoSample, RErr e) ∉ delta).
Proof.
  intros run.
  assert (Hrun : run = validateSpartaPreconditions lambdaAWSInfos tr) by reflexivity.
  clearbody run. unfold validateSpartaPreconditions in Hrun.
  destruct (countDefinitions lambdaAWSInfos ∅) as [[memo|m] infos'] eqn:Hc.
  2:{ exists []. subst run. unfold ret. cbn [fst snd]. rewrite app_nil_r. split; [done|].
      repeat split; try done; intros; exfalso; eapply not_elem_of_nil; eauto. }
  pose proof (countDefinitions_Ret _ _ _ _ Hc) as Hder.
  destruct (countDefinitions_derivable lambdaAWSInfos ∅ Hder) as (infos'' & Hc').
  rewrite Hc in Hc'. injection Hc' as Hmemo _.
  destruct (duplicates_names (definedNames lambdaAWSInfos)) as [_ Hdups].
  cbv zeta in Hdups. rewrite <- Hmemo in Hdups. clear Hmemo infos''.
  unfold bind at 1 in Hrun. rewrite logCollisions_logs in Hrun. run_monad_in Hrun.
  set (logs := map (fun _ => (Log Error "HandleAWSLambda", ROk "")) (duplicates memo)) in Hrun.
  destruct (signatureErrors lambdaAWSInfos ++ _) as [|e0 errorText] eqn:Herr;
    cbn [length Nat.eqb negb fst snd] in Hrun.
  2:{ subst run. cbn [fst snd]. eexists. rewrite <- !app_assoc. split; [reflexivity|].
      repeat split; try done; intros; exfalso;
        match goal with
        | Hin : _ ∈ _ |- _ => unfold logs in Hin; precondition_events Hin
        end. }
  apply app_eq_nil in Herr as [Hsig Hnodup].
  assert (Hnd : NoDup (definedNames lambdaAWSInfos)).
  { apply NoDup_counts. intros n. apply Nat.lt_nge. rewrite <- Hdups.
    apply map_eq_nil in Hnodup. rewrite Hnodup. cbn. apply not_elem_of_nil. }
  set (tr2 := (tr ++ logs) ++ _) in Hrun.
  set (goPath := respond tr2 UserGoPath) in Hrun.
  set (path := sysinfoPath _) in Hrun.
  set (tr3 := (tr2 ++ _) ++ _) in Hrun.
  assert (Hstat : ∀ p r (evs : list event),
            (OSStat p, r) ∈ logs ++ [(Log Debug "Lambda collision map", ROk "")]
                            ++ [(UserGoPath, goPath)]
                            ++ [(Log Debug "Checking installation status of github.com/zcalusic/sysinfo", ROk "")]
                            ++ (OSStat path, respond tr3 (OSStat path)) :: evs →
            (∀ q r', (OSStat q, r') ∉ evs) →
            signatureErrors lambdaAWSInfos = []
            ∧ NoDup (definedNames lambdaAWSInfos)
            ∧ ∃ goPath0, (UserGoPath, goPath0)
                           ∈ logs ++ [(Log Debug "Lambda collision map", ROk "")]
                             ++ [(UserGoPath, goPath)]
                             ++ [(Log Debug "Checking installation status of github.com/zcalusic/sysinfo", ROk "")]
                             ++ (OSStat path, respond tr3 (OSStat path)) :: evs
                         ∧ p = sysinfoPath (match goPath0 with ROk p => p | RErr _ => "" end)).
  { intros p r evs Hin Hevs. split; [done|]. split; [done|].
    exists goPath. split.
    - apply elem_of_app. right. apply elem_of_cons. right. apply elem_of_cons. by left.
    - unfold logs in Hin. precondition_events Hin.
      + by injection Hin as -> _.
      + by apply Hevs in Hin. }
  destruct (respond tr3 (OSStat path)) as [p|e] eqn:Hr.
  - subst run. cbn [fst snd]. eexists. unfold tr3, tr2. rewrite <- !app_assoc.
    split; [reflexivity|].
    split; [|split; [|split; [|split]]].
    + intros q r Hin. eapply (Hstat q r []); [exact Hin|]. intros ? ?. apply not_elem_of_nil.
    + intros r Hin. unfold logs in Hin. precondition_events Hin.
    + intros e Hin. unfold logs in Hin. precondition_events Hin.
    + exists path, (ROk p). rewrite !elem_of_app, !elem_of_cons. tauto.
    + intros e Hin. unfold logs in Hin. precondition_events Hin.
  - destruct (os_IsNotExist e) eqn:Hne.
    + destruct (respond (tr3 ++ [(OSStat path, RErr e)]) BuildSysInfoSample) as [q|e'] eqn:Hb.
      * subst run. cbn [fst snd]. eexists. unfold tr3, tr2. rewrite <- !app_assoc.
        split; [reflexivity|].
        split; [|split; [|split; [|split]]].
        -- intros q0 r Hin. eapply (Hstat q0 r [_]); [exact Hin|].
           intros ? ? Hq. precondition_events Hq.
        -- intros r Hin. exists path, e. split; [|done].
           rewrite !elem_of_app, !elem_of_cons. tauto.
        -- intros e' Hin. unfold logs in Hin. precondition_events Hin.
        -- exists path, (RErr e). rewrite !elem_of_app, !elem_of_cons. tauto.
        -- intros e' Hin. unfold logs in Hin. precondition_events Hin.
      * subst run. cbn [fst snd]. eexists. unfold tr3, tr2. rewrite <- !app_assoc.
        split; [reflexivity|].
        split; [|split; [|split; [|split]]].
        -- intros q0 r Hin. eapply (Hstat q0 r [_; _]); [exact Hin|].
           intros ? ? Hq. precondition_events Hq.
        -- intros r Hin. exists path, e. split; [|done].
           rewrite !elem_of_app, !elem_of_cons. tauto.
        -- done.
        -- done.
        -- done.
    + subst run. cbn [fst snd]. eexists. unfold tr3, tr2. rewrite <- !app_assoc.
      split; [reflexivity|].
      split; [|split; [|split; [|split]]].
      * intros q r Hin. eapply (Hstat q r []); [exact Hin|]. intros ? ?. apply not_elem_of_nil.
      * intros r Hin. unfold logs in Hin. precondition_events Hin.
      * intros e' Hin. unfold logs in Hin. precondition_events Hin.
      * exists path, (RErr e). rewrite !elem_of_app, !elem_of_cons. tauto.
      * intros e' Hin. unfold logs in Hin. precondition_events Hin.
Qed.

End PreconditionReports.

Section Declarations.
Context `{Externals}.

(** X7.  Two calls of [HandleAWSLambda] with the same role definition give
    two declarations with an empty role name, each pointing to a copy of
    its own of the definition: the two pointers differ, both are new, both
    copies hold the definition, and the definitions that existed before are
    unchanged.  Deriving the logical name of the role through the first
    pointer leaves the copy of the second declaration as it is, and the
    second declaration does not share the role of the first. *)
Theorem HandleAWSLambda_copies_role_definition
    (name1 name2 : string) (handler1 handler2 : option funcptr)
    (definition : IAMRoleDefinition) (h : roleHeap) :
  let r1 := HandleAWSLambda name1 handler1 (RoleDefinitionArgument definition) h in
  let r2 := HandleAWSLambda name2 handler2 (RoleDefinitionArgument definition) r1.2 in
  ∃ l1 l2 p1 p2,
    r1.1 = Ret l1 ∧ r2.1 = Ret l2
    ∧ RoleDefinition l1 = Some p1 ∧ RoleDefinition l2 = Some p2
    ∧ RoleName l1 = "" ∧ RoleName l2 = ""
    ∧ p1 ≠ p2 ∧ h !! p1 = None ∧ h !! p2 = None
    ∧ r2.2 !! p1 = Some definition ∧ r2.2 !! p2 = Some definition
    ∧ (∀ q d, h !! q = Some d → r2.2 !! q = Some d)
    ∧ (∀ serviceName targetLambdaFnName,
         (IAMRoleDefinition_logicalName p1 serviceName targetLambdaFnName r2.2).2 !! p2
         = Some definition)
    ∧ ¬ sharesRole p1 l2.
Proof.
  intros r1 r2. subst r1 r2. unfold HandleAWSLambda. cbn [fst snd].
  set (p1 := fresh (dom h)).
  set (h1 := <[p1 := definition]> h).
  set (p2 := fresh (dom h1)).
  assert (Hp1 : h !! p1 = None) by (apply not_elem_of_dom, is_fresh).
  assert (Hp2 : h1 !! p2 = None) by (apply not_elem_of_dom, is_fresh).
  assert (Hne : p1 ≠ p2).
  { intros Heq. rewrite <- Heq in Hp2. unfold h1 in Hp2. by rewrite lookup_insert_eq in Hp2. }
  assert (Hp2' : h !! p2 = None).
  { unfold h1 in Hp2. by rewrite lookup_insert_ne in Hp2. }
  eexists _, _, p1, p2.
  split; [reflexivity|]. split; [reflexivity|]. cbn [RoleDefinition RoleName].
  repeat (split; [done|]).
  split; [by unfold h1; rewrite lookup_insert_ne, lookup_insert_eq|].
  split; [by rewrite lookup_insert_eq|].
  split.
  { intros q d Hq. unfold h1. rewrite !lookup_insert_ne; [done| |]; congruence. }
  split.
  { intros svc fn. unfold IAMRoleDefinition_logicalName. cbn [snd].
    destruct (String.eqb _ _).
    - by rewrite lookup_insert_ne, lookup_insert_eq.
    - by rewrite lookup_insert_eq. }
  intros [Hshare _]. cbn [RoleDefinition] in Hshare. congruence.
Qed.

Lemma HandleAWSLambda_declared functionName handler role h l h1 :
  HandleAWSLambda functionName handler role h = (Ret l, h1) →
  cachedLambdaFunctionName l = "" ∧ spartaOptionsName l = None
  ∧ derivationSource l = functionName ∧ customResources l = []
  ∧ handlerSymbol l = handler ∧ userSuppliedFunctionName l = functionName.
Proof.
  unfold HandleAWSLambda. destruct role; intros [= <- <-]; done.
Qed.

(** X8.  Two functions declared with [HandleAWSLambda] under names whose
    last components sanitize to the same string are refused:
    [validateSpartaPreconditions] returns an error that has the line
    [Multiple definitions of lambda: ] followed by the sanitized name, and
    [Provision] returns that error for a service made of the two. *)
Theorem HandleAWSLambda_name_collision
    (pre1 c1 pre2 c2 : string) (handler1 handler2 : option funcptr)
    (role1 role2 : roleArgument) (h h1 h2 : roleHeap) (l1 l2 : LambdaAWSInfo)
    (tr : list event) :
  structDefined (pre1 +:+ c1) = false → structDefined (pre2 +:+ c2) = false →
  GoPath.hasSlash c1 = false → GoPath.hasSlash c2 = false →
  pre1 = "" ∨ (∃ p, pre1 = p +:+ "/") →
  pre2 = "" ∨ (∃ p, pre2 = p +:+ "/") →
  sanitizedName c1 = sanitizedName c2 →
  HandleAWSLambda (pre1 +:+ c1) handler1 role1 h = (Ret l1, h1) →
  HandleAWSLambda (pre2 +:+ c2) handler2 role2 h1 = (Ret l2, h2) →
  ∃ lines,
    (validateSpartaPreconditions [l1; l2] tr).1.1
    = Ret (Some (GoStrings.Join lines newline))
    ∧ ("Multiple definitions of lambda: " +:+ sanitizedName c1) ∈ lines
    ∧ ∀ a heap, arg_lambdaAWSInfos a = [l1; l2] →
                returned (Provision a heap tr) = Ret (Some (GoStrings.Join lines newline)).
Proof.
  intros Hs1 Hs2 Hc1 Hc2 Hpre1 Hpre2 Hsame Hl1 Hl2.
  apply HandleAWSLambda_declared in Hl1 as (Hcache1 & Hopt1 & Hsrc1 & Hcrs1 & _).
  apply HandleAWSLambda_declared in Hl2 as (Hcache2 & Hopt2 & Hsrc2 & Hcrs2 & _).
  destruct (lambdaFunctionName_component l1 pre1 c1) as [Hn1 _]; try done.
  destruct (lambdaFunctionName_component l2 pre2 c2) as [Hn2 _]; try done.
  assert (Hder : Forall derivable [l1; l2]).
  { repeat constructor; eexists; [by rewrite Hn1|by rewrite Hn2]. }
  assert (Hnames : definedNames [l1; l2] = [sanitizedName c1; sanitizedName c1]).
  { unfold definedNames, nameOf. cbn [flat_map]. rewrite Hn1, Hn2, Hcrs1, Hcrs2, Hsame. done. }
  destruct (validateSpartaPreconditions_text [l1; l2] tr Hder) as (dups & _ & Hdups & Htext).
  assert (Hin : sanitizedName c1 ∈ dups).
  { apply Hdups. rewrite Hnames. rewrite !filter_cons_True by done. cbn. lia. }
  cbv zeta in Htext.
  set (lines := signatureErrors [l1; l2] ++ _) in Htext.
  assert (Hline : ("Multiple definitions of lambda: " +:+ sanitizedName c1) ∈ lines).
  { unfold lines. apply elem_of_app. right.
    change (map ?f ?l) with (f <$> l). apply list_elem_of_fmap. eauto. }
  exists lines. destruct lines as [|line lines]; [by apply elem_of_nil in Hline|].
  split; [done|]. split; [done|].
  intros a heap Ha. unfold Provision. rewrite Ha.
  destruct (validateSpartaPreconditions [l1; l2] tr) as [[v infos] tr1].
  cbn [fst snd] in Htext. by subst v.
Qed.

End Declarations.

Lemma validateSpartaPreconditions_reports_witness :
  let infos := [simpleLambda "main" "ops"; simpleLambda "main" "ops"] in
  ∃ dups,
    NoDup dups
    ∧ (∀ n, n ∈ dups ↔ 2 ≤ length (filter (eq n) (@definedNames quietWorld infos)))
    ∧ let errorText :=
        @signatureErrors quietWorld infos
        ++ map (fun n => "Multiple definitions of lambda: " +:+ n) dups in
      match errorText with
      | [] => (@validateSpartaPreconditions quietWorld infos []).1.1 = Ret None
              ∨ (@validateSpartaPreconditions quietWorld infos []).1.1
                = Ret (Some sysinfoMessage)
      | _ :: _ => (@validateSpartaPreconditions quietWorld infos []).1.1
                  = Ret (Some (GoStrings.Join errorText newline))
      end.
Proof.
  intros infos.
  apply (@validateSpartaPreconditions_reports quietWorld infos []).
  apply Forall_cons_2; [|apply Forall_cons_2; [|apply Forall_nil_2]];
    (exists "main"; vm_compute; reflexivity).
Defined.

Section LogicalNames.
Context `{Externals}.

Lemma removeUnderscores_alphanumeric s :
  wordOnly s = true → alphanumericOnly (removeUnderscores s) = true.
Proof.
  induction s as [|c s IH]; [done|]. cbn [wordOnly removeUnderscores].
  intros [Hc Hs]%andb_prop. destruct (Ascii.eqb c "_") eqn:Hu; [by apply IH|].
  cbn [alphanumericOnly]. by rewrite Hc, Hu, IH.
Qed.

Lemma alphanumericOnly_fixed s :
  alphanumericOnly s = true → removeUnderscores (sanitizedName s) = s.
Proof.
  intros Hs.
  assert (Hw : wordOnly s = true).
  { induction s as [|c s IH]; [done|]. cbn [alphanumericOnly wordOnly] in *.
    apply andb_prop in Hs as [[Hc _]%andb_prop Hs]. by rewrite Hc, IH. }
  unfold sanitizedName, GoStrings.reSanitize_ReplaceAllString.
  rewrite reSanitize_aux_word by done. clear Hw.
  induction s as [|c s IH]; [done|]. cbn [alphanumericOnly removeUnderscores] in *.
  apply andb_prop in Hs as [[_ Hu]%andb_prop Hs].
  apply negb_true_iff in Hu. by rewrite Hu, IH.
Qed.

(** X9.  [LogicalResourceName] panics when [lambdaFunctionName] does.
    Otherwise it returns [CloudFormationResourceName] of a prefix and the
    function name, the prefix being a string of letters and digits only
    followed by [Lambda]; that string is the function name itself when the
    name has letters and digits only.  The declaration is left as one
    derivation of the name leaves it. *)
Theorem LogicalResourceName_prefix (info : LambdaAWSInfo) :
  match lambdaFunctionName info with
  | (Ret name, info') =>
      ∃ resourceName,
        LogicalResourceName info
        = (Ret (CloudFormationResourceName (resourceName +:+ "Lambda") [name]), info')
        ∧ alphanumericOnly resourceName = true
        ∧ (alphanumericOnly name = true → resourceName = name)
  | (Panic m, info') => LogicalResourceName info = (Panic m, info')
  end.
Proof.
  unfold LogicalResourceName.
  pose proof (lambdaFunctionName_again info) as Hagain.
  destruct (lambdaFunctionName info) as [[name|m] info'] eqn:Hn; [|done].
  cbn [snd] in Hagain. rewrite Hagain.
  exists (removeUnderscores (sanitizedName name)). split; [done|]. split.
  - apply removeUnderscores_alphanumeric, reSanitize_aux_wordOnly.
  - apply alphanumericOnly_fixed.
Qed.

End LogicalNames.

Lemma HandleAWSLambda_name_collision_witness :
  let first := HandleAWSLambda "pkg/a.Hello" (Some 1) (RoleNameArgument "ops") ∅ in
  let second := HandleAWSLambda "a_Hello" (Some 2) (RoleNameArgument "ops") first.2 in
  ∃ l1 l2 lines,
    first.1 = Ret l1 ∧ second.1 = Ret l2
    ∧ (@validateSpartaPreconditions quietWorld [l1; l2] []).1.1
      = Ret (Some (GoStrings.Join lines newline))
    ∧ "Multiple definitions of lambda: a_Hello" ∈ lines.
Proof.
  intros first second.
  destruct (@HandleAWSLambda_name_collision quietWorld
              "pkg/" "a.Hello" "" "a_Hello" (Some 1) (Some 2)
              (RoleNameArgument "ops") (RoleNameArgument "ops") ∅ ∅ ∅
              (match first.1 with Ret l => l | Panic _ => simpleLambda "" "" end)
              (match second.1 with Ret l => l | Panic _ => simpleLambda "" "" end)
              [] eq_refl eq_refl eq_refl eq_refl
              (or_intror (ex_intro _ "pkg" eq_refl)) (or_introl eq_refl)
              eq_refl eq_refl eq_refl)
    as (lines & Hv & Hline & _).
  eexists _, _, lines. split; [reflexivity|]. split; [reflexivity|]. split; [exact Hv|exact Hline].
Defined.

(** ** Calls made by a computation *)

Section Keeps.
Context {S : Type} (tr_of : S → list event) (I : S → Prop) (P : call → bool).

Lemma keeps_ret {A} (a : A) : keeps tr_of I P (ret a).
Proof.
  intros s Hs. split; [done|]. exists []. by rewrite app_nil_r.
Qed.

Lemma keeps_bind {A B} (m : St S A) (k : A → St S B) :
  keeps tr_of I P m → (∀ a, keeps tr_of I P (k a)) → keeps tr_of I P (bind m k).
Proof.
  intros Hm Hk s Hs. unfold bind.
  destruct (Hm s Hs) as (Hs1 & d1 & Ht1 & Hf1).
  destruct (m s) as [a s1]. cbn [fst snd] in *.
  destruct (Hk a s1 Hs1) as (Hs2 & d2 & Ht2 & Hf2).
  split; [done|]. exists (d1 ++ d2).
  rewrite Ht2, Ht1, <- app_assoc. split; [done|]. by apply Forall_app.
Qed.

Lemma keeps_run_all (tasks : list (St S unit)) :
  Forall (keeps tr_of I P) tasks → keeps tr_of I P (run_all tasks).
Proof.
  induction 1 as [|t tasks Ht Hall IH]; cbn [run_all].
  - apply keeps_ret.
  - apply keeps_bind; [done|]. by intros _.
Qed.

End Keeps.

Lemma keeps_weaken {S A} (tr_of : S → list event) (I : S → Prop) (P Q : call → bool)
    (m : St S A) :
  (∀ c, P c = true → Q c = true) → keeps tr_of I P m → keeps tr_of I Q m.
Proof.
  intros HPQ Hm s Hs. destruct (Hm s Hs) as (Hs1 & d & Ht & Hf).
  split; [done|]. exists d. split; [done|].
  eapply Forall_impl; [exact Hf|]. intros ev. apply HPQ.
Qed.

Section Calls.
Context `{Externals}.

Lemma callsOnly_ext P c : P c = true → callsOnly P (ext c).
Proof.
  intros Hc tr _. split; [done|]. unfold ext. cbn [snd].
  eexists. split; [reflexivity|]. by repeat constructor.
Qed.

Lemma callsOnly_log P level message :
  P (Log level message) = true → callsOnly P (log level message).
Proof.
  intros Hc tr _. split; [done|]. unfold log. cbn [snd].
  eexists. split; [reflexivity|]. by repeat constructor.
Qed.

(** Code that only talks to the outside world leaves the context alone. *)
Lemma keeps_liftW {A} (J : workflowContext → Prop) P (m : W A) :
  callsOnly P m → keeps trace (fun s => J (ctx s)) P (liftW m).
Proof.
  intros Hm s Hs. unfold liftW.
  destruct (Hm (trace s) Logic.I) as (_ & d & Ht & Hf).
  destruct (m (trace s)) as [a tr]. cbn [fst snd ctx trace] in *.
  split; [done|]. by exists d.
Qed.

Lemma keeps_getCtx {A} (J : workflowContext → Prop) P (k : workflowContext → Step_ A) :
  (∀ c, J c → keeps trace (fun s => J (ctx s)) P (k c)) →
  keeps trace (fun s => J (ctx s)) P (bind getCtx k).
Proof. intros Hk s Hs. unfold bind, getCtx. by apply Hk. Qed.

Lemma keeps_modifyCtx (J : workflowContext → Prop) P (f : workflowContext → workflowContext) :
  (∀ c, J c → J (f c)) → keeps trace (fun s => J (ctx s)) P (modifyCtx f).
Proof.
  intros Hf s Hs. unfold modifyCtx. cbn [fst snd ctx trace].
  split; [by apply Hf|]. exists []. by rewrite app_nil_r.
Qed.

(** The tasks of the upload step work on the context through [uploadLift]. *)
Lemma keeps_uploadLift {A} (J : workflowContext → Prop) P (m : Step_ A) :
  keeps trace (fun s => J (ctx s)) P m →
  keeps (fun x : uploadState => trace x.2) (fun x => J (ctx x.2)) P (uploadLift m).
Proof.
  intros Hm [errs s] Hs. unfold uploadLift. cbn [fst snd] in *.
  destruct (Hm s Hs) as (Hs1 & d & Ht & Hf).
  destruct (m s) as [a s1]. cbn [fst snd] in *. split; [done|]. by exists d.
Qed.

Lemma keeps_appendUploadError (J : workflowContext → Prop) P e :
  keeps (fun x : uploadState => trace x.2) (fun x => J (ctx x.2)) P (appendUploadError e).
Proof.
  intros [errs s] Hs. unfold appendUploadError. cbn [fst snd].
  split; [done|]. exists []. by rewrite app_nil_r.
Qed.

End Calls.

(** Follows a computation call by call. *)
Ltac keeps_step :=
  first
    [ apply keeps_ret
    | apply callsOnly_log; reflexivity
    | apply callsOnly_ext; reflexivity
    | apply keeps_appendUploadError
    | apply keeps_uploadLift
    | apply keeps_liftW
    | apply keeps_getCtx; intros ? ?
    | apply keeps_bind; [|intros ?]
    | match goal with
      | |- keeps _ _ _ (match ?x with _ => _ end) => destruct x
      | |- callsOnly _ (match ?x with _ => _ end) => destruct x
      end ].
Ltac keeps_all := repeat keeps_step.

Section StepCalls.
Context `{Externals}.

Lemma callsOnly_exportLambdas P infos :
  (∀ n, P (ExportLambda n) = true) → callsOnly P (exportLambdas infos).
Proof.
  intros HP. induction infos as [|l infos IH]; cbn [exportLambdas]; [apply keeps_ret|].
  apply keeps_bind; [by apply callsOnly_ext|]. intros [p|e]; [done|apply keeps_ret].
Qed.

Lemma callsOnly_checkRoleNames P names m :
  (∀ level message, P (Log level message) = true) → (∀ n, P (IAMGetRole n) = true) →
  callsOnly P (checkRoleNames names m).
Proof.
  intros Hlog Hrole. induction names as [|n names IH] in m |- *; cbn [checkRoleNames].
  - apply keeps_ret.
  - destruct (m !! n); [apply IH|].
    apply keeps_bind; [by apply callsOnly_log|]. intros _.
    apply keeps_bind; [by apply callsOnly_ext|]. intros [arn|err]; [apply IH|].
    apply keeps_bind; [by apply callsOnly_log|]. intros _. apply keeps_ret.
Qed.

Lemma keeps_verifyIAMRoles (J : workflowContext → Prop) P :
  (∀ level message, P (Log level message) = true) → (∀ n, P (IAMGetRole n) = true) →
  (∀ c t m, J c → J (set_lambdaIAMRoleNameMap m (set_cfTemplate t c))) →
  keeps trace (fun s => J (ctx s)) P (runStep verifyIAMRoles).
Proof.
  intros Hlog Hrole HJ s Hs. unfold runStep, verifyIAMRoles, log.
  set (st := collectAllRoles (ctx s) (heap s)).
  destruct (callsOnly_checkRoleNames P (allRoleNames st) (rs_map st) Hlog Hrole
              (trace s ++ [(Log Info "Verifying IAM Lambda execution roles", ROk "")])
              Logic.I) as (_ & d & Ht & Hf).
  destruct (checkRoleNames _ _ _) as [[err m] tr]. cbn [fst snd] in *. subst tr.
  destruct err as [e|]; cbn [fst snd ctx trace].
  - split; [by apply HJ|]. eexists. rewrite <- app_assoc. split; [reflexivity|].
    constructor; [apply Hlog|done].
  - split; [by apply HJ|]. eexists. rewrite <- !app_assoc. split; [reflexivity|].
    constructor; [apply Hlog|]. apply Forall_app. split; [done|].
    constructor; [apply Hlog|done].
Qed.

Lemma keeps_createPackageStep (J : workflowContext → Prop) P :
  (∀ c, isPackageCall c = true → P c = true) →
  keeps trace (fun s => J (ctx s)) P (runStep createPackageStep).
Proof.
  intros HP. apply keeps_weaken with isPackageCall; [done|].
  unfold runStep, createPackageStep, packageArchive, buildGoBinary, removeBinary,
    callWorkflowHook, logFilesize, writeNodeJSShim, writeCustomResources,
    customResourceScripts, hookOf.
  cbn [writeCustomResources_loop].
  keeps_all.
Qed.

Lemma keeps_primaryUploadTask (J : workflowContext → Prop) P packagePath :
  (∀ c, isUploadCall c = true → P c = true) →
  (∀ c k, J c → J (set_s3LambdaZipKey k c)) →
  (∀ c k, J c → J (set_s3SiteLambdaZipKey k c)) →
  (∀ c f, J c → J (registerRollback f c)) →
  keeps (fun x : uploadState => trace x.2) (fun x => J (ctx x.2)) P
        (primaryUploadTask packagePath).
Proof.
  intros HP HJ1 HJ2 HJ3. apply keeps_weaken with isUploadCall; [done|].
  unfold primaryUploadTask, logFilesize, uploadLocalFileToS3, ensureExpirationPolicy,
    removeLocalFile.
  keeps_all; apply keeps_modifyCtx; intros; auto.
Qed.

Lemma keeps_siteUploadTask (J : workflowContext → Prop) P site :
  (∀ c, isUploadCall c = true → P c = true) →
  (∀ c k, J c → J (set_s3LambdaZipKey k c)) →
  (∀ c k, J c → J (set_s3SiteLambdaZipKey k c)) →
  (∀ c f, J c → J (registerRollback f c)) →
  keeps (fun x : uploadState => trace x.2) (fun x => J (ctx x.2)) P
        (siteUploadTask site).
Proof.
  intros HP HJ1 HJ2 HJ3. apply keeps_weaken with isUploadCall; [done|].
  unfold siteUploadTask, logFilesize, uploadLocalFileToS3, ensureExpirationPolicy,
    removeLocalFile.
  keeps_all; apply keeps_modifyCtx; intros; auto.
Qed.

Lemma keeps_createUploadStep (J : workflowContext → Prop) P packagePath :
  (∀ c, isUploadCall c = true → P c = true) →
  (∀ c k, J c → J (set_s3LambdaZipKey k c)) →
  (∀ c k, J c → J (set_s3SiteLambdaZipKey k c)) →
  (∀ c f, J c → J (registerRollback f c)) →
  keeps trace (fun s => J (ctx s)) P (runStep (createUploadStep packagePath)).
Proof.
  intros HP HJ1 HJ2 HJ3 s Hs. unfold runStep, createUploadStep.
  set (tasks := primaryUploadTask packagePath :: _).
  assert (Htasks : Forall (keeps (fun x : uploadState => trace x.2)
                                 (fun x => J (ctx x.2)) P) tasks).
  { unfold tasks. apply Forall_cons_2; [by apply keeps_primaryUploadTask|].
    destruct (s3Site (ctx s)) as [site|]; [|apply Forall_nil_2].
    apply Forall_cons_2; [by apply keeps_siteUploadTask|apply Forall_nil_2]. }
  assert (Hpicked : Forall (keeps (fun x : uploadState => trace x.2)
                                  (fun x => J (ctx x.2)) P)
                           (pick_order (schedule (trace s)) tasks)).
  { by rewrite pick_order_perm. }
  destruct (keeps_run_all _ _ _ _ Hpicked ([], s) Hs) as (Hs1 & d & Ht & Hf).
  destruct (run_all (pick_order (schedule (trace s)) tasks) ([], s)) as [u [errs s']].
  cbn [fst snd] in *.
  destruct (0 <? length errs)%nat; [destruct (uploadErrorLoop errs uploadErrorHeader)|];
    cbn [fst snd]; (split; [done|by exists d]).
Qed.

(** The assembly step up to the stack operation, which the caller
    describes. *)
Lemma keeps_ensureCloudFormationStack (J : workflowContext → Prop) P :
  (∀ c, isAssemblyCall c = true →
        match c with ConvergeStackState _ _ _ _ => False | _ => True end → P c = true) →
  (∀ c t, J c → J (set_cfTemplate t c)) →
  (∀ c, J c → keeps trace (fun s => J (ctx s)) P (convergeStack c)) →
  keeps trace (fun s => J (ctx s)) P (runStep ensureCloudFormationStack).
Proof.
  intros HP HJ Hconverge.
  assert (HPexport : ∀ n, P (ExportLambda n) = true) by (intros; by apply HP).
  assert (Hlog : ∀ level message, callsOnly P (log level message)).
  { intros. apply callsOnly_log. by apply HP. }
  assert (Hext : ∀ c, isAssemblyCall c = true →
                      match c with ConvergeStackState _ _ _ _ => False | _ => True end →
                      callsOnly P (ext c)).
  { intros. apply callsOnly_ext. by apply HP. }
  unfold runStep, ensureCloudFormationStack, applyCloudFormationOperation,
    callWorkflowHook, exportAPIGateway, S3Site_export, decorateService, hookOf.
  repeat first
    [ apply keeps_ret
    | apply Hlog
    | apply Hext; [reflexivity|exact Logic.I]
    | apply callsOnly_exportLambdas; exact HPexport
    | apply keeps_modifyCtx; intros; by apply HJ
    | apply Hconverge; assumption
    | apply keeps_liftW
    | apply keeps_getCtx; intros ? ?
    | apply keeps_bind; [|intros ?]
    | match goal with
      | |- keeps _ _ _ (match ?x with _ => _ end) => destruct x
      | |- callsOnly _ (match ?x with _ => _ end) => destruct x
      end ].
Qed.

Lemma keeps_convergeStack (J : workflowContext → Prop) P c :
  (∀ c, isAssemblyCall c = true → P c = true) →
  (∀ c f, J c → J (registerRollback f c)) →
  keeps trace (fun s => J (ctx s)) P (convergeStack c).
Proof.
  intros HP HJ. apply keeps_weaken with isAssemblyCall; [done|].
  unfold convergeStack.
  keeps_all; apply keeps_modifyCtx; intros; by apply HJ.
Qed.

End StepCalls.

(** ** Values returned by a computation *)

Section Returns.
Context {S : Type}.

Lemma returns_ret {A} (Q : A → Prop) (a : A) : Q a → returns (S:=S) Q (ret a).
Proof. by intros Ha s. Qed.

Lemma returns_bind {A B} (Q1 : A → Prop) (Q : B → Prop) (m : St S A) (k : A → St S B) :
  returns Q1 m → (∀ a, Q1 a → returns Q (k a)) → returns Q (bind m k).
Proof.
  intros Hm Hk s. unfold bind. specialize (Hm s).
  destruct (m s) as [a s1]. by apply Hk.
Qed.

Lemma returns_bind_any {A B} (Q : B → Prop) (m : St S A) (k : A → St S B) :
  (∀ a, returns Q (k a)) → returns Q (bind m k).
Proof. intros Hk. apply returns_bind with (fun _ => True); [done|]. intros a _. apply Hk. Qed.

End Returns.

Lemma returns_liftW {A} (Q : A → Prop) (m : W A) : returns Q m → returns Q (liftW m).
Proof.
  intros Hm s. unfold liftW. specialize (Hm (trace s)). by destruct (m (trace s)).
Qed.

(** Follows a computation to the values it can return. *)
Ltac returns_step :=
  first
    [ apply returns_ret
    | apply returns_bind_any; intros ?
    | match goal with
      | |- returns _ (match ?x with _ => _ end) => destruct x
      end ].

Section Chain.
Context `{Externals}.

Lemma runWorkflow_eq step s :
  runWorkflow step s
  = match runStep step s with
    | ((_, Some err), s1) =>
        let (_, s2) := rollback s1 in
        let (_, s3) := liftW (log Error err) s2 in
        (Some err, s3)
    | ((None, None), s1) =>
        let (_, s2) := liftW (log Info "Elapsed time") s1 in
        (None, s2)
    | ((Some next, None), s1) => runWorkflow next s1
    end.
Proof. by destruct step. Qed.

(** The next step of each step. *)
Lemma verifyIAMRoles_next s :
  match (runStep verifyIAMRoles s).1 with
  | (Some next, None) => next = createPackageStep
  | (None, Some _) => True
  | _ => False
  end.
Proof.
  unfold runStep, verifyIAMRoles, log.
  destruct (checkRoleNames _ _ _) as [[[e|] m] tr]; done.
Qed.

Lemma packageArchive_returns c name executableOutput :
  returns (fun r => match r with
                    | (Some next, None) => ∃ tmp, next = createUploadStep tmp
                    | (None, Some _) => True
                    | _ => False
                    end)
          (packageArchive c name executableOutput).
Proof.
  unfold packageArchive.
  repeat returns_step; try done. by eexists.
Qed.

Lemma createPackageStep_next s :
  match (runStep createPackageStep s).1 with
  | (Some next, None) => ∃ tmp, next = createUploadStep tmp
  | (None, Some _) => True
  | _ => False
  end.
Proof.
  revert s. change (returns (fun r => match r with
                    | (Some next, None) => ∃ tmp, next = createUploadStep tmp
                    | (None, Some _) => True
                    | _ => False
                    end) (runStep createPackageStep)).
  unfold runStep, createPackageStep.
  apply returns_bind_any; intros c.
  apply returns_bind_any; intros [e|]; [by apply returns_ret|].
  apply returns_bind_any; intros [e|]; [by apply returns_ret|].
  eapply returns_bind; [apply returns_liftW, packageArchive_returns|].
  intros r Hr. apply returns_bind_any; intros _. by apply returns_ret.
Qed.

Lemma createUploadStep_next packagePath s :
  match (runStep (createUploadStep packagePath) s).1 with
  | (Some next, None) => next = ensureCloudFormationStack
  | (None, Some _) => True
  | _ => False
  end.
Proof.
  destruct (createUploadStep_progress packagePath s) as (errs & _ & Hr).
  cbv zeta in Hr. destruct errs; by rewrite Hr.
Qed.

Lemma ensureCloudFormationStack_next s :
  (runStep ensureCloudFormationStack s).1.1 = None.
Proof.
  revert s. change (returns (fun r : option workflowStep * option error => r.1 = None)
                            (runStep ensureCloudFormationStack)).
  unfold runStep, ensureCloudFormationStack, applyCloudFormationOperation, convergeStack.
  repeat returns_step; done.
Qed.

End Chain.

(** ** Calls of the workflow steps, dry runs *)

Section StepsAndCalls.
Context `{Externals}.

(** X10.  Each workflow step makes calls of its own kind only, whatever
    the outside world answers: [verifyIAMRoles] logs and looks up IAM
    roles; the package step logs, runs the build hooks and the Go tool
    chain, and touches local files and the archive; the upload step logs,
    touches local files and archives, reads the lifecycle configuration of
    the bucket and uploads; [ensureCloudFormationStack] logs, runs the
    marshalling hooks, exports, merges and marshals the template and
    converges the stack.  The package step leaves the context unchanged. *)
Theorem workflow_steps_calls (s : state) (packagePath : string) :
  (∃ delta, trace (runStep verifyIAMRoles s).2 = trace s ++ delta
            ∧ Forall (fun ev => isRoleCall ev.1 = true) delta)
  ∧ (∃ delta, trace (runStep createPackageStep s).2 = trace s ++ delta
              ∧ Forall (fun ev => isPackageCall ev.1 = true) delta
              ∧ ctx (runStep createPackageStep s).2 = ctx s)
  ∧ (∃ delta, trace (runStep (createUploadStep packagePath) s).2 = trace s ++ delta
              ∧ Forall (fun ev => isUploadCall ev.1 = true) delta)
  ∧ (∃ delta, trace (runStep ensureCloudFormationStack s).2 = trace s ++ delta
              ∧ Forall (fun ev => isAssemblyCall ev.1 = true) delta).
Proof.
  split; [|split; [|split]].
  - destruct (keeps_verifyIAMRoles (fun _ => True) isRoleCall) with (s := s)
      as (_ & d & Ht & Hf); try done. by exists d.
  - destruct (keeps_createPackageStep (fun c => c = ctx s) isPackageCall) with (s := s)
      as (Hc & d & Ht & Hf); try done. by exists d.
  - destruct (keeps_createUploadStep (fun _ => True) isUploadCall packagePath) with (s := s)
      as (_ & d & Ht & Hf); try done. by exists d.
  - destruct (keeps_ensureCloudFormationStack (fun _ => True) isAssemblyCall) with (s := s)
      as (_ & d & Ht & Hf); try done.
    + intros c _. exact (keeps_convergeStack (fun _ => True) isAssemblyCall c
                     (fun _ Hc => Hc) (fun _ _ _ => Logic.I)).
    + by exists d.
Qed.

Lemma runWorkflow_chainKeeps J P n step :
  chainKeeps J P n step →
  keeps trace (fun s => J (ctx s)) P rollback →
  (∀ level message, P (Log level message) = true) →
  keeps trace (fun s => J (ctx s)) P (runWorkflow step).
Proof.
  intros Hchain Hrb Hlog. induction n as [|n IH] in step, Hchain |- *;
    destruct Hchain as [Hk Hnext]; intros s Hs; rewrite runWorkflow_eq;
    destruct (Hk s Hs) as (Hs1 & d1 & Ht1 & Hf1); specialize (Hnext s);
    destruct (runStep step s) as [[next err] s1]; cbn [fst snd] in *.
  all: destruct err as [e|]; destruct next as [next|].
  all: try (destruct (Hrb s1 Hs1) as (Hs2 & d2 & Ht2 & Hf2);
            destruct (rollback s1) as [u s2]; cbn [fst snd] in *;
            unfold liftW, log; cbn [fst snd ctx trace];
            split; [done|]; exists (d1 ++ d2 ++ [(Log Error e, ROk "")]);
            rewrite Ht2, Ht1, <- !app_assoc; split; [done|];
            rewrite !Forall_app; repeat split; try done;
            constructor; [apply Hlog|constructor]).
  all: try (exfalso; exact Hnext).
  all: try (unfold liftW, log; cbn [fst snd ctx trace];
            split; [done|]; exists (d1 ++ [(Log Info "Elapsed time", ROk "")]);
            rewrite Ht1, <- !app_assoc; split; [done|];
            rewrite !Forall_app; split; [done|];
            constructor; [apply Hlog|constructor]).
  destruct (IH next Hnext s1 Hs1) as (Hs2 & d2 & Ht2 & Hf2).
  split; [done|]. exists (d1 ++ d2). rewrite Ht2, Ht1, <- app_assoc.
  split; [done|]. by apply Forall_app.
Qed.

(** *** Dry runs *)

Lemma notDeployment_false c : notDeployment c = true ↔ isDeploymentCall c = false.
Proof. unfold notDeployment. by destruct (isDeploymentCall c). Qed.

Lemma dry_rollback : keeps trace (fun s => dryContext (ctx s)) notDeployment rollback.
Proof.
  intros s [Hn Hr].
  destruct (rollback_calls s) as (Hc & _ & acts & Ht & Hdel & _ & _ & Hf).
  rewrite Hc. split; [done|]. eexists. split; [exact Ht|].
  constructor; [done|]. rewrite Hr in Hdel. apply Permutation_nil_r in Hdel.
  clear Ht. induction Hf as [|[c r] acts Hc' Hf IH]; [constructor|].
  cbn [fst] in Hc'. destruct c; try discriminate Hc'.
  - unfold deletions in Hdel. cbn in Hdel. discriminate Hdel.
  - constructor; [done|]. apply IH. exact Hdel.
  - constructor; [done|]. apply IH. exact Hdel.
Qed.

Lemma dry_verifyIAMRoles :
  keeps trace (fun s => dryContext (ctx s)) notDeployment (runStep verifyIAMRoles).
Proof. by apply keeps_verifyIAMRoles. Qed.

Lemma dry_createPackageStep :
  keeps trace (fun s => dryContext (ctx s)) notDeployment (runStep createPackageStep).
Proof. apply keeps_createPackageStep. by intros []. Qed.

Lemma dry_createUploadStep packagePath :
  keeps trace (fun s => dryContext (ctx s)) notDeployment
        (runStep (createUploadStep packagePath)).
Proof.
  intros s [Hn Hr].
  destruct (createUploadStep_progress packagePath s) as (errs & Hprog & _).
  destruct Hprog as ((Hnoop & _) & _ & d & newErrors & Ht & _ & Hrf & Hdry).
  cbn [fst snd] in *. specialize (Hdry Hn).
  destruct (keeps_createUploadStep (fun _ => True) isUploadCall packagePath) with (s := s)
    as (_ & d' & Ht' & Hf'); try done.
  rewrite Ht in Ht'. apply app_inv_head in Ht'. subst d'.
  split.
  - split; [congruence|]. rewrite Hrf, Hr, uploadedObjects_no_storage by done. done.
  - exists d. split; [done|].
    apply Forall_forall. intros [c r] Hin.
    rewrite Forall_forall in Hdry, Hf'. specialize (Hdry _ Hin). specialize (Hf' _ Hin).
    cbn [fst] in *. unfold notDeployment, isDeploymentCall. rewrite Hdry.
    by destruct c.
Qed.

Lemma dry_ensureCloudFormationStack :
  keeps trace (fun s => dryContext (ctx s)) notDeployment
        (runStep ensureCloudFormationStack).
Proof.
  apply keeps_ensureCloudFormationStack.
  - by intros [].
  - by intros c t [? ?].
  - intros c [Hn Hr]. unfold convergeStack. rewrite Hn. keeps_all.
Qed.

Lemma dry_chain : chainKeeps dryContext notDeployment 3 verifyIAMRoles.
Proof.
  split; [apply dry_verifyIAMRoles|]. intros s.
  pose proof (verifyIAMRoles_next s) as Hnext.
  destruct (runStep verifyIAMRoles s).1 as [[next|] [e|]]; try done. subst next.
  split; [apply dry_createPackageStep|]. intros s1.
  pose proof (createPackageStep_next s1) as Hnext.
  destruct (runStep createPackageStep s1).1 as [[next|] [e|]]; try done.
  destruct Hnext as [tmp ->].
  split; [apply dry_createUploadStep|]. intros s2.
  pose proof (createUploadStep_next tmp s2) as Hnext.
  destruct (runStep (createUploadStep tmp) s2).1 as [[next|] [e|]]; try done. subst next.
  split; [apply dry_ensureCloudFormationStack|]. intros s3.
  by rewrite ensureCloudFormationStack_next.
Qed.

(** X11.  In a dry run, [Provision] makes no call to object storage and
    no call to the deployment service, in any step and in the rollback that
    follows a failed step: no lifecycle look-up, no upload, no deletion, no
    stack operation.  The context it ends with is still a dry run and has
    no rollback action registered. *)
Theorem Provision_dry_run (a : provisionArgs) (h : roleHeap) (tr : list event) :
  arg_noop a = true →
  (∃ delta, final_trace (Provision a h tr) = tr ++ delta
            ∧ Forall (fun ev => isDeploymentCall ev.1 = false) delta)
  ∧ ∀ c, final_ctx (Provision a h tr) = Some c → noop c = true ∧ rollbackFunctions c = [].
Proof.
  intros Hnoop.
  destruct (validateSpartaPreconditions_calls (arg_lambdaAWSInfos a) tr) as (d & Ht & Hf).
  assert (Hd : Forall (fun ev => isDeploymentCall ev.1 = false) d).
  { eapply Forall_impl; [exact Hf|]. intros [c r]. cbn [fst]. by destruct c. }
  unfold Provision.
  destruct (validateSpartaPreconditions (arg_lambdaAWSInfos a) tr) as [[v infos] tr1].
  cbn [fst snd] in *. subst tr1.
  destruct v as [[e|]|m]; cbn [final_trace final_ctx].
  - split; [by exists d|done].
  - unfold log. cbn [fst snd].
    destruct (length (arg_lambdaAWSInfos a) <=? 0)%nat; cbn [final_trace final_ctx].
    + split.
      * exists (d ++ [(Log Info "Provisioning service", ROk "")]).
        rewrite app_assoc. split; [done|]. apply Forall_app. split; [done|].
        by repeat constructor.
      * intros c [= <-]. done.
    + set (s0 := mkState _ h _).
      destruct (runWorkflow_chainKeeps dryContext notDeployment 3 verifyIAMRoles
                  dry_chain dry_rollback (fun _ _ => eq_refl) s0)
        as (Hdry & d2 & Ht2 & Hf2); [done|].
      destruct (runWorkflow verifyIAMRoles s0) as [r s1]. cbn [fst snd final_trace final_ctx] in *.
      split.
      * exists ((d ++ [(Log Info "Provisioning service", ROk "")]) ++ d2).
        rewrite Ht2. unfold s0. cbn [trace]. rewrite <- !app_assoc. split; [done|].
        rewrite !Forall_app. repeat split; [done|by repeat constructor|].
        eapply Forall_impl; [exact Hf2|]. intros ev. apply notDeployment_false.
      * intros c [= <-]. exact Hdry.
  - split; [by exists d|done].
Qed.

End StepsAndCalls.

Lemma Provision_dry_run_witness :
  let a := provisionOf [simpleLambda "alpha" "ops"] true
                       (Some (mkS3Site "./site" "S3SiteBucket")) in
  (∃ delta, final_trace (@Provision quietWorld a ∅ []) = [] ++ delta
            ∧ Forall (fun ev => isDeploymentCall ev.1 = false) delta)
  ∧ ∀ c, final_ctx (@Provision quietWorld a ∅ []) = Some c
         → noop c = true ∧ rollbackFunctions c = [].
Proof.
  intros a. exact (@Provision_dry_run quietWorld a ∅ [] eq_refl).
Defined.

(** ** The stack operation *)

Section Assembly.
Context `{Externals}.

Lemma convergeAnswers_app tr1 tr2 :
  convergeAnswers (tr1 ++ tr2) = convergeAnswers tr1 ++ convergeAnswers tr2.
Proof. apply omap_app. Qed.

Lemma convergeAnswers_none P delta :
  (∀ c, P c = true → notConverge c = true) →
  Forall (fun ev => P ev.1 = true) delta → convergeAnswers delta = [].
Proof.
  intros HP Hf. induction Hf as [|[c r] delta Hc Hf IH]; [done|].
  cbn [fst] in Hc. apply HP in Hc. unfold convergeAnswers in *. cbn [omap fst].
  destruct c; try discriminate Hc; exact IH.
Qed.

Lemma sums_error ref e : sums ref (ret (None, Some e)).
Proof.
  intros s Hs. exists []. unfold ret. cbn [fst snd]. rewrite app_nil_r. split; [done|].
  unfold hasSettings in Hs. unfold assemblyOutcome. cbn. rewrite <- Hs. done.
Qed.

Lemma sums_bind {A} ref (m : Step_ A) k :
  keeps trace (fun s => hasSettings ref (ctx s)) notConverge m →
  (∀ a, sums ref (k a)) → sums ref (bind m k).
Proof.
  intros Hm Hk s Hs. unfold bind.
  destruct (Hm s Hs) as (Hs1 & d1 & Ht1 & Hf1).
  destruct (m s) as [a s1]. cbn [fst snd] in *.
  destruct (Hk a s1 Hs1) as (d2 & Ht2 & Hout).
  exists (d1 ++ d2). rewrite Ht2, Ht1, <- app_assoc. split; [done|].
  unfold assemblyOutcome in *. rewrite convergeAnswers_app.
  rewrite (convergeAnswers_none notConverge d1) by done. exact Hout.
Qed.

Lemma sums_getCtx ref k :
  (∀ c, hasSettings ref c → sums ref (k c)) → sums ref (bind getCtx k).
Proof. intros Hk s Hs. unfold bind, getCtx. by apply Hk. Qed.

Lemma sums_convergeStack ref c :
  hasSettings ref c → sums ref (convergeStack c).
Proof.
  intros Hc s Hs. unfold hasSettings in Hc, Hs. unfold convergeStack.
  assert (Hn : noop c = as_noop ref) by (by rewrite <- Hc).
  assert (Hr : rollbackFunctions (ctx s) = as_rollbackFunctions ref) by (by rewrite <- Hs).
  assert (Ha : CreateS3RollbackFunc (s3Bucket c) (templateKeyName c) = as_templateAction ref)
    by (by rewrite <- Hc).
  destruct (noop c); run_monad; cbn [fst snd ctx trace].
  - eexists. split; [reflexivity|]. unfold assemblyOutcome. cbn. done.
  - set (tr1 := trace s ++ _).
    destruct (respond tr1 _) as [p|e] eqn:Hresp; cbn [fst snd ctx trace].
    + eexists. unfold tr1. rewrite <- !app_assoc. split; [reflexivity|].
      unfold assemblyOutcome, convergeAnswers. cbn [app omap fst snd].
      rewrite registerRollback_functions, Hr, Ha. done.
    + eexists. unfold tr1. rewrite <- !app_assoc. split; [reflexivity|].
      unfold assemblyOutcome. cbn. done.
Qed.

Lemma assemblySettingsOf_set_cfTemplate t c :
  assemblySettingsOf (set_cfTemplate t c) = assemblySettingsOf c.
Proof. reflexivity. Qed.

Lemma sums_ensureCloudFormationStack ref : sums ref (runStep ensureCloudFormationStack).
Proof.
  unfold runStep, ensureCloudFormationStack, applyCloudFormationOperation,
    callWorkflowHook, exportAPIGateway, S3Site_export, decorateService, hookOf.
  repeat first
    [ apply sums_error
    | apply sums_convergeStack; assumption
    | apply sums_getCtx; intros ? ?
    | apply sums_bind; [|intros ?]
    | match goal with
      | |- sums _ (match ?x with _ => _ end) => destruct x
      end
    | apply keeps_ret
    | apply callsOnly_log; reflexivity
    | apply callsOnly_ext; reflexivity
    | apply callsOnly_exportLambdas; reflexivity
    | apply keeps_modifyCtx; unfold hasSettings; intros ? <-;
      apply assemblySettingsOf_set_cfTemplate
    | apply keeps_liftW
    | apply keeps_bind; [|intros ?]
    | match goal with
      | |- keeps _ _ _ (match ?x with _ => _ end) => destruct x
      | |- callsOnly _ (match ?x with _ => _ end) => destruct x
      end ].
Qed.

(** X12.  [ensureCloudFormationStack] never returns a next step, and asks
    the deployment service to converge the stack at most once.  When it
    was not asked, the rollback actions are unchanged, and the step returns
    no error only in a dry run.  When it was asked and succeeded, the step
    returns no error and the action that deletes the uploaded template is
    registered after the actions already there.  When it was asked and
    failed, the step returns that error and registers nothing. *)
Theorem ensureCloudFormationStack_registers_after_converge (s : state) :
  let r := runStep ensureCloudFormationStack s in
  let templateAction := CreateS3RollbackFunc (s3Bucket (ctx s)) (templateKeyName (ctx s)) in
  r.1.1 = None
  ∧ ∃ delta,
      trace r.2 = trace s ++ delta
      ∧ match convergeAnswers delta with
        | [] => rollbackFunctions (ctx r.2) = rollbackFunctions (ctx s)
                ∧ (r.1.2 = None → noop (ctx s) = true)
        | [ROk _] => r.1.2 = None ∧ noop (ctx s) = false
                     ∧ rollbackFunctions (ctx r.2)
                       = rollbackFunctions (ctx s) ++ [templateAction]
        | [RErr e] => r.1.2 = Some e ∧ noop (ctx s) = false
                      ∧ rollbackFunctions (ctx r.2) = rollbackFunctions (ctx s)
        | _ => False
        end.
Proof.
  intros r templateAction. split; [apply ensureCloudFormationStack_next|].
  apply (sums_ensureCloudFormationStack (assemblySettingsOf (ctx s)) s eq_refl).
Qed.

Lemma runWorkflow_success step s :
  (runWorkflow step s).1 = None →
  (∃ s1, runStep step s = ((None, None), s1)
         ∧ runWorkflow step s
           = (None, mkState (ctx s1) (heap s1)
                            (trace s1 ++ [(Log Info "Elapsed time", ROk "")])))
  ∨ (∃ next s1, runStep step s = ((Some next, None), s1)
                ∧ runWorkflow step s = runWorkflow next s1).
Proof.
  rewrite runWorkflow_eq.
  destruct (runStep step s) as [[[next|] [e|]] s1].
  - destruct (rollback s1) as [u s2]. by cbn.
  - intros _. right. by exists next, s1.
  - destruct (rollback s1) as [u s2]. by cbn.
  - intros _. left. by exists s1.
Qed.

(** The steps before the assembly keep the dry run flag and never ask for
    the stack operation. *)
Lemma quiet_steps (n0 : bool) packagePath :
  let quiet step :=
    ∀ s, noop (ctx s) = n0 →
         noop (ctx (runStep step s).2) = n0
         ∧ ∃ delta, trace (runStep step s).2 = trace s ++ delta
                    ∧ convergeAnswers delta = [] in
  quiet verifyIAMRoles ∧ quiet createPackageStep ∧ quiet (createUploadStep packagePath).
Proof.
  intros quiet. split; [|split]; intros s Hs.
  - destruct (keeps_verifyIAMRoles (fun c => noop c = n0) notConverge) with (s := s)
      as (Hn & d & Ht & Hf); try done.
    split; [done|]. exists d. split; [done|]. by apply (convergeAnswers_none notConverge).
  - destruct (keeps_createPackageStep (fun c => noop c = n0) notConverge) with (s := s)
      as (Hn & d & Ht & Hf); try done; [by intros []|].
    split; [done|]. exists d. split; [done|]. by apply (convergeAnswers_none notConverge).
  - destruct (keeps_createUploadStep (fun c => noop c = n0) notConverge packagePath)
      with (s := s) as (Hn & d & Ht & Hf); try done; [by intros []|].
    split; [done|]. exists d. split; [done|]. by apply (convergeAnswers_none notConverge).
Qed.

(** X13.  When [Provision] returns no error, the deployment service was
    asked to converge the stack exactly once and answered with success,
    unless the run was a dry run, in which case it was never asked. *)
Theorem Provision_success_converged (a : provisionArgs) (h : roleHeap) (tr : list event) :
  returned (Provision a h tr) = Ret None →
  ∃ delta,
    final_trace (Provision a h tr) = tr ++ delta
    ∧ if arg_noop a then convergeAnswers delta = []
      else ∃ p, convergeAnswers delta = [ROk p].
Proof.
  intros Hret.
  destruct (validateSpartaPreconditions_calls (arg_lambdaAWSInfos a) tr) as (d & Ht & Hf).
  assert (Hd : convergeAnswers d = []).
  { apply (convergeAnswers_none isPreconditionCall); [by intros []|done]. }
  unfold Provision in *.
  destruct (validateSpartaPreconditions (arg_lambdaAWSInfos a) tr) as [[v infos] tr1].
  cbn [fst snd] in *. subst tr1.
  destruct v as [[e|]|m]; cbn [returned] in Hret; try discriminate Hret.
  unfold log in *. cbn [fst snd] in *.
  destruct (length (arg_lambdaAWSInfos a) <=? 0)%nat; [discriminate Hret|].
  set (s0 := mkState _ h _) in *.
  assert (Hn0 : noop (ctx s0) = arg_noop a) by reflexivity.
  assert (Hres : (runWorkflow verifyIAMRoles s0).1 = None).
  { destruct (runWorkflow verifyIAMRoles s0). cbn [returned] in Hret. by injection Hret. }
  clear Hret.
  (* verifyIAMRoles *)
  destruct (runWorkflow_success _ _ Hres) as [(s1 & Hrun & _)|(next & s1 & Hrun & Heq)].
  { pose proof (verifyIAMRoles_next s0) as Hnext. by rewrite Hrun in Hnext. }
  pose proof (verifyIAMRoles_next s0) as Hnext. rewrite Hrun in Hnext. cbn [fst] in Hnext.
  subst next. rewrite Heq in Hres.
  destruct (quiet_steps (arg_noop a) "") as (Hq1 & _ & _).
  destruct (Hq1 s0 Hn0) as (Hn1 & d1 & Ht1 & Hc1). rewrite Hrun in Hn1, Ht1. cbn [snd] in *.
  (* createPackageStep *)
  destruct (runWorkflow_success _ _ Hres) as [(s2 & Hrun2 & _)|(next & s2 & Hrun2 & Heq2)].
  { pose proof (createPackageStep_next s1) as Hnext. by rewrite Hrun2 in Hnext. }
  pose proof (createPackageStep_next s1) as Hnext. rewrite Hrun2 in Hnext.
  cbn [fst] in Hnext. destruct Hnext as [tmp ->]. rewrite Heq2 in Hres.
  destruct (quiet_steps (arg_noop a) tmp) as (_ & Hq2 & Hq3).
  destruct (Hq2 s1 Hn1) as (Hn2 & d2 & Ht2 & Hc2). rewrite Hrun2 in Hn2, Ht2. cbn [snd] in *.
  (* createUploadStep *)
  destruct (runWorkflow_success _ _ Hres) as [(s3 & Hrun3 & _)|(next & s3 & Hrun3 & Heq3)].
  { pose proof (createUploadStep_next tmp s2) as Hnext. by rewrite Hrun3 in Hnext. }
  pose proof (createUploadStep_next tmp s2) as Hnext. rewrite Hrun3 in Hnext.
  cbn [fst] in Hnext. subst next. rewrite Heq3 in Hres.
  destruct (Hq3 s2 Hn2) as (Hn3 & d3 & Ht3 & Hc3). rewrite Hrun3 in Hn3, Ht3. cbn [snd] in *.
  (* ensureCloudFormationStack *)
  destruct (runWorkflow_success _ _ Hres) as [(s4 & Hrun4 & Heq4)|(next & s4 & Hrun4 & _)].
  2:{ pose proof (ensureCloudFormationStack_next s3) as Hnext. by rewrite Hrun4 in Hnext. }
  destruct (sums_ensureCloudFormationStack (assemblySettingsOf (ctx s3)) s3 eq_refl)
    as (d4 & Ht4 & Hout).
  rewrite Hrun4 in Ht4, Hout. cbn [fst snd] in *.
  rewrite Heq, Heq2, Heq3, Heq4. cbn [final_trace trace].
  exists ((d ++ [(Log Info "Provisioning service", ROk "")]) ++ d1 ++ d2 ++ d3 ++ d4
          ++ [(Log Info "Elapsed time", ROk "")]).
  split.
  { rewrite Ht4, Ht3, Ht2, Ht1. unfold s0. cbn [trace]. by rewrite <- !app_assoc. }
  rewrite !convergeAnswers_app, Hd, Hc1, Hc2, Hc3. cbn [app].
  change (convergeAnswers [(Log Info "Provisioning service", ROk "")]) with (@nil response).
  change (convergeAnswers [(Log Info "Elapsed time", ROk "")]) with (@nil response).
  rewrite app_nil_r. cbn [app].
  unfold assemblyOutcome in Hout. cbn [as_noop as_rollbackFunctions assemblySettingsOf snd] in Hout.
  rewrite Hn3 in Hout.
  destruct (convergeAnswers d4) as [|[p|e] [|more]]; try done.
  - destruct Hout as [_ Hdry]. rewrite (Hdry eq_refl). done.
  - destruct Hout as (_ & -> & _). by exists p.
  - by destruct Hout as (? & _).
Qed.

End Assembly.

Lemma Provision_success_converged_witness :
  let a := provisionOf [simpleLambda "alpha" "ops"] false None in
  ∃ delta,
    final_trace (@Provision quietWorld a ∅ []) = [] ++ delta
    ∧ ∃ p, convergeAnswers delta = [ROk p].
Proof.
  intros a.
  assert (Hret : returned (@Provision quietWorld a ∅ []) = Ret None)
    by (vm_compute; reflexivity).
  exact (@Provision_success_converged quietWorld a ∅ [] Hret).
Defined.

(** ** Following a step along every path *)

Section Runs.
Context `{Externals}.
Context {A : Type}.
Implicit Types (Φ : list event → A → workflowContext → Prop).

Lemma runs_ret c0 Φ (a : A) : Φ [] a c0 → runs c0 Φ (ret a).
Proof.
  intros Ha s Hs. exists []. unfold ret. cbn [fst snd]. rewrite app_nil_r, Hs. done.
Qed.

Lemma runs_final c0 Φ (m : Step_ A) : runs c0 Φ (bind m ret) → runs c0 Φ m.
Proof.
  intros Hm s Hs. specialize (Hm s Hs). unfold bind, ret in Hm. by destruct (m s).
Qed.

Lemma runs_getCtx c0 Φ (k : workflowContext → Step_ A) :
  runs c0 Φ (k c0) → runs c0 Φ (bind getCtx k).
Proof. intros Hk s Hs. unfold bind, getCtx. rewrite Hs. by apply Hk. Qed.

Lemma runs_modifyCtx c0 Φ f (k : unit → Step_ A) :
  runs (f c0) Φ (k tt) → runs c0 Φ (bind (modifyCtx f) k).
Proof.
  intros Hk s Hs. unfold bind, modifyCtx.
  destruct (Hk (mkState (f (ctx s)) (heap s) (trace s))) as (d & Ht & Hh & HΦ);
    [by rewrite Hs|].
  by exists d.
Qed.

Lemma runs_ext c0 Φ c (k : response → Step_ A) :
  (∀ r, runs c0 (fun d => Φ ((c, r) :: d)) (k r)) → runs c0 Φ (bind (liftW (ext c)) k).
Proof.
  intros Hk s Hs. unfold bind, liftW, ext.
  destruct (Hk (respond (trace s) c)
               (mkState (ctx s) (heap s) (trace s ++ [(c, respond (trace s) c)])) Hs)
    as (d & Ht & Hh & HΦ).
  exists ((c, respond (trace s) c) :: d). rewrite Ht. cbn [trace]. rewrite <- app_assoc.
  done.
Qed.

Lemma runs_log c0 Φ level message (k : unit → Step_ A) :
  runs c0 (fun d => Φ ((Log level message, ROk "") :: d)) (k tt) →
  runs c0 Φ (bind (liftW (log level message)) k).
Proof.
  intros Hk s Hs. unfold bind, liftW, log.
  destruct (Hk (mkState (ctx s) (heap s) (trace s ++ [(Log level message, ROk "")])) Hs)
    as (d & Ht & Hh & HΦ).
  exists ((Log level message, ROk "") :: d). rewrite Ht. cbn [trace]. rewrite <- app_assoc.
  done.
Qed.

Lemma runs_liftW_ret c0 Φ {B} (b : B) (k : B → Step_ A) :
  runs c0 Φ (k b) → runs c0 Φ (bind (liftW (ret b)) k).
Proof.
  intros Hk s Hs. unfold bind, liftW, ret.
  destruct (Hk s Hs) as (d & Ht & Hh & HΦ). destruct s. by exists d.
Qed.

Lemma runs_liftW_bind c0 Φ {B C} (m : W B) (f : B → W C) (k : C → Step_ A) :
  runs c0 Φ (bind (liftW m) (fun b => bind (liftW (f b)) k)) →
  runs c0 Φ (bind (liftW (bind m f)) k).
Proof.
  intros Hk s Hs. specialize (Hk s Hs). unfold bind, liftW in *.
  destruct (m (trace s)) as [b tr1]. cbn [trace ctx heap] in *.
  by destruct (f b tr1).
Qed.

Lemma runs_assoc c0 Φ {B C} (m : Step_ B) (f : B → Step_ C) (k : C → Step_ A) :
  runs c0 Φ (bind m (fun b => bind (f b) k)) → runs c0 Φ (bind (bind m f) k).
Proof.
  intros Hk s Hs. specialize (Hk s Hs). unfold bind in *.
  destruct (m s) as [b s1]. by destruct (f b s1).
Qed.

Lemma runs_ret_bind c0 Φ {B} (b : B) (k : B → Step_ A) :
  runs c0 Φ (k b) → runs c0 Φ (bind (ret b) k).
Proof. intros Hk s Hs. by apply Hk. Qed.

End Runs.

(** One step of the execution. *)
Ltac runs_step :=
  first
    [ match goal with
      | |- runs _ _ ?m =>
          match m with
          | context [err_of ?r] => is_var r; destruct r; cbn [err_of]
          end
      end
    | apply runs_getCtx
    | apply runs_ext; intros ?
    | apply runs_log
    | apply runs_liftW_ret
    | apply runs_liftW_bind
    | apply runs_modifyCtx
    | apply runs_ret_bind
    | apply runs_assoc
    | match goal with
      | |- runs _ _ (bind (liftW (match ?x with _ => _ end)) _) =>
          first [is_var x; destruct x | destruct x eqn:?]
      | |- runs _ _ (bind (match ?x with _ => _ end) _) =>
          first [is_var x; destruct x | destruct x eqn:?]
      | |- runs _ _ (match ?x with _ => _ end) =>
          first [is_var x; destruct x | destruct x eqn:?]
      end
    | match goal with
      | |- runs _ _ (bind _ _) => fail 1
      | |- runs _ _ (ret _) => fail 1
      | |- runs _ _ _ => apply runs_final
      end ].

Section PackageStep.
Context `{Externals}.

Lemma createPackageStep_runs c0 :
  let executableOutput := sanitizedName (serviceName c0) +:+ ".lambda.amd64" in
  runs c0 (fun delta r c' =>
             c' = c0
             ∧ removals delta = (if buildSucceeded delta then [executableOutput] else [])
             ∧ (r.2 = None →
                ∃ tmp, r.1 = Some (createUploadStep tmp)
                       ∧ temporaryFiles delta = [(sanitizedName (serviceName c0), tmp)]
                       ∧ zipCalls delta
                         = [ZipAddToZip executableOutput "";
                            ZipCreate "index.js";
                            ZipWrite "index.js"
                              (nodeJSShimSource (serviceName c0) executableOutput
                                                (lambdaAWSInfos c0));
                            ZipCreate "sparta_utils.js";
                            ZipWrite "sparta_utils.js"
                              (escFSMustString "/resources/provision/sparta_utils.js");
                            ZipCreate "golang-constants.json";
                            ZipWrite "golang-constants.json"
                              (escFSMustString "/resources/provision/golang-constants.json");
                            ZipClose]))
       (runStep createPackageStep).
Proof.
  intros executableOutput.
  unfold runStep, createPackageStep, packageArchive, buildGoBinary, removeBinary,
    callWorkflowHook, logFilesize, writeNodeJSShim, writeCustomResources,
    customResourceScripts, hookOf, provisioningResourcesRelPath.
  cbn [writeCustomResources_loop].
  fold executableOutput.
  repeat runs_step.
  all: apply runs_ret; split; [reflexivity|]; split; [reflexivity|].
  all: intros Hr; try discriminate Hr.
  all: eexists; split; [reflexivity|]; split; reflexivity.
Qed.

(** X14.  The package step changes neither the context nor the role
    definitions.  It asks for the removal of the compiled binary exactly
    when the Go build produced it, whether the packaging that follows
    succeeds or fails, and it removes no other file. *)
Theorem createPackageStep_binary_cleanup (s : state) :
  let r := runStep createPackageStep s in
  let executableOutput := sanitizedName (serviceName (ctx s)) +:+ ".lambda.amd64" in
  ctx r.2 = ctx s
  ∧ heap r.2 = heap s
  ∧ ∃ delta,
      trace r.2 = trace s ++ delta
      ∧ removals delta = (if buildSucceeded delta then [executableOutput] else []).
Proof.
  intros r executableOutput.
  destruct (createPackageStep_runs (ctx s) s eq_refl) as (d & Ht & Hh & Hc & Hrm & _).
  split; [done|]. split; [done|]. by exists d.
Qed.

(** X15.  When the package step returns no error, the next step is the
    upload step for the temporary file that it created under the sanitized
    service name, and the archive was written in this order: the compiled
    binary, [index.js] with the source of the dispatch shim for the
    declared functions, the two scripts of the provisioning resources, and
    the close of the archive. *)
Theorem createPackageStep_archive (s : state) :
  let r := runStep createPackageStep s in
  let executableOutput := sanitizedName (serviceName (ctx s)) +:+ ".lambda.amd64" in
  r.1.2 = None →
  ∃ delta tmp,
    trace r.2 = trace s ++ delta
    ∧ r.1.1 = Some (createUploadStep tmp)
    ∧ temporaryFiles delta = [(sanitizedName (serviceName (ctx s)), tmp)]
    ∧ zipCalls delta
      = [ZipAddToZip executableOutput "";
         ZipCreate "index.js";
         ZipWrite "index.js"
           (nodeJSShimSource (serviceName (ctx s)) executableOutput
                             (lambdaAWSInfos (ctx s)));
         ZipCreate "sparta_utils.js";
         ZipWrite "sparta_utils.js"
           (escFSMustString "/resources/provision/sparta_utils.js");
         ZipCreate "golang-constants.json";
         ZipWrite "golang-constants.json"
           (escFSMustString "/resources/provision/golang-constants.json");
         ZipClose].
Proof.
  intros r executableOutput Hr.
  destruct (createPackageStep_runs (ctx s) s eq_refl) as (d & Ht & _ & _ & _ & Hzip).
  destruct (Hzip Hr) as (tmp & Hnext & Htmp & Hcalls). by exists d, tmp.
Qed.

End PackageStep.

Lemma createPackageStep_archive_witness :
  let s := stateOf [simpleLambda "alpha" "ops"] false None in
  let r := runStep (@createPackageStep quietWorld) s in
  ∃ delta tmp,
    trace r.2 = trace s ++ delta
    ∧ r.1.1 = Some (@createUploadStep quietWorld tmp)
    ∧ temporaryFiles delta = [("Svc", tmp)]
    ∧ zipCalls delta
      = [ZipAddToZip "Svc.lambda.amd64" "";
         ZipCreate "index.js";
         ZipWrite "index.js"
           (@nodeJSShimSource quietWorld "Svc" "Svc.lambda.amd64" [simpleLambda "alpha" "ops"]);
         ZipCreate "sparta_utils.js";
         ZipWrite "sparta_utils.js" "// /resources/provision/sparta_utils.js";
         ZipCreate "golang-constants.json";
         ZipWrite "golang-constants.json" "// /resources/provision/golang-constants.json";
         ZipClose].
Proof.
  intros s r.
  assert (Hr : r.1.2 = None) by (vm_compute; reflexivity).
  exact (@createPackageStep_archive quietWorld s Hr).
Defined.

Section UploadFile.
Context `{Externals}.

Lemma runs_W {A} (Φ : list event → A → Prop) (m : W A) :
  (∀ c0, runs c0 (fun d a _ => Φ d a) (liftW m)) →
  ∀ tr, ∃ delta, (m tr).2 = tr ++ delta ∧ Φ delta (m tr).1.
Proof.
  intros Hm tr.
  destruct (Hm (ctx (stateOf [] false None)) (mkState (ctx (stateOf [] false None)) ∅ tr) eq_refl)
    as (d & Ht & _ & HΦ).
  unfold liftW in *. cbn [trace] in *. destruct (m tr) as [a tr1]. by exists d.
Qed.

Lemma uploadLocalFileToS3_runs localPath S3Bucket S3KeyPrefix noop tr :
  let run := uploadLocalFileToS3 localPath S3Bucket S3KeyPrefix noop tr in
  ∃ delta,
    run.2 = tr ++ delta
    ∧ match run.1.2 with
      | None =>
          removals delta = [localPath]
          ∧ if noop then uploadAnswers delta = [] ∧ lifecycleAnswers delta = []
            else ∃ p, uploadAnswers delta = [ROk p]
      | Some e =>
          (removals delta = [localPath] ∧ uploadAnswers delta = [RErr e] ∧ run.1.1 = "")
          ∨ (removals delta = [] ∧ uploadAnswers delta = [] ∧ run.1.1 = ""
             ∧ ∃ e0, lifecycleAnswers delta = [RErr e0]
                     ∧ GoStrings.Contains e0 "NoSuchLifecycleConfiguration" = false
                     ∧ e = "Failed to ensure bucket policies: "
                           +:+ ("Failed to fetch S3 Bucket Policy: " +:+ e0))
      end
    ∧ (∀ e0, lifecycleAnswers delta = [RErr e0] →
             GoStrings.Contains e0 "NoSuchLifecycleConfiguration" = true →
             "Bucket should have ObjectExpiration lifecycle enabled." ∈ warnings delta
             ∧ removals delta = [localPath]).
Proof.
  intros run. subst run. revert tr.
  apply (runs_W (fun delta (r : string * option error) =>
    match r.2 with
    | None =>
        removals delta = [localPath]
        ∧ if noop then uploadAnswers delta = [] ∧ lifecycleAnswers delta = []
          else ∃ p, uploadAnswers delta = [ROk p]
    | Some e =>
        (removals delta = [localPath] ∧ uploadAnswers delta = [RErr e] ∧ r.1 = "")
        ∨ (removals delta = [] ∧ uploadAnswers delta = [] ∧ r.1 = ""
           ∧ ∃ e0, lifecycleAnswers delta = [RErr e0]
                   ∧ GoStrings.Contains e0 "NoSuchLifecycleConfiguration" = false
                   ∧ e = "Failed to ensure bucket policies: "
                         +:+ ("Failed to fetch S3 Bucket Policy: " +:+ e0))
    end
    ∧ (∀ e0, lifecycleAnswers delta = [RErr e0] →
             GoStrings.Contains e0 "NoSuchLifecycleConfiguration" = true →
             "Bucket should have ObjectExpiration lifecycle enabled." ∈ warnings delta
             ∧ removals delta = [localPath]))).
  intros c0. apply runs_final.
  unfold uploadLocalFileToS3, ensureExpirationPolicy, removeLocalFile.
  repeat runs_step.
  all: apply runs_ret; cbn [fst snd].
  all: try match goal with Hn : negb _ = _ |- _ =>
             first [apply negb_true_iff in Hn | apply negb_false_iff in Hn] end.
  all: split;
    [|intros ? Hl Hc; unfold lifecycleAnswers in Hl; cbn [omap fst snd] in Hl;
      first [discriminate Hl
            |injection Hl as <-;
             first [congruence|split; [apply elem_of_cons; by left|reflexivity]]]].
  all: try (split; [reflexivity|]; try (split; reflexivity); by eexists).
  all: try (left; repeat split; reflexivity).
  all: right; repeat split; try reflexivity; eexists; repeat split; try reflexivity; done.
Qed.

End UploadFile.

Section UploadFileCleanup.
Context `{Externals}.

(** X16.  [uploadLocalFileToS3] asks for the removal of the local file
    exactly once in every run that gets past the check of the bucket: when
    it returns no error, and when the upload fails, in which case it
    returns the error of the upload and an empty key.  A dry run uploads
    nothing and does not read the lifecycle configuration.  When the
    lifecycle look-up fails with an error other than
    [NoSuchLifecycleConfiguration], the function returns that error under
    two prefixes, uploads nothing and leaves the local file in place; a
    [NoSuchLifecycleConfiguration] failure only logs a warning. *)
Theorem uploadLocalFileToS3_removes_local_file localPath S3Bucket S3KeyPrefix noop tr :
  let run := uploadLocalFileToS3 localPath S3Bucket S3KeyPrefix noop tr in
  ∃ delta, run.2 = tr ++ delta
    ∧ match run.1.2 with
      | None =>
          removals delta = [localPath]
          ∧ if noop then uploadAnswers delta = [] ∧ lifecycleAnswers delta = []
            else ∃ p, uploadAnswers delta = [ROk p]
      | Some e =>
          (removals delta = [localPath] ∧ uploadAnswers delta = [RErr e] ∧ run.1.1 = "")
          ∨ (removals delta = [] ∧ uploadAnswers delta = [] ∧ run.1.1 = ""
             ∧ ∃ e0, lifecycleAnswers delta = [RErr e0]
                     ∧ GoStrings.Contains e0 "NoSuchLifecycleConfiguration" = false
                     ∧ e = "Failed to ensure bucket policies: "
                           +:+ ("Failed to fetch S3 Bucket Policy: " +:+ e0))
      end
    ∧ (∀ e0, lifecycleAnswers delta = [RErr e0] →
             GoStrings.Contains e0 "NoSuchLifecycleConfiguration" = true →
             "Bucket should have ObjectExpiration lifecycle enabled." ∈ warnings delta
             ∧ removals delta = [localPath]).
Proof. apply uploadLocalFileToS3_runs. Qed.

End UploadFileCleanup.

(** ** API Gateway methods and the S3 site export *)

Section GatewayMethods.

(** X17.  [NewMethod] leaves the path of the resource, the methods
    registered for other HTTP methods and every method that existed
    unchanged.  After the call the HTTP method is registered; when the call
    returns no error, the pointer returned is the one registered, it is
    new, and it points to a method with the authorization type NONE and no
    API key required.  A second call for the same HTTP method returns an
    error and changes nothing. *)
Theorem NewMethod_registers_once httpMethod resource (h : methodHeap) :
  let run := NewMethod httpMethod (resource, h) in
  pathPart run.2.1 = pathPart resource
  ∧ (∀ k, k ≠ httpMethod → Methods run.2.1 !! k = Methods resource !! k)
  ∧ (∀ q m, h !! q = Some m → run.2.2 !! q = Some m)
  ∧ (∃ p, Methods run.2.1 !! httpMethod = Some p
          ∧ (run.1.2 = None → run.1.1 = Some p ∧ h !! p = None
             ∧ run.2.2 !! p = Some (mkMethod "NONE" httpMethod false)))
  ∧ (∃ e, NewMethod httpMethod run.2 = ((None, Some e), run.2)).
Proof.
  intros run. subst run.
  destruct (Methods resource !! httpMethod) as [q|] eqn:Hq.
  - destruct (NewMethod_taken httpMethod resource h q Hq) as [e He].
    rewrite He. cbn [fst snd].
    repeat split; try done.
    + exists q. split; [done|]. discriminate.
    + by exists e.
  - set (p := fresh (dom h)).
    assert (Hfresh : h !! p = None) by apply not_elem_of_dom, is_fresh.
    assert (He : NewMethod httpMethod (resource, h)
                 = ((Some p, None),
                    ({| pathPart := pathPart resource;
                        Methods := <[httpMethod := p]> (Methods resource) |},
                     <[p := mkMethod "NONE" httpMethod false]> h))).
    { unfold NewMethod. by rewrite Hq. }
    rewrite He. cbn [fst snd pathPart Methods].
    split; [done|].
    split; [intros k Hk; by rewrite lookup_insert_ne|].
    split.
    { intros q m Hm. rewrite lookup_insert_ne; [done|]. intros <-. congruence. }
    split.
    { exists p. split; [apply lookup_insert_eq|]. intros _. split; [done|]. split; [done|].
      apply lookup_insert_eq. }
    eapply NewMethod_taken. cbn [Methods]. apply lookup_insert_eq.
Qed.

End GatewayMethods.

Section SiteExport.
Context `{Externals}.

Lemma dom_AddResource name body t :
  dom (Resources (AddResource name body t)) = {[name]} ∪ dom (Resources t).
Proof. unfold AddResource. cbn [Resources]. apply dom_insert_L. Qed.

Lemma Resources_AddResource_ne name body t k :
  k ≠ name → Resources (AddResource name body t) !! k = Resources t !! k.
Proof. intros Hk. unfold AddResource. cbn [Resources]. by rewrite lookup_insert_ne. Qed.

Lemma Resources_AddOutput name v t : Resources (AddOutput name v t) = Resources t.
Proof. reflexivity. Qed.

Ltac template_resources :=
  repeat first [rewrite Resources_AddOutput | rewrite dom_AddResource].

(** X18.  [S3Site.export] only adds to the template.  Whether it returns
    an error or not, the template it leaves has every resource name it
    had, the bucket, the bucket policy and the IAM role of the site, the
    output [S3SiteURL] set to the website URL of the bucket, the same
    description, and unchanged resources under every name other than the
    five of the site.  When it returns no error the template also has the
    function that creates the site and the [ZipToS3Bucket] custom resource;
    when the name of that custom resource is not otherwise in use, the
    resource is in the template only if the export returned no error. *)
Theorem S3Site_export_partial_template s3Site template tr :
  let run := S3Site_export s3Site template tr in
  let template' := run.1.2 in
  let bucket := site_bucketResourceName s3Site in
  let policy := stableCloudformationResourceName "S3SiteBucketPolicy" in
  let role := stableCloudformationResourceName "S3SiteIAMRole" in
  let creator := stableCloudformationResourceName "S3SiteCreator" in
  let builder := CloudFormationResourceName "S3SiteBuilder" [] in
  dom (Resources template) ∪ {[bucket; policy; role]} ⊆ dom (Resources template')
  ∧ Outputs template' = <["S3SiteURL" := GetAtt bucket "WebsiteURL"]> (Outputs template)
  ∧ tpl_Description template' = tpl_Description template
  ∧ (∀ name, name ∉ [bucket; policy; role; creator; builder] →
             Resources template' !! name = Resources template !! name)
  ∧ (run.1.1 = None →
     Resources template' !! builder = Some (OtherResource "ZipToS3Bucket")
     ∧ creator ∈ dom (Resources template'))
  ∧ (builder ∉ dom (Resources template) ∪ {[bucket; policy; role; creator]} →
     builder ∈ dom (Resources template') → run.1.1 = None).
Proof.
  intros run template' bucket policy role creator builder.
  subst run template'. unfold S3Site_export. run_monad. cbn [fst snd].
  fold bucket policy role creator builder.
  repeat case_respond;
    try match goal with |- context [negb (String.eqb ?a ?b)] =>
          destruct (negb (String.eqb a b)) end;
    cbn [fst snd];
    (split; [template_resources; set_solver|]);
    (split; [reflexivity|]);
    (split; [reflexivity|]);
    (split; [intros name Hn;
             repeat first [rewrite Resources_AddOutput
                          |rewrite Resources_AddResource_ne
                             by (intros ->; apply Hn; set_solver)];
             reflexivity|]);
    (split; [first [discriminate
                   |intros _; split;
                    [unfold AddResource; cbn [Resources]; apply lookup_insert_eq
                    |template_resources; set_solver]]|]);
    first [reflexivity
          |intros Hfresh Hin; exfalso; apply Hfresh;
           revert Hin; template_resources; set_solver].
Qed.

End SiteExport.

(** ** Panics of the driver *)

Section Panics.
Context `{Externals}.

Lemma lambdaFunctionName_panic info m :
  (lambdaFunctionName info).1 = Panic m → m = "index out of range".
Proof.
  unfold lambdaFunctionName.
  destruct (negb (String.eqb (cachedLambdaFunctionName info) "")); [done|].
  destruct (spartaOptionsName info); [done|].
  match goal with |- context [if ?b then _ else _] => destruct b end.
  - destruct (GoStrings.reCapture_FindAllString _) as [|p0 [|p1 rest]];
      [by intros [= <-]|by intros [= <-]|].
    destruct (split_aux_last "/"%char p1 "") as [l Hl].
    unfold GoStrings.Split. by rewrite Hl.
  - match goal with |- context [if ?b then _ else _] => destruct b end; [|done].
    match goal with |- context [GoStrings.Split ?n _] =>
      destruct (split_aux_last "/"%char n "") as [l Hl] end.
    unfold GoStrings.Split. by rewrite Hl.
Qed.

Lemma countDefinitions_Panic infos memo m infos' :
  countDefinitions infos memo = (Panic m, infos') → m = "index out of range".
Proof.
  induction infos as [|l infos IH] in memo, infos' |- *; [done|].
  cbn [countDefinitions].
  destruct (lambdaFunctionName l) as [[n|m'] l'] eqn:Hl.
  - destruct (countDefinitions infos _) as [r rest] eqn:Hrest.
    intros [= -> <-]. by eapply IH.
  - intros [= <- _]. apply (lambdaFunctionName_panic l). by rewrite Hl.
Qed.

(** X19.  When the name of some declared function cannot be derived,
    [Provision] panics with an index out of range before anything else:
    nothing is logged, no call leaves the process, no context is created
    and the role definitions are unchanged. *)
Theorem Provision_panics_before_any_call (a : provisionArgs) (h : roleHeap) (tr : list event) :
  ¬ Forall derivable (arg_lambdaAWSInfos a) →
  returned (Provision a h tr) = Panic "index out of range"
  ∧ final_trace (Provision a h tr) = tr
  ∧ final_ctx (Provision a h tr) = None
  ∧ final_heap (Provision a h tr) = h.
Proof.
  intros Hnot. unfold Provision, validateSpartaPreconditions.
  destruct (countDefinitions (arg_lambdaAWSInfos a) ∅) as [[memo|m0] infos'] eqn:Hc.
  - destruct Hnot. by eapply countDefinitions_Ret.
  - unfold ret. cbn [returned final_trace final_ctx final_heap].
    apply countDefinitions_Panic in Hc as ->. done.
Qed.

End Panics.

Lemma Provision_panics_before_any_call_witness :
  let a := provisionOf [simpleLambda "alpha" "ops"; structMethodLambda (Some 1)] false None in
  returned (@Provision quietWorld a ∅ []) = Panic "index out of range"
  ∧ final_trace (@Provision quietWorld a ∅ []) = []
  ∧ final_ctx (@Provision quietWorld a ∅ []) = None
  ∧ final_heap (@Provision quietWorld a ∅ []) = ∅.
Proof.
  intros a. apply (@Provision_panics_before_any_call quietWorld a ∅ []).
  intros Hall. apply Forall_cons in Hall as [_ Hall]. apply Forall_cons in Hall as [[n Hn] _].
  vm_compute in Hn. discriminate Hn.
Defined.

(** ** Custom resources and API Gateway resources *)

Section CustomResources.
Context `{Externals}.

Lemma lambdaFunctionName_set_customResources crs info :
  lambdaFunctionName (set_customResources crs info)
  = ((lambdaFunctionName info).1, set_customResources crs (lambdaFunctionName info).2).
Proof.
  unfold lambdaFunctionName, spartaOptionsName, set_customResources.
  cbn [cachedLambdaFunctionName Options lambdaFn userSuppliedFunctionName].
  destruct (negb (String.eqb (cachedLambdaFunctionName info) "")); [done|].
  match goal with |- context [match ?c with Ret _ => _ | Panic _ => _ end] =>
    destruct c end; done.
Qed.

Lemma derivable_set_customResources crs info :
  derivable info → derivable (set_customResources crs info).
Proof.
  intros [n Hn]. exists n. by rewrite lambdaFunctionName_set_customResources.
Qed.

Lemma count_twice (n : string) (l1 l2 : list string) :
  n ∈ l1 → n ∈ l2 → 2 ≤ length (filter (eq n) (l1 ++ l2)).
Proof.
  intros H1 H2. rewrite filter_app, length_app.
  assert (Hpos : ∀ l : list string, n ∈ l → 1 ≤ length (filter (eq n) l)).
  { intros l Hl. assert (Hf : n ∈ filter (eq n) l) by by apply list_elem_of_filter.
    destruct (filter (eq n) l); [by apply elem_of_nil in Hf|cbn; lia]. }
  specialize (Hpos l1 H1) as Hp1. specialize (Hpos l2 H2) as Hp2. lia.
Qed.

Lemma RequireCustomResource_required goSyntaxString role f opts info h v s :
  RequireCustomResource goSyntaxString role (FunctionHandler f) opts (info, h) = (Ret v, s) →
  ∃ resourceInfo,
    s.1 = set_customResources (customResources info ++ [resourceInfo]) info
    ∧ userFunctionName resourceInfo = runtimeFuncName f
    ∧ cr_handlerSymbol resourceInfo = Some f
    ∧ v = (customResourceInfo_logicalName goSyntaxString resourceInfo, None)
    ∧ (∀ q d, h !! q = Some d → s.2 !! q = Some d)
    ∧ match roleDefinition resourceInfo with
      | Some p => h !! p = None ∧ roleName resourceInfo = ""
                  ∧ ∃ d, role = RoleDefinitionArgument d ∧ s.2 !! p = Some d
      | None => role = RoleNameArgument (roleName resourceInfo) ∧ s.2 = h
      end.
Proof.
  unfold RequireCustomResource. destruct role as [roleName|definition|printed];
    intros [= <- <-]; cbn [fst snd].
  - eexists. repeat split; try reflexivity. done.
  - eexists. split; [reflexivity|]. cbn [userFunctionName cr_handlerSymbol roleDefinition].
    assert (Hfresh : h !! fresh (dom h) = None) by apply not_elem_of_dom, is_fresh.
    repeat split; try reflexivity; try done.
    + intros q d Hq. rewrite lookup_insert_ne; [done|]. intros <-. congruence.
    + exists definition. split; [done|]. apply lookup_insert_eq.
Qed.

Lemma RequireCustomResource_collision goSyntaxString role1 role2 f opts1 opts2
    (l1 l2 : LambdaAWSInfo) (h : roleHeap) (tr : list event) :
  let r1 := RequireCustomResource goSyntaxString role1 (FunctionHandler f) opts1 (l1, h) in
  let r2 := RequireCustomResource goSyntaxString role2 (FunctionHandler f) opts2
              (l2, r1.2.2) in
  derivable l1 → derivable l2 →
  (∃ v, r1.1 = Ret v) → (∃ v, r2.1 = Ret v) →
  ∃ lines,
    (validateSpartaPreconditions [r1.2.1; r2.2.1] tr).1.1
    = Ret (Some (GoStrings.Join lines newline))
    ∧ ("Multiple definitions of lambda: " +:+ runtimeFuncName f) ∈ lines
    ∧ ∀ a heap, arg_lambdaAWSInfos a = [r1.2.1; r2.2.1] →
                returned (Provision a heap tr) = Ret (Some (GoStrings.Join lines newline)).
Proof.
  intros r1 r2 Hd1 Hd2 [v1 Hv1] [v2 Hv2].
  destruct r1 as [o1 s1] eqn:Hr1. destruct r2 as [o2 s2] eqn:Hr2.
  cbn [fst snd] in *. subst o1 o2. subst r1.
  apply RequireCustomResource_required in Hr1 as (c1 & Hs1 & Hn1 & _).
  destruct s1 as [l1' h1]. cbn [fst snd] in *. subst r2.
  apply RequireCustomResource_required in Hr2 as (c2 & Hs2 & Hn2 & _).
  destruct s2 as [l2' h2]. cbn [fst snd] in *. subst l1' l2'.
  set (l1' := set_customResources _ l1). set (l2' := set_customResources _ l2).
  assert (Hder : Forall derivable [l1'; l2']).
  { repeat constructor; by apply derivable_set_customResources. }
  destruct (validateSpartaPreconditions_text [l1'; l2'] tr Hder) as (dups & _ & Hdups & Htext).
  assert (Hin : runtimeFuncName f ∈ dups).
  { apply Hdups. unfold definedNames. cbn [flat_map]. rewrite app_nil_r.
    apply count_twice.
    - apply elem_of_cons. right. unfold l1'. cbn [customResources set_customResources].
      rewrite map_app. apply elem_of_app. right. cbn [map]. rewrite Hn1.
      apply elem_of_cons. by left.
    - apply elem_of_cons. right. unfold l2'. cbn [customResources set_customResources].
      rewrite map_app. apply elem_of_app. right. cbn [map]. rewrite Hn2.
      apply elem_of_cons. by left. }
  cbv zeta in Htext.
  set (lines := signatureErrors [l1'; l2'] ++ _) in Htext.
  assert (Hline : ("Multiple definitions of lambda: " +:+ runtimeFuncName f) ∈ lines).
  { unfold lines. apply elem_of_app. right.
    change (map ?g ?l) with (g <$> l). apply list_elem_of_fmap. eauto. }
  exists lines. destruct lines as [|line lines]; [by apply elem_of_nil in Hline|].
  split; [done|]. split; [done|].
  intros a heap Ha. unfold Provision. rewrite Ha.
  destruct (validateSpartaPreconditions [l1'; l2'] tr) as [[v infos] tr1].
  cbn [fst snd] in Htext. by subst v.
Qed.

(** X20.  [RequireCustomResource] either returns an error, panics, or
    appends exactly one custom resource at the end of the custom resources
    of the declaration.  A nil handler and a handler that is not a function
    give an error and an empty name and change nothing; a role argument
    that is neither a name nor a definition panics and changes nothing.
    Otherwise the new custom resource carries the name that reflection
    finds for the handler, the name returned is
    [CloudFormationResourceName] of that name and of the digest of its
    printed form, the derived name of the function is what it was, the
    role definitions that existed are unchanged, and a role definition
    given by value is copied behind a new pointer. *)
Theorem RequireCustomResource_appends_one goSyntaxString role handler opts
    (info : LambdaAWSInfo) (h : roleHeap) :
  let r := RequireCustomResource goSyntaxString role handler opts (info, h) in
  match r.1 with
  | Ret (name, None) =>
      ∃ f resourceInfo,
        handler = FunctionHandler f
        ∧ r.2.1 = set_customResources (customResources info ++ [resourceInfo]) info
        ∧ userFunctionName resourceInfo = runtimeFuncName f
        ∧ name = CloudFormationResourceName (runtimeFuncName f)
                   [sha1_hex (goSyntaxString (runtimeFuncName f))]
        ∧ lambdaFunctionName r.2.1
          = ((lambdaFunctionName info).1,
             set_customResources (customResources info ++ [resourceInfo])
                                 (lambdaFunctionName info).2)
        ∧ (∀ q d, h !! q = Some d → r.2.2 !! q = Some d)
        ∧ match roleDefinition resourceInfo with
          | Some p => h !! p = None ∧ roleName resourceInfo = ""
                      ∧ ∃ d, role = RoleDefinitionArgument d ∧ r.2.2 !! p = Some d
          | None => role = RoleNameArgument (roleName resourceInfo) ∧ r.2.2 = h
          end
  | Ret (name, Some e) =>
      r.2 = (info, h) ∧ name = ""
      ∧ match handler with
        | NilHandler => e = "RequireCustomResource userFunc must not be nil"
        | NotAFunction kind => e = "CustomResourceHandler kind " +:+ kind +:+ " is not func"
        | FunctionHandler _ => False
        end
  | Panic m =>
      r.2 = (info, h)
      ∧ ∃ f v, handler = FunctionHandler f ∧ role = OtherArgument v
               ∧ m = "Unsupported IAM Role type: " +:+ v
  end.
Proof.
  intros r. destruct handler as [|kind|f].
  - done.
  - done.
  - destruct r as [[[name [e|]]|m] s] eqn:Hr; subst r; cbn [fst snd].
    + unfold RequireCustomResource in Hr. by destruct role.
    + pose proof Hr as Hr'.
      apply RequireCustomResource_required in Hr' as (c & Hs & Hn & _ & [= ->] & Hh & Hrole).
      exists f, c. split; [done|]. split; [done|]. split; [done|].
      split; [unfold customResourceInfo_logicalName; by rewrite Hn|].
      split; [rewrite Hs; apply lambdaFunctionName_set_customResources|]. done.
    + unfold RequireCustomResource in Hr. destruct role as [| |v]; try done.
      injection Hr as <- <-. split; [done|]. by exists f, v.
Qed.

(** X21.  One handler function required as a custom resource by two
    declarations makes the service invalid: when both calls of
    [RequireCustomResource] return and the names of the two functions can
    be derived, [validateSpartaPreconditions] on the two declarations
    returns an error that has the line [Multiple definitions of lambda: ]
    followed by the name of the handler, and [Provision] returns that
    error. *)
Theorem RequireCustomResource_shared_handler goSyntaxString role1 role2 f opts1 opts2
    (l1 l2 : LambdaAWSInfo) (h : roleHeap) (tr : list event) :
  let r1 := RequireCustomResource goSyntaxString role1 (FunctionHandler f) opts1 (l1, h) in
  let r2 := RequireCustomResource goSyntaxString role2 (FunctionHandler f) opts2
              (l2, r1.2.2) in
  derivable l1 → derivable l2 →
  (∃ v, r1.1 = Ret v) → (∃ v, r2.1 = Ret v) →
  ∃ lines,
    (validateSpartaPreconditions [r1.2.1; r2.2.1] tr).1.1
    = Ret (Some (GoStrings.Join lines newline))
    ∧ ("Multiple definitions of lambda: " +:+ runtimeFuncName f) ∈ lines
    ∧ ∀ a heap, arg_lambdaAWSInfos a = [r1.2.1; r2.2.1] →
                returned (Provision a heap tr) = Ret (Some (GoStrings.Join lines newline)).
Proof. apply RequireCustomResource_collision. Qed.

End CustomResources.

Lemma RequireCustomResource_shared_handler_witness :
  let quote := fun s : string => s in
  let r1 := @RequireCustomResource quietWorld quote (RoleNameArgument "ops")
              (FunctionHandler 7) None (simpleLambda "alpha" "ops", ∅) in
  let r2 := @RequireCustomResource quietWorld quote (RoleNameArgument "ops")
              (FunctionHandler 7) None (simpleLambda "beta" "ops", r1.2.2) in
  ∃ lines,
    (@validateSpartaPreconditions quietWorld [r1.2.1; r2.2.1] []).1.1
    = Ret (Some (GoStrings.Join lines newline))
    ∧ ("Multiple definitions of lambda: " +:+ @runtimeFuncName quietWorld 7) ∈ lines.
Proof.
  intros quote r1 r2.
  destruct (@RequireCustomResource_shared_handler quietWorld quote
              (RoleNameArgument "ops") (RoleNameArgument "ops") 7 None None
              (simpleLambda "alpha" "ops") (simpleLambda "beta" "ops") ∅ [])
    as (lines & Hv & Hline & _).
  - exists "alpha". vm_compute. reflexivity.
  - exists "beta". vm_compute. reflexivity.
  - eexists. reflexivity.
  - eexists. reflexivity.
  - exists lines. split; [exact Hv|exact Hline].
Defined.

Section GatewayResources.

(** X22.  [NewResource] leaves the resources registered under other paths
    and the resources that existed unchanged.  For a path that is free it
    returns a new pointer, registered under the path, to a resource with
    that path, the given parent and no method, so that [NewMethod] for any
    HTTP method succeeds on it.  For a path that is taken it changes
    nothing and returns an error that names the function passed to this
    call, and it panics with a nil dereference when that function is nil.
    A second call for the same path always ends in one of these two
    ways. *)
Theorem NewResource_path_once pathPart (parent : option LambdaAWSInfo)
    (resources : gmap string loc) (h : gmap loc apiResource) :
  let r := NewResource pathPart parent (resources, h) in
  (∀ k, k ≠ pathPart → r.2.1 !! k = resources !! k)
  ∧ (∀ q v, h !! q = Some v → r.2.2 !! q = Some v)
  ∧ match resources !! pathPart with
    | None =>
        ∃ p, r.1 = Ret (Some p, None) ∧ h !! p = None
             ∧ r.2.1 !! pathPart = Some p
             ∧ r.2.2 !! p = Some (mkApiResource parent (mkResource pathPart ∅))
             ∧ (∀ httpMethod (mh : methodHeap),
                  (NewMethod httpMethod (mkResource pathPart ∅, mh)).1.2 = None)
    | Some _ =>
        r.2 = (resources, h)
        ∧ r.1 = match parent with
                | None => Panic nilDereference
                | Some l => Ret (None, Some ("Path " +:+ pathPart
                                             +:+ " already defined for lambda function: "
                                             +:+ lambdaFnName l))
                end
    end
  ∧ (∀ second,
       (NewResource pathPart second r.2).2 = r.2
       ∧ (NewResource pathPart second r.2).1
         = match second with
           | None => Panic nilDereference
           | Some l => Ret (None, Some ("Path " +:+ pathPart
                                        +:+ " already defined for lambda function: "
                                        +:+ lambdaFnName l))
           end).
Proof.
  intros r. subst r.
  assert (Htaken : ∀ second res (hp : gmap loc apiResource),
            is_Some (res !! pathPart) →
            NewResource pathPart second (res, hp)
            = (match second with
               | None => Panic nilDereference
               | Some l => Ret (None, Some ("Path " +:+ pathPart
                                            +:+ " already defined for lambda function: "
                                            +:+ lambdaFnName l))
               end, (res, hp))).
  { intros second res hp [q Hq]. unfold NewResource. rewrite Hq. by destruct second. }
  destruct (resources !! pathPart) as [q|] eqn:Hq.
  - rewrite (Htaken parent resources h) by eauto. cbn [fst snd].
    split; [done|]. split; [done|]. split; [done|].
    intros second. by rewrite (Htaken second resources h) by eauto.
  - set (p := fresh (dom h)).
    assert (Hfresh : h !! p = None) by apply not_elem_of_dom, is_fresh.
    assert (Hrun : NewResource pathPart parent (resources, h)
                   = (Ret (Some p, None),
                      (<[pathPart := p]> resources,
                       <[p := mkApiResource parent (mkResource pathPart ∅)]> h))).
    { unfold NewResource. by rewrite Hq. }
    rewrite Hrun. cbn [fst snd].
    split; [intros k Hk; by rewrite lookup_insert_ne|].
    split; [intros p' v Hp; rewrite lookup_insert_ne; [done|]; intros <-; congruence|].
    split.
    + exists p. split; [done|]. split; [done|].
      split; [apply lookup_insert_eq|]. split; [apply lookup_insert_eq|].
      intros httpMethod mh. unfold NewMethod. cbn [Methods]. by rewrite lookup_empty.
    + intros second. rewrite Htaken; [done|]. rewrite lookup_insert_eq. eauto.
Qed.

End GatewayResources.

(** ** The role map *)

Section RoleMap.
Context `{Externals}.

Lemma inlineRoles_declareRole p svc fn opts st :
  inlineRoles (rs_template st) (rs_map st) →
  inlineRoles (rs_template (declareRole p svc fn opts st))
              (rs_map (declareRole p svc fn opts st)).
Proof.
  intros Hinv. unfold declareRole.
  destruct (IAMRoleDefinition_logicalName p svc fn (rs_heap st)) as [name h'].
  destruct (rs_map st !! name) eqn:Hname; cbn [rs_template rs_map]; [done|].
  intros n v Hn. destruct (decide (n = name)) as [->|Hne].
  - rewrite lookup_insert_eq in Hn. injection Hn as <-. split; [done|].
    unfold AddResource. cbn [Resources]. rewrite lookup_insert_eq. eauto.
  - rewrite lookup_insert_ne in Hn by done. destruct (Hinv n v Hn) as [Hv Hres].
    split; [done|]. unfold AddResource. cbn [Resources]. by rewrite lookup_insert_ne.
Qed.

Lemma inlineRoles_appendRoleName name st :
  inlineRoles (rs_template st) (rs_map st) →
  inlineRoles (rs_template (appendRoleName name st)) (rs_map (appendRoleName name st)).
Proof. unfold appendRoleName. by destruct (String.eqb "" name). Qed.

Lemma inlineRoles_collectRoles svc st l :
  inlineRoles (rs_template st) (rs_map st) →
  inlineRoles (rs_template (collectRoles svc st l)) (rs_map (collectRoles svc st l)).
Proof.
  intros Hinv. unfold collectRoles.
  set (st1 := appendRoleName (RoleName l) st).
  assert (H1 : inlineRoles (rs_template st1) (rs_map st1))
    by by apply inlineRoles_appendRoleName.
  clearbody st1. clear Hinv st.
  set (st2 := foldl _ st1 (customResources l)).
  assert (H2 : inlineRoles (rs_template st2) (rs_map st2)).
  { subst st2. induction (customResources l) as [|cr crs IH] in st1, H1 |- *; [done|].
    cbn [foldl]. by apply IH, inlineRoles_appendRoleName. }
  clearbody st2. clear H1 st1.
  set (st3 := match RoleDefinition l with Some p => _ | None => st2 end).
  assert (H3 : inlineRoles (rs_template st3) (rs_map st3)).
  { subst st3. destruct (RoleDefinition l); [by apply inlineRoles_declareRole|done]. }
  clearbody st3. clear H2 st2.
  induction (customResources l) as [|cr crs IH] in st3, H3 |- *; [done|].
  cbn [foldl]. apply IH. destruct (roleDefinition cr); [by apply inlineRoles_declareRole|done].
Qed.

Lemma inlineRoles_collectAllRoles c h :
  inlineRoles (rs_template (collectAllRoles c h)) (rs_map (collectAllRoles c h)).
Proof.
  unfold collectAllRoles.
  assert (H0 : inlineRoles (rs_template (mkRolesState [] (cfTemplate c) ∅ h))
                           (rs_map (mkRolesState [] (cfTemplate c) ∅ h))).
  { intros n v Hn. cbn [rs_map] in Hn. by rewrite lookup_empty in Hn. }
  revert H0. generalize (mkRolesState [] (cfTemplate c) ∅ h).
  induction (lambdaAWSInfos c) as [|l infos IH]; intros st Hst; [done|].
  cbn [foldl]. by apply IH, inlineRoles_collectRoles.
Qed.

(** The second loop: what the map holds when the loop ends, and the
    failed look-up behind an error. *)
Lemma checkRoleNames_arns names (m : gmap string StringExpr) tr :
  let run := checkRoleNames names m tr in
  ∃ delta,
    run.2 = tr ++ delta
    ∧ (∀ n v, run.1.2 !! n = Some v →
              m !! n = Some v
              ∨ ∃ arn, v = StringLiteral arn ∧ (IAMGetRole n, ROk arn) ∈ delta)
    ∧ (∀ n v, m !! n = Some v → run.1.2 !! n = Some v)
    ∧ (∀ n e, (IAMGetRole n, RErr e) ∈ delta → run.1.1 = Some e)
    ∧ (∀ e, run.1.1 = Some e →
            ∃ n, n ∈ names ∧ (IAMGetRole n, RErr e) ∈ delta
                 ∧ (Log Error e, ROk "") ∈ delta)
    ∧ (run.1.1 = None → ∀ n, n ∈ names → is_Some (run.1.2 !! n))
    ∧ (∀ ev, ev ∈ delta → ∀ n r, ev = (IAMGetRole n, r) → n ∈ roleLookups delta).
Proof.
  induction names as [|a names IH] in m, tr |- *; intros run; subst run;
    cbn [checkRoleNames].
  - exists []. unfold ret. cbn [fst snd]. rewrite app_nil_r.
    split; [done|]. split; [intros n v Hn; by left|]. split; [done|].
    split; [intros n e Hev; by apply elem_of_nil in Hev|]. split; [done|].
    split; [intros _ n Hn; by apply elem_of_nil in Hn|].
    intros ev Hev. by apply elem_of_nil in Hev.
  - destruct (m !! a) as [v0|] eqn:Ha.
    + destruct (IH m tr) as (delta & Htr & Hsrc & Hkeep & Herr & Hfail & Hall & Hlook).
      exists delta. repeat split; try done.
      * intros e He. destruct (Hfail e He) as (n & Hn & Hev). exists n.
        split; [by right|done].
      * intros Hnone n Hn. apply elem_of_cons in Hn as [->|Hn]; [eauto|by apply Hall].
    + run_monad.
      set (tr0 := tr ++ [(Log Debug ("Checking IAM RoleName: " +:+ a), ROk "")]).
      destruct (respond tr0 (IAMGetRole a)) as [arn|err] eqn:Hresp.
      * set (tr1 := tr0 ++ [(IAMGetRole a, ROk arn)]).
        destruct (IH (<[a := StringLiteral arn]> m) tr1)
          as (delta & Htr & Hsrc & Hkeep & Herr & Hfail & Hall & Hlook).
        exists ([(Log Debug ("Checking IAM RoleName: " +:+ a), ROk "");
                 (IAMGetRole a, ROk arn)] ++ delta).
        split; [rewrite Htr; unfold tr1, tr0; by rewrite <- !app_assoc|].
        split.
        { intros n v Hn. destruct (Hsrc n v Hn) as [Hm|(arn' & -> & Hev)].
          - destruct (decide (n = a)) as [->|Hne].
            + rewrite lookup_insert_eq in Hm. injection Hm as <-. right.
              exists arn. split; [done|]. apply elem_of_app. left.
              apply elem_of_cons. right. apply elem_of_cons. by left.
            + rewrite lookup_insert_ne in Hm by done. by left.
          - right. exists arn'. split; [done|]. apply elem_of_app. by right. }
        split.
        { intros n v Hn. apply Hkeep. rewrite lookup_insert_ne; [done|]. congruence. }
        split.
        { intros n e Hev. apply elem_of_app in Hev as [Hev|Hev]; [|by eapply Herr].
          apply elem_of_cons in Hev as [Hev|Hev]; [discriminate Hev|].
          apply elem_of_cons in Hev as [Hev|Hev]; [discriminate Hev|].
          by apply elem_of_nil in Hev. }
        split.
        { intros e He. destruct (Hfail e He) as (n & Hn & Hev & Hlog). exists n.
          split; [by right|]. split; apply elem_of_app; by right. }
        split.
        { intros Hnone n Hn. apply elem_of_cons in Hn as [->|Hn]; [|by apply Hall].
          exists (StringLiteral arn). apply Hkeep. apply lookup_insert_eq. }
        { intros ev Hev n r ->. unfold roleLookups. cbn [app omap fst].
          apply elem_of_cons in Hev as [Hev|Hev]; [discriminate Hev|].
          apply elem_of_cons in Hev as [Hev|Hev].
          - injection Hev as -> _. apply elem_of_cons. by left.
          - apply elem_of_cons. right. by eapply Hlook. }
      * exists [(Log Debug ("Checking IAM RoleName: " +:+ a), ROk "");
                (IAMGetRole a, RErr err); (Log Error err, ROk "")].
        cbn [fst snd]. split; [unfold tr0; by rewrite <- !app_assoc|].
        split; [intros n v Hn; by left|]. split; [done|].
        split.
        { intros n e Hev.
          apply elem_of_cons in Hev as [Hev|Hev]; [discriminate Hev|].
          apply elem_of_cons in Hev as [Hev|Hev]; [by injection Hev as _ ->|].
          apply elem_of_cons in Hev as [Hev|Hev]; [discriminate Hev|].
          by apply elem_of_nil in Hev. }
        split.
        { intros e [= <-]. exists a. split; [by left|].
          split; [apply elem_of_cons; right; apply elem_of_cons; by left|].
          do 2 (apply elem_of_cons; right). apply elem_of_cons. by left. }
        split; [done|].
        intros ev Hev n r ->. unfold roleLookups. cbn [omap fst].
        apply elem_of_cons in Hev as [Hev|Hev]; [discriminate Hev|].
        apply elem_of_cons in Hev as [Hev|Hev]; [injection Hev as -> _; by left|].
        apply elem_of_cons in Hev as [Hev|Hev]; [discriminate Hev|].
        by apply elem_of_nil in Hev.
Qed.

Lemma roleLookups_elem n r (tr : list event) :
  (IAMGetRole n, r) ∈ tr → n ∈ roleLookups tr.
Proof.
  intros Hin. unfold roleLookups. apply list_elem_of_omap.
  exists (IAMGetRole n, r). by split.
Qed.

(** X23.  After [verifyIAMRoles], every entry of the role map is either
    the ARN attribute of a resource of that name which is in the template,
    or the literal ARN that the IAM service answered for that role name in
    this step.  A look-up that fails ends the step with its error and no
    next step.  When the step returns no error, the next step is the
    package step and every declared role name has an entry in the map;
    when it returns an error, that error was answered to the look-up of a
    declared role name and was logged. *)
Theorem verifyIAMRoles_role_map (s : state) :
  let r := (runStep verifyIAMRoles s).1 in
  let s' := (runStep verifyIAMRoles s).2 in
  let roles := lambdaIAMRoleNameMap (ctx s') in
  ∃ delta,
    trace s' = trace s ++ delta
    ∧ (∀ n v, roles !! n = Some v →
         (v = GetAtt n "Arn" ∧ is_Some (Resources (cfTemplate (ctx s')) !! n))
         ∨ (∃ arn, v = StringLiteral arn ∧ (IAMGetRole n, ROk arn) ∈ delta))
    ∧ (∀ n e, (IAMGetRole n, RErr e) ∈ delta → r = (None, Some e))
    ∧ match r.2 with
      | None =>
          r.1 = Some createPackageStep
          ∧ ∀ n, n ∈ declaredRoleNames (lambdaAWSInfos (ctx s)) → is_Some (roles !! n)
      | Some e =>
          r.1 = None
          ∧ ∃ n, n ∈ declaredRoleNames (lambdaAWSInfos (ctx s))
                 ∧ (IAMGetRole n, RErr e) ∈ delta
                 ∧ (Log Error e, ROk "") ∈ delta
      end.
Proof.
  intros r s' roles.
  destruct (verifyIAMRoles_run s) as (Herr & Htpl & Hmap & Hheap & tail & Htr & Htail).
  pose proof (verifyIAMRoles_next s) as Hnext.
  fold r in Herr, Hnext. fold s' in Htpl, Hmap, Hheap, Htr. fold roles in Hmap.
  set (st := collectAllRoles (ctx s) (heap s)) in *.
  set (tr0 := trace s ++ [(Log Info "Verifying IAM Lambda execution roles", ROk "")]) in *.
  pose proof (inlineRoles_collectAllRoles (ctx s) (heap s)) as Hinline. fold st in Hinline.
  assert (Hnames : allRoleNames st = declaredRoleNames (lambdaAWSInfos (ctx s))).
  { unfold st, collectAllRoles. by rewrite collectRoles_names. }
  destruct (checkRoleNames_arns (allRoleNames st) (rs_map st) tr0)
    as (delta & Hck & Hsrc & Hkeep & Hbad & Hfail & Hall & _).
  cbv zeta in Hck, Hsrc, Hkeep, Hbad, Hfail, Hall.
  rewrite <- Herr in Hbad, Hfail, Hall. rewrite <- Hmap in Hsrc, Hkeep, Hall.
  rewrite Hnames in Hfail, Hall.
  exists ([(Log Info "Verifying IAM Lambda execution roles", ROk "")] ++ delta ++ tail).
  split; [rewrite Htr, Hck; unfold tr0; by rewrite <- !app_assoc|].
  split.
  { intros n v Hn. destruct (Hsrc n v Hn) as [Hm|(arn & -> & Hev)].
    - left. rewrite Htpl. by apply Hinline.
    - right. exists arn. split; [done|]. apply elem_of_app. right. apply elem_of_app. by left. }
  assert (Hin : ∀ n x, (IAMGetRole n, x)
                       ∈ [(Log Info "Verifying IAM Lambda execution roles", ROk "")]
                         ++ delta ++ tail → (IAMGetRole n, x) ∈ delta).
  { intros n x Hev. apply elem_of_app in Hev as [Hev|Hev].
    - apply elem_of_cons in Hev as [Hev|Hev]; [discriminate Hev|by apply elem_of_nil in Hev].
    - apply elem_of_app in Hev as [Hev|Hev]; [done|].
      apply roleLookups_elem in Hev. rewrite Htail in Hev. by apply elem_of_nil in Hev. }
  split.
  { intros n e Hev. apply Hin, Hbad in Hev.
    destruct r as [[next|] [e'|]]; cbn [fst snd] in *; try done; congruence. }
  destruct r as [[next|] [e|]]; cbn [fst snd] in *; try done.
  - split; [by subst next|]. by apply Hall.
  - split; [done|]. destruct (Hfail e eq_refl) as (n & Hn & Hev & Hlog).
    exists n. split; [done|]. split; apply elem_of_app; right; apply elem_of_app; by left.
Qed.

End RoleMap.
